(** * crux: the filesystem overlay and the installer's lock seal

    A shallow embedding of the overlay that patches Node's [fs] module
    (the patches installed by [overrideNode]) and of the part of the
    installer that seals and re-checks the package map
    ([Installer.writeLockHash], [Installer.checkLock], [Installer.run],
    and [checkPkgLock] of the prepare command).

    Conventions.
    - A JavaScript call that may throw returns a [Result]; a call that
      touches the real filesystem is a state transformer on [World].
    - A Node-style asynchronous function is written in continuation
      passing style: it receives its callback and yields the list of
      events (callback invocations, uncaught throws) it causes, in order.
      The host's asynchronous primitives call back once, and no other
      work is interleaved with the call.
    - [pkglock.js], the host ([fs], [path], [Buffer], [JSON.parse]) and
      the packages ssri and libnpm are not part of the embedded sources;
      they enter through the classes [Pkglock], [Host], [Ssri],
      [JsonParser] and [Collaborators], and through the original primitive
      each patch receives. *)

From Stdlib Require Import ZArith String Ascii List Bool Lia.
From stdpp Require Import base option list strings gmap pretty.
Import ListNotations.

Local Open Scope string_scope.

(** ** JavaScript values shared by all patches *)

(** Error objects. The overlay builds [Error]s carrying [code] and [errno];
    a [TypeError], [RangeError] or [SyntaxError] carries neither and is
    told apart by its [name]. *)
Inductive JsError : Type :=
  | SystemError (message code : string) (errno : Z)
  | NamedError (name message : string).

Definition TypeError (message : string) : JsError := NamedError "TypeError" message.

(** [err.code === c] *)
Definition code_is (err : JsError) (c : string) : bool :=
  match err with
  | SystemError _ code _ => String.eqb code c
  | _ => false
  end.

Definition err_code (err : JsError) : option string :=
  match err with
  | SystemError _ code _ => Some code
  | _ => None
  end.

Definition err_message (err : JsError) : string :=
  match err with
  | SystemError message _ _ => message
  | NamedError _ message => message
  end.

Definition err_errno (err : JsError) : option Z :=
  match err with
  | SystemError _ _ errno => Some errno
  | _ => None
  end.

Inductive Result (A : Type) : Type :=
  | Ok (a : A)
  | Throw (err : JsError).
Arguments Ok {A} a.
Arguments Throw {A} err.

Definition is_ok {A} (r : Result A) : bool :=
  match r with Ok _ => true | Throw _ => false end.

(** The four error constructors at the top of the overlay. Each either
    throws the error or hands it to the callback; both uses take the error
    object from here. *)
Definition notFoundError (filePath : string) : JsError :=
  SystemError ("ENOENT, " ++ filePath ++ " not found") "ENOENT" (-2).

Definition notDirError : JsError :=
  SystemError "ENOTDIR, not a directory" "ENOTDIR" (-20).

Definition isDirError (filename op : string) : JsError :=
  SystemError ("EISDIR: illegal operation on a directory, " ++ op ++ ", " ++ filename)
              "EISDIR" (-21).

Definition accessError (filePath : string) : JsError :=
  SystemError ("EACCES, permission denies, access '" ++ filePath ++ "'")
              "EACCES" (-13).

(** What V8 throws when nested calls exhaust the call stack. *)
Definition stack_overflow : JsError :=
  NamedError "RangeError" "Maximum call stack size exceeded".

(** [fs.constants] *)
Definition F_OK : Z := 0.
Definition R_OK : Z := 4.
Definition W_OK : Z := 2.
Definition X_OK : Z := 1.

(** JavaScript's [a & b]: both operands are first wrapped to 32 bits. *)
Definition to_int32 (z : Z) : Z := (z + 2 ^ 31) mod 2 ^ 32 - 2 ^ 31.
Definition js_and (a b : Z) : Z := Z.land (to_int32 a) (to_int32 b).

(** ** The resolver's answers *)

(** Modelled from the spec: the package map's entries
    ([pkglock.js], which builds them, is not among the sources). *)
#[warnings="-register-all"]
Inductive MapEntry : Type :=
  | FileEntry (digest : string) (size mode : Z)
  | DirEntry (children : list (string * MapEntry)).

(** Modelled from the spec: what [pkglock.resolve] answers. [null] is
    [Untracked], [false] is [Missing], an object is [Found]; the fields are
    the ones the overlay reads ([isDir], [isFile], [dir], [resolvedPath]). *)
Inductive Resolved : Type :=
  | ResolvedDir (resolvedPath : string) (dir : list (string * MapEntry))
  | ResolvedFile (resolvedPath : string) (digest : string) (size mode : Z).

Inductive Resolution : Type :=
  | Untracked
  | Missing
  | Found (resolved : Resolved).

Definition isDir (r : Resolved) : bool :=
  match r with ResolvedDir _ _ => true | ResolvedFile _ _ _ _ => false end.

Definition isFile (r : Resolved) : bool :=
  match r with ResolvedDir _ _ => false | ResolvedFile _ _ _ _ => true end.

Definition resolvedPath (r : Resolved) : string :=
  match r with ResolvedDir p _ => p | ResolvedFile p _ _ _ => p end.

(** [Object.keys(resolved.dir)]; a file has no [dir]. *)
Definition Object_keys_dir (r : Resolved) : list string :=
  match r with ResolvedDir _ dir => map fst dir | ResolvedFile _ _ _ _ => [] end.

(** [resolved == null] and [!resolved] *)
Definition nullish (res : Resolution) : bool :=
  match res with Untracked => true | _ => false end.

Definition falsy (res : Resolution) : bool :=
  match res with Found _ => false | _ => true end.

(** [fs.Stats], extended by pkglock with the blob's path in the cache. *)
Record Stats : Type := mkStats {
  st_size : Z;
  st_mode : Z;
  st_isDirectory : bool;
  cachePath : string
}.

(** Arguments as JavaScript passes them. *)
Inductive Flags : Type :=
  | FlagStr (s : string)
  | FlagNum (n : Z)
  | FlagUndefined.

(** [flags === 'r'] *)
Definition flags_is_r (flags : Flags) : bool :=
  match flags with FlagStr s => String.eqb s "r" | _ => false end.

Inductive ModeArg : Type :=
  | ModeNum (m : Z)
  | ModeUndefined
  | ModeCallback.

Inductive ReadOptions : Type :=
  | OptUndefined
  | OptString (encoding : string)
  | OptObject (encoding : option string)
  | OptCallback
  | OptOther (truthy : bool).

Definition Buffer : Type := list Byte.byte.

Inductive FileData : Type :=
  | Raw (data : Buffer)
  | Text (s : string).

(** [[...new Set(files)]]: first occurrences, in order. *)
Fixpoint array_from_set (seen files : list string) : list string :=
  match files with
  | [] => []
  | f :: rest =>
      if bool_decide (f ∈ seen) then array_from_set seen rest
      else f :: array_from_set (f :: seen) rest
  end.

Definition uniq (files : list string) : list string := array_from_set [] files.

(** ** Effects *)

(** A host call: it may throw, and it may change the real filesystem
    [World]. *)
Definition Sync (World A : Type) : Type := World -> Result A * World.

Definition ret {World A} (a : A) : Sync World A := fun w => (Ok a, w).

Definition throw {World A} (err : JsError) : Sync World A := fun w => (Throw err, w).

Definition bind {World A B} (m : Sync World A) (f : A -> Sync World B) : Sync World B :=
  fun w =>
    match m w with
    | (Ok a, w') => f a w'
    | (Throw err, w') => (Throw err, w')
    end.

(** [try { m } catch (err) { handler err }] *)
Definition try_catch {World A} (m : Sync World A) (handler : JsError -> Sync World A)
    : Sync World A :=
  fun w =>
    match m w with
    | (Ok a, w') => (Ok a, w')
    | (Throw err, w') => handler err w'
    end.

(** A call into pkglock: it reads the immutable map and the blob store,
    never the project tree. *)
Definition pure {World A} (r : Result A) : Sync World A := fun w => (r, w).

Declare Scope sync_scope.
Delimit Scope sync_scope with sync.
Notation "x <- m ;; k" := (bind m (fun x => k))
  (at level 100, m at next level, right associativity) : sync_scope.
Notation "m ;;; k" := (bind m (fun _ => k))
  (at level 100, right associativity) : sync_scope.

(** What an asynchronous call lets the program observe: invocations of the
    caller's callback, and errors thrown out of the call or out of one of
    its callbacks. *)
Inductive Event (A : Type) : Type :=
  | Called (r : Result A)
  | Raised (err : JsError).
Arguments Called {A} r.
Arguments Raised {A} err.

Definition Act (World A : Type) : Type := World -> list (Event A) * World.

Definition Callback (World A R : Type) : Type := Result A -> Act World R.

(** The caller's callback, [cb(err, value)]. *)
Definition deliver {World A} : Callback World A A := fun r w => ([Called r], w).

Definition idle {World R} : Act World R := fun w => ([], w).

Definition raise {World R} (err : JsError) : Act World R := fun w => ([Raised err], w).

(** [a; b] *)
Definition andThen {World R} (a b : Act World R) : Act World R :=
  fun w =>
    let '(ev1, w1) := a w in
    let '(ev2, w2) := b w1 in
    ((ev1 ++ ev2)%list, w2).

(** A host primitive given a callback: it does its work on the real
    filesystem and calls back once with the outcome. *)
Definition invoke {World A R} (host : Sync World A) (cb : Callback World A R)
    : Act World R :=
  fun w => let '(r, w') := host w in cb r w'.

(** ** What the overlay is linked against *)

(** [pkglock.js], by signature. The resolver and the stat and read
    services work on the immutable map and the blob store; a promise is
    given by its outcome, fulfilled or rejected. *)
Class Pkglock : Type := {
  pkglock_resolve : string -> Resolution;
  pkglock_statSync : Resolved -> bool -> Result (option Stats);
  pkglock_readSync : Resolved -> Result Buffer;
  pkglock_stat : Resolved -> bool -> Result (option Stats);
  pkglock_read : Resolved -> Result Buffer
}.

(** The host: [Buffer], [path], [mkdirp] and the members of [fs] that
    [overrideNode] leaves alone. *)
Class Host (World : Type) : Type := {
  (** [buf.toString(encoding)] under an encoding that [Buffer] knows, and
      [Buffer.isEncoding], which tells the ones it knows *)
  Buffer_toString : Buffer -> string -> string;
  Buffer_isEncoding : string -> bool;
  path_basename : string -> string;
  path_dirname : string -> string;
  fs_copyFileSync : string -> string -> Sync World unit;
  fs_chmodSync : string -> Z -> Sync World unit;
  fs_copyFile : string -> string -> Sync World unit;
  fs_writeFile : string -> option FileData -> Z -> Sync World unit;
  mkdirp : string -> option Z -> Sync World unit;
  (** what a read and a stat of the path observe: content and mode *)
  file_at : World -> string -> option (Buffer * Z)
}.

(** The part of the host's contract that materialisation relies on. *)
Class HostLaws (World : Type) `{!Host World} : Prop := {
  copyFileSync_spec : forall src dst w w',
    fs_copyFileSync src dst w = (Ok tt, w') ->
    exists data m m',
      file_at w src = Some (data, m) /\ file_at w' dst = Some (data, m');
  chmodSync_spec : forall p mode w w',
    fs_chmodSync p mode w = (Ok tt, w') ->
    exists data m,
      file_at w p = Some (data, m) /\ file_at w' p = Some (data, mode)
}.

(** ** Synchronous patches *)

Section Overlay.

Context {World : Type} {pk : Pkglock} {hs : Host World}.

Local Abbreviation Sync := (Sync World).
Local Abbreviation Act := (Act World).
Local Abbreviation Callback := (Callback World).
Local Open Scope sync_scope.

(** [if (!stats) { notFoundError(p) }] after a [pkglock.statSync] *)
Definition stats_or_notFound (p : string) (stats : option Stats) : Sync Stats :=
  match stats with
  | None => throw (notFoundError p)
  | Some s => ret s
  end.

Definition lstatSync_patch (lstatSync : string -> Sync Stats) (p : string) : Sync Stats :=
  try_catch (lstatSync p) (fun err =>
    if negb (code_is err "ENOENT") then throw err
    else
      match pkglock_resolve p with
      | Found resolved =>
          stats <- pure (pkglock_statSync resolved false) ;;
          stats_or_notFound p stats
      | _ => throw (notFoundError p)
      end).

Definition statSync_patch (statSync : string -> Sync Stats) (p : string) : Sync Stats :=
  try_catch (statSync p) (fun err =>
    if negb (code_is err "ENOENT") then throw err
    else
      match pkglock_resolve p with
      | Found resolved =>
          stats <- pure (pkglock_statSync resolved false) ;;
          stats_or_notFound p stats
      | _ => throw (notFoundError p)
      end).

(** [false] is [None]. *)
Definition statSyncNoException_patch
    (statSyncNoException : string -> Sync (option Stats)) (p : string)
    : Sync (option Stats) :=
  r <- statSyncNoException p ;;
  match r with
  | Some s => ret (Some s)
  | None =>
      match pkglock_resolve p with
      | Found resolved => pure (pkglock_statSync resolved false)
      | _ => ret None
      end
  end.

Definition realpathSync_patch {Args : Type}
    (realpathSync : string -> Args -> Sync string) (p : string) (args : Args)
    : Sync string :=
  try_catch (realpathSync p args) (fun err =>
    if negb (code_is err "ENOENT") then throw err
    else
      match pkglock_resolve p with
      | Found resolved => ret (resolvedPath resolved)
      | _ => throw (notFoundError p)
      end).

Definition existsSync_patch (existsSync : string -> Sync bool) (p : string) : Sync bool :=
  let resolved := pkglock_resolve p in
  if nullish resolved then existsSync p
  else ret (negb (falsy resolved)).

(** [mode === fs.constants.F_OK || fs.constants.R_OK & mode] *)
Definition dir_mode_accepted (mode : ModeArg) : bool :=
  match mode with
  | ModeNum m => (m =? F_OK)%Z || negb (js_and R_OK m =? 0)%Z
  | _ => false
  end.

(** The file branch calls [fs.accessSync], which by then is the patched
    function itself: [fs_accessSync] is that late-bound member. *)
Definition accessSync_patch (fs_accessSync : string -> ModeArg -> Sync unit)
    (accessSync : string -> ModeArg -> Sync unit) (p : string) (mode : ModeArg)
    : Sync unit :=
  let resolved := pkglock_resolve p in
  if nullish resolved then accessSync p mode
  else
    let mode := match mode with ModeUndefined => ModeNum F_OK | _ => mode end in
    match resolved with
    | Found resolved =>
        if isDir resolved then
          if dir_mode_accepted mode then ret tt
          else throw (accessError p)
        else
          stat <- pure (pkglock_statSync resolved false) ;;
          stat <- stats_or_notFound p stat ;;
          fs_accessSync (cachePath stat) mode
    | _ => throw (notFoundError p)
    end.

(** Tying the knot [fs.accessSync = accessSync_patch fs.accessSync orig].
    [stack] bounds the depth of nested calls; JavaScript throws a
    [RangeError] when the call stack is exhausted. *)
Fixpoint fs_accessSync (stack : nat) (accessSync : string -> ModeArg -> Sync unit)
    : string -> ModeArg -> Sync unit :=
  match stack with
  | O => fun _ _ => throw stack_overflow
  | S stack' => accessSync_patch (fs_accessSync stack' accessSync) accessSync
  end.

(** Options of [readFileSync]: [Some encoding], or the [TypeError]. *)
Definition readFileSync_encoding (options : ReadOptions) : Result (option string) :=
  match options with
  | OptUndefined => Ok None
  | OptString "" => Ok None
  | OptOther false => Ok None
  | OptString encoding => Ok (Some encoding)
  | OptObject encoding => Ok encoding
  | OptCallback => Throw (TypeError "Bad arguments")
  | OptOther true => Throw (TypeError "Bad arguments")
  end.

(** [if (encoding) { data.toString(encoding) } else { data }];
    [toString] throws on an encoding that [Buffer] does not know. *)
Definition decode (encoding : option string) (data : Buffer) : Result FileData :=
  match encoding with
  | None => Ok (Raw data)
  | Some "" => Ok (Raw data)
  | Some enc =>
      if Buffer_isEncoding enc then Ok (Text (Buffer_toString data enc))
      else Throw (TypeError ("Unknown encoding: " ++ enc))
  end.

Definition readFileSync_patch (readFileSync : string -> ReadOptions -> Sync FileData)
    (p : string) (options : ReadOptions) : Sync FileData :=
  match pkglock_resolve p with
  | Untracked => readFileSync p options
  | Missing => throw (notFoundError p)
  | Found resolved =>
      if isDir resolved then throw (isDirError p "read")
      else
        encoding <- pure (readFileSync_encoding options) ;;
        data <- pure (pkglock_readSync resolved) ;;
        pure (decode encoding data)
  end.

(** The tail shared by the two outcomes of the real [readdirSync]. The
    patches take the path (and the callback) only: the real call is made
    without options. *)
Definition readdir_merge (p : string) (found : bool) (files : list string)
    : Result (list string) :=
  match pkglock_resolve p with
  | Found resolved =>
      if isDir resolved then Ok (uniq (files ++ Object_keys_dir resolved))
      else if negb found then Throw (notFoundError p)
      else Throw notDirError
  | _ =>
      if negb found then Throw (notFoundError p)
      else Ok (uniq files)
  end.

Definition readdirSync_patch (readdirSync : string -> Sync (list string)) (p : string)
    : Sync (list string) :=
  found_files <-
    try_catch (files <- readdirSync p ;; ret (true, files))
              (fun err =>
                 if negb (code_is err "ENOENT") then throw err
                 else ret (false, [])) ;;
  pure (readdir_merge p (fst found_files) (snd found_files)).

(** Copy the blob out of the cache and make it executable. *)
Definition materialise (stat : Stats) (p : string) : Sync unit :=
  fs_copyFileSync (cachePath stat) p ;;;
  fs_chmodSync p 493%Z.

Definition openSync_patch (openSync : string -> Flags -> option Z -> Sync Z)
    (p : string) (flags : Flags) (mode : option Z) : Sync Z :=
  match pkglock_resolve p with
  | Untracked => openSync p flags mode
  | Missing => throw (notFoundError p)
  | Found resolved =>
      if isDir resolved then throw (isDirError p "read")
      else
        stat <- pure (pkglock_statSync resolved true) ;;
        stat <- stats_or_notFound p stat ;;
        if flags_is_r flags then openSync (cachePath stat) flags mode
        else
          materialise stat p ;;;
          openSync p flags mode
  end.

(** [opts && opts.flags === 'r'] *)
Definition opts_flags_is_r (opts : option Flags) : bool :=
  match opts with
  | Some flags => flags_is_r flags
  | None => false
  end.

(** [opts] is [None] when absent; of the options only [flags] is read. *)
Definition createReadStream_patch {Stream : Type}
    (createReadStream : string -> option Flags -> Sync Stream)
    (p : string) (opts : option Flags) : Sync Stream :=
  match pkglock_resolve p with
  | Found resolved =>
      if isDir resolved then createReadStream p opts
      else
        stat <- pure (pkglock_statSync resolved true) ;;
        match stat with
        | None => createReadStream p opts
        | Some stat =>
            if opts_flags_is_r opts then createReadStream (cachePath stat) opts
            else
              materialise stat p ;;;
              createReadStream p opts
        end
  | _ => createReadStream p opts
  end.

Definition createWriteStream_patch {Stream : Type}
    (createWriteStream : string -> option Flags -> Sync Stream)
    (p : string) (opts : option Flags) : Sync Stream :=
  match pkglock_resolve p with
  | Found resolved =>
      if isDir resolved then createWriteStream p opts
      else
        stat <- pure (pkglock_statSync resolved true) ;;
        match stat with
        | None => createWriteStream p opts
        | Some stat =>
            materialise stat p ;;;
            createWriteStream p opts
        end
  | _ => createWriteStream p opts
  end.

(** [undefined] is [None]. *)
Definition internalModuleReadJSON_patch
    (internalModuleReadJSON : string -> Sync (option string)) (p : string)
    : Sync (option string) :=
  match pkglock_resolve p with
  | Untracked => internalModuleReadJSON p
  | Missing => ret None
  | Found resolved =>
      if isDir resolved then ret None
      else
        try_catch
          (data <- pure (pkglock_readSync resolved) ;;
           ret (Some (Buffer_toString data "utf8")))
          (fun _ => ret None)
  end.

(** [resolved && resolved.isFile], [resolved && resolved.isDir] *)
Definition truthy_isFile (res : Resolution) : bool :=
  match res with Found r => isFile r | _ => false end.

Definition truthy_isDir (res : Resolution) : bool :=
  match res with Found r => isDir r | _ => false end.

Definition internalModuleStat_patch (internalModuleStat : string -> Sync Z) (p : string)
    : Sync Z :=
  let resolved := pkglock_resolve p in
  if nullish resolved then internalModuleStat p
  else if truthy_isFile resolved then ret 0%Z
  else if truthy_isDir resolved then ret 1%Z
  else if falsy resolved && String.eqb (path_basename p) "node_modules" then ret 1%Z
  else ret (-34)%Z.

(** [overrideAPISync(module, name, arg)]: [p] is [arguments[arg]], [rest]
    the other arguments. *)
Definition overrideAPISync {Rest B : Type} (name : string)
    (old : string -> Rest -> Sync B) (p : string) (rest : Rest) : Sync B :=
  match pkglock_resolve p with
  | Untracked => old p rest
  | Missing => throw (notFoundError p)
  | Found resolved =>
      if isDir resolved then throw (isDirError p name)
      else
        stat <- pure (pkglock_statSync resolved true) ;;
        stat <- stats_or_notFound p stat ;;
        old (cachePath stat) rest
  end.

(** ** Asynchronous patches *)

(** [stat]'s callback receives the stats or, on one path, [undefined]. *)
Definition lstat_patch {R} (lstat : string -> Sync Stats) (p : string)
    (cb : Callback (option Stats) R) : Act R :=
  invoke (lstat p) (fun res =>
    match res with
    | Ok stat => cb (Ok (Some stat))
    | Throw err =>
        match pkglock_resolve p with
        | Found resolved =>
            match pkglock_stat resolved false with
            | Ok (Some stat) => cb (Ok (Some stat))
            | Ok None =>
                (* notFoundError defers to the next tick; cb(null, stat) runs first *)
                andThen (cb (Ok None)) (cb (Throw (notFoundError p)))
            | Throw err' => cb (Throw err')
            end
        | _ => cb (Throw (notFoundError p))
        end
    end).

Definition stat_patch {R} (stat : string -> Sync Stats) (p : string)
    (cb : Callback (option Stats) R) : Act R :=
  invoke (stat p) (fun res =>
    match res with
    | Ok stat => cb (Ok (Some stat))
    | Throw err =>
        match pkglock_resolve p with
        | Found resolved =>
            match pkglock_stat resolved false with
            | Ok (Some stat) => cb (Ok (Some stat))
            | Ok None =>
                (* notFoundError defers to the next tick; cb(null, stat) runs first *)
                andThen (cb (Ok None)) (cb (Throw (notFoundError p)))
            | Throw err' => cb (Throw err')
            end
        | _ => cb (Throw (notFoundError p))
        end
    end).

(** The three-argument form [realpath(p, cache, cb)]. *)
Definition realpath_patch {R Cache : Type} (realpath : string -> Cache -> Sync string)
    (p : string) (cache : Cache) (cb : Callback string R) : Act R :=
  invoke (realpath p cache) (fun res =>
    match res with
    | Throw err =>
        if negb (code_is err "ENOENT") then cb (Throw err)
        else
          match pkglock_resolve p with
          | Found resolved => cb (Ok (resolvedPath resolved))
          | _ => cb (Throw (notFoundError p))
          end
    | Ok rp => cb (Ok rp)
    end).

(** How [exists]' callback is invoked: the host passes the answer alone,
    the patch passes [null] first. *)
Inductive ExistsArgs : Type :=
  | HostStyle (answer : bool)
  | NullFirst (answer : bool).

Definition exists_patch {R} (exists_ : string -> Sync bool) (p : string)
    (cb : Callback ExistsArgs R) : Act R :=
  let resolved := pkglock_resolve p in
  if nullish resolved then
    invoke (exists_ p) (fun res =>
      match res with
      | Ok b => cb (Ok (HostStyle b))
      | Throw err => cb (Throw err)
      end)
  else cb (Ok (NullFirst (negb (falsy resolved)))).

(** The handler written for the [util.promisify.custom] member of
    [fs.exists]. [patchFn] looks that member up on [fs.exists] as it is
    after the patch above, so the handler is installed only where the
    replacement has such a member. *)
Definition exists_custom_patch (custom : string -> Sync bool) (p : string) : Sync bool :=
  let resolved := pkglock_resolve p in
  if nullish resolved then custom p
  else ret (negb (falsy resolved)).

Definition access_patch {R} (access : string -> ModeArg -> Sync unit)
    (p : string) (mode : ModeArg) (cb : Callback unit R) : Act R :=
  let resolved := pkglock_resolve p in
  if nullish resolved then invoke (access p mode) cb
  else
    let mode := match mode with ModeCallback => ModeNum F_OK | _ => mode end in
    match resolved with
    | Found resolved =>
        if isDir resolved then
          if dir_mode_accepted mode then cb (Ok tt)
          else cb (Throw (accessError p))
        else
          match pkglock_stat resolved false with
          | Ok (Some stat) => invoke (access (cachePath stat) mode) cb
          | Ok None => cb (Throw (notFoundError p))
          | Throw err => cb (Throw err)
          end
    | _ => cb (Throw (notFoundError p))
    end.

(** Options of [readFile]: [Some encoding], or the [TypeError]. *)
Definition readFile_encoding (options : ReadOptions) : Result (option string) :=
  match options with
  | OptCallback => Ok None
  | OptString encoding => Ok (Some encoding)
  | OptUndefined => Ok None
  | OptOther _ => Throw (TypeError "badarg")
  | OptObject encoding => Ok encoding
  end.

Definition readFile_patch {R} (readFile : string -> ReadOptions -> Sync FileData)
    (p : string) (options : ReadOptions) (cb : Callback FileData R) : Act R :=
  let resolved := pkglock_resolve p in
  if nullish resolved then invoke (readFile p options) cb
  else
    match readFile_encoding options with
    | Throw err => raise err
    | Ok encoding =>
        match resolved with
        | Found resolved =>
            if isDir resolved then cb (Throw (isDirError p "read"))
            else
              match pkglock_read resolved with
              | Ok data =>
                  match decode encoding data with
                  | Ok data => cb (Ok data)
                  (* thrown inside the fulfilment handler: the promise that
                     [then] returns rejects, and nobody is told *)
                  | Throw _ => idle
                  end
              | Throw err => cb (Throw err)
              end
        | _ => cb (Throw (notFoundError p))
        end
    end.

Definition readdir_patch {R} (readdir : string -> Sync (list string)) (p : string)
    (cb : Callback (list string) R) : Act R :=
  invoke (readdir p) (fun res =>
    match res with
    | Throw err =>
        if negb (code_is err "ENOENT") then cb (Throw err)
        else cb (readdir_merge p false [])
    | Ok files => cb (readdir_merge p true files)
    end).

(** [fs_readFile] is [fs.readFile] as bound when the callbacks run: the
    patched one. After an error the source calls back and carries on. *)
Definition chmod_patch {R}
    (fs_readFile : string -> ReadOptions -> Callback FileData R -> Act R)
    (chmod : string -> Z -> Sync unit)
    (p : string) (mode : Z) (cb : Callback unit R) : Act R :=
  match pkglock_resolve p with
  | Untracked => invoke (chmod p mode) cb
  | Missing => raise (notFoundError p)
  | Found resolved =>
      if isDir resolved then invoke (mkdirp p (Some mode)) cb
      else
        invoke (mkdirp (path_dirname p) None) (fun res1 =>
          andThen
            (match res1 with Throw err => cb (Throw err) | Ok _ => idle end)
            (fs_readFile p OptCallback (fun res2 =>
               andThen
                 (match res2 with Throw err => cb (Throw err) | Ok _ => idle end)
                 (invoke
                    (fs_writeFile p
                       (match res2 with Ok data => Some data | Throw _ => None end)
                       mode)
                    cb))))
  end.

(** [fs_chmod] is [fs.chmod] as bound when the callbacks run: the patched
    one. *)
Definition open_patch {R}
    (fs_chmod : string -> Z -> Callback unit R -> Act R)
    (open : string -> Flags -> option Z -> Sync Z)
    (p : string) (flags : Flags) (mode : option Z) (cb : Callback Z R) : Act R :=
  invoke (open p flags mode) (fun res =>
    match res with
    | Ok fd => cb (Ok fd)
    | Throw err =>
        if negb (code_is err "ENOENT") then cb (Throw err)
        else
          match pkglock_resolve p with
          | Found resolved =>
              if isDir resolved then cb (Throw (isDirError p "read"))
              else
                match pkglock_stat resolved true with
                | Throw err' => cb (Throw err')
                | Ok None => cb (Throw (notFoundError p))
                | Ok (Some stat) =>
                    if flags_is_r flags then invoke (open (cachePath stat) flags mode) cb
                    else
                      invoke (fs_copyFile (cachePath stat) p) (fun res1 =>
                        match res1 with
                        | Throw err1 => cb (Throw err1)
                        | Ok _ =>
                            fs_chmod p 493%Z (fun res2 =>
                              match res2 with
                              | Throw err2 => cb (Throw err2)
                              | Ok _ => invoke (open p flags mode) cb
                              end)
                        end)
                end
          | _ => cb (Throw (notFoundError p))
          end
    end).

(** The members [fs.readFile], [fs.chmod] and [fs.open] after
    [overrideNode], each built on the one before. *)
Definition fs_readFile {R} (readFile : string -> ReadOptions -> Sync FileData)
    : string -> ReadOptions -> Callback FileData R -> Act R :=
  readFile_patch readFile.

Definition fs_chmod {R} (readFile : string -> ReadOptions -> Sync FileData)
    (chmod : string -> Z -> Sync unit)
    : string -> Z -> Callback unit R -> Act R :=
  chmod_patch (fs_readFile readFile) chmod.

Definition fs_open {R} (readFile : string -> ReadOptions -> Sync FileData)
    (chmod : string -> Z -> Sync unit)
    (open : string -> Flags -> option Z -> Sync Z)
    : string -> Flags -> option Z -> Callback Z R -> Act R :=
  open_patch (fs_chmod readFile chmod) open.

End Overlay.

(** ** The host's streams *)

(** [fs.ReadStream] and [fs.WriteStream], as far as opening goes. The
    constructor records the path, the flags (['r'] for a read stream and
    ['w'] for a write stream when the options give none) and the mode, and
    touches no file. The stream then opens itself with
    [fs.open(path, flags, mode, cb)], the member of [fs] as it is bound by
    then, and emits ['open'] with the descriptor or ['error'] with the
    error. *)
Record FileStream : Type := mkFileStream {
  stream_path : string;
  stream_flags : Flags;
  stream_mode : Z
}.

Definition stream_flags_of (default : string) (opts : option Flags) : Flags :=
  match opts with
  | Some (FlagStr s) => FlagStr s
  | Some (FlagNum n) => FlagNum n
  | _ => FlagStr default
  end.

Definition ReadStream {World : Type} (p : string) (opts : option Flags)
    : Sync World FileStream :=
  ret (mkFileStream p (stream_flags_of "r" opts) 438).

Definition WriteStream {World : Type} (p : string) (opts : option Flags)
    : Sync World FileStream :=
  ret (mkFileStream p (stream_flags_of "w" opts) 438).

(** [stream.open()]; [emit] receives the descriptor or the error. *)
Definition stream_open {World R : Type}
    (fs_open : string -> Flags -> option Z -> Callback World Z R -> Act World R)
    (stream : FileStream) (emit : Callback World Z R) : Act World R :=
  fs_open (stream_path stream) (stream_flags stream) (Some (stream_mode stream)) emit.

(** [patchFn(name, handler)] on one module: a member the module has is
    replaced by the handler applied to it, which is how each patch above
    comes to hold the original it wraps; a member it lacks stays absent. *)
Definition patchFn {F : Type} (handler : F -> F) (member : option F) : option F :=
  match member with
  | Some orig => Some (handler orig)
  | None => None
  end.


(** ** JSON, hashing and ssri *)

#[warnings="-register-all"]
Inductive JSON : Type :=
  | JNull
  | JBool (b : bool)
  | JNum (n : Z)
  | JStr (s : string)
  | JArr (items : list JSON)
  | JObj (fields : list (string * JSON)).

(** JavaScript truthiness of a parsed value. *)
Definition js_truthy (j : JSON) : bool :=
  match j with
  | JNull => false
  | JBool b => b
  | JNum n => negb (n =? 0)%Z
  | JStr s => negb (String.eqb s "")
  | JArr _ => true
  | JObj _ => true
  end.

(** [undefined] is [None]. *)
Definition truthy (v : option JSON) : bool :=
  match v with Some j => js_truthy j | None => false end.

(** [a || b] *)
Definition js_or (a b : option JSON) : option JSON :=
  if truthy a then a else b.

Fixpoint assoc (k : string) (fields : list (string * JSON)) : option JSON :=
  match fields with
  | [] => None
  | (k', v) :: rest => if String.eqb k' k then Some v else assoc k rest
  end.

(** [v.k] on a value known not to be [null] or [undefined]. *)
Definition prop (v : JSON) (k : string) : option JSON :=
  match v with
  | JObj fields => assoc k fields
  | _ => None
  end.

(** [v.k] in general: reading a property of [null] or [undefined] throws. *)
Definition get_prop (v : option JSON) (k : string) : Result (option JSON) :=
  match v with
  | None => Throw (TypeError "Cannot read property of undefined")
  | Some JNull => Throw (TypeError "Cannot read property of null")
  | Some j => Ok (prop j k)
  end.

Definition dquote : string := String (ascii_of_nat 34) EmptyString.

Definition hex_digit (n : nat) : ascii :=
  if (n <? 10)%nat then ascii_of_nat (48 + n) else ascii_of_nat (87 + n).

(** One character inside a JSON string literal. *)
Definition escape_char (c : ascii) : string :=
  let n := nat_of_ascii c in
  if (n =? 34)%nat then "\" ++ dquote
  else if (n =? 92)%nat then "\\"
  else if (n =? 8)%nat then "\b"
  else if (n =? 9)%nat then "\t"
  else if (n =? 10)%nat then "\n"
  else if (n =? 12)%nat then "\f"
  else if (n =? 13)%nat then "\r"
  else if (n <? 32)%nat then
    "\u00" ++ String (hex_digit (n / 16)) (String (hex_digit (n mod 16)) EmptyString)
  else String c EmptyString.

Fixpoint escape (s : string) : string :=
  match s with
  | EmptyString => EmptyString
  | String c rest => escape_char c ++ escape rest
  end.

Definition quote (s : string) : string := dquote ++ escape s ++ dquote.

(** [JSON.stringify] without indentation, on the values a lockfile holds. *)
Fixpoint JSON_stringify (j : JSON) : string :=
  match j with
  | JNull => "null"
  | JBool b => if b then "true" else "false"
  | JNum n => pretty n
  | JStr s => quote s
  | JArr items => "[" ++ String.concat "," (map JSON_stringify items) ++ "]"
  | JObj fields =>
      "{" ++ String.concat ","
               (map (fun kv => quote (fst kv) ++ ":" ++ JSON_stringify (snd kv)) fields)
          ++ "}"
  end.

(** [JSON.stringify(v)] where [v] may be [undefined]. *)
Definition JSON_stringify_opt (v : option JSON) : option string :=
  match v with Some j => Some (JSON_stringify j) | None => None end.

Fixpoint strip_prefix (pre s : string) : option string :=
  match pre with
  | EmptyString => Some s
  | String a pre' =>
      match s with
      | EmptyString => None
      | String b s' => if Ascii.eqb a b then strip_prefix pre' s' else None
      end
  end.

(** The byte order mark, as the three bytes of its UTF-8 form. *)
Definition BOM : string :=
  String (ascii_of_nat 239) (String (ascii_of_nat 187) (String (ascii_of_nat 191) EmptyString)).

(** [str.replace(/^\uFEFF/, '')] *)
Definition stripBOM (str : string) : string :=
  match strip_prefix BOM str with
  | Some rest => rest
  | None => str
  end.

(** [hay.match(/needle/)] for a literal needle *)
Fixpoint contains (needle hay : string) : bool :=
  String.prefix needle hay ||
  match hay with
  | EmptyString => false
  | String _ rest => contains needle rest
  end.

(** The host's [JSON.parse]. *)
Class JsonParser : Type := {
  JSON_parse : string -> Result JSON
}.

(** ssri, by signature: the package is not part of this program.
    [ssri_fromData data] is [ssri.fromData(data).toString()], the integrity
    string of [data]. [ssri_checkData data sri] is
    [ssri.checkData(data, sri)]: a match, which is truthy, or [false], or
    an exception; [ssri_checkData_error data sri] is the same call with
    [{ error: true }]. [undefined] is [None]. *)
Class Ssri : Type := {
  ssri_fromData : string -> string;
  ssri_checkData : option string -> option JSON -> Result bool;
  ssri_checkData_error : option string -> option JSON -> Result unit
}.

(** The part of ssri's contract that the seal relies on. Data checked
    against an integrity string that [fromData] made is accepted exactly
    when its own integrity string is that one. With [{ error: true }] the
    check returns where the plain one returns a match, and throws where
    the plain one returns [false] or throws. *)
Class SsriLaws `{!Ssri} : Prop := {
  checkData_fromData : forall data data',
    ssri_checkData (Some data') (Some (JStr (ssri_fromData data)))
    = Ok (String.eqb (ssri_fromData data') (ssri_fromData data));
  checkData_error_throws : forall data sri,
    is_ok (ssri_checkData_error data sri)
    = match ssri_checkData data sri with Ok true => true | _ => false end
}.

(** ** The project directory *)

(** The files the installer reads and writes, by path. *)
Definition path_join (a b : string) : string := a ++ "/" ++ b.

Definition disk_readFile (path : string) : Sync (gmap string string) string :=
  fun disk =>
    match disk !! path with
    | Some text => (Ok text, disk)
    | None =>
        (Throw (SystemError ("ENOENT: no such file or directory, open '" ++ path ++ "'")
                            "ENOENT" (-2)), disk)
    end.

Definition disk_writeFile (path text : string) : Sync (gmap string string) unit :=
  fun disk => (Ok tt, <[path := text]> disk).

Definition disk_mkdirp (path : string) : Sync (gmap string string) unit :=
  fun disk => (Ok tt, disk).

(** ** The installer *)

(** libnpm, npm and the stages that populate the cache, by signature; each
    works on the project directory. *)
Class Collaborators : Type := {
  lockVerify : string -> Sync (gmap string string) bool;
  npm_install_package_lock_only : Sync (gmap string string) unit;
  buildLogicalTree : option JSON -> option JSON -> Result unit;
  fetchTree : Sync (gmap string string) unit;
  updateJson : Sync (gmap string string) unit;
  buildTree : Sync (gmap string string) unit;
  tinkifyBins : Sync (gmap string string) unit;
  runScript : string -> Sync (gmap string string) unit;
  (** [err[0]] of a Bluebird aggregate error *)
  aggregate_first : JsError -> JsError
}.

Module Installer.

(** The fields of [this] that the sealing logic touches. *)
Record Installer : Type := mkInstaller {
  force : bool;
  validLockHash : bool;
  pkg : option JSON;
  _shrinkwrap : option JSON;
  pkglockHash : option JSON;
  prefix : string
}.

(** The installer, the project directory, and the stages started so far
    (the names [timedStage] was called with). *)
Record Machine : Type := mkMachine {
  self : Installer;
  disk : gmap string string;
  stages : list string
}.

(** [new Installer(opts)]; [opts_force] is [config(opts).force] and
    [opts_prefix] the prefix [prepare] settles on. *)
Definition constructor (opts_force : bool) (opts_prefix : string) : Installer :=
  {| force := opts_force;
     validLockHash := false;
     pkg := None;
     _shrinkwrap := None;
     pkglockHash := None;
     prefix := opts_prefix |}.

Definition get_self : Sync Machine Installer :=
  fun m => (Ok (self m), m).

Definition set_self (i : Installer) : Sync Machine unit :=
  fun m => (Ok tt, {| self := i; disk := disk m; stages := stages m |}).

Definition on_disk {A} (op : Sync (gmap string string) A) : Sync Machine A :=
  fun m =>
    let '(r, d) := op (disk m) in
    (r, {| self := self m; disk := d; stages := stages m |}).

Definition set_validLockHash (b : bool) (i : Installer) : Installer :=
  {| force := force i; validLockHash := b; pkg := pkg i;
     _shrinkwrap := _shrinkwrap i; pkglockHash := pkglockHash i; prefix := prefix i |}.

Definition set_shrinkwrap (l : option JSON) (i : Installer) : Installer :=
  {| force := force i; validLockHash := validLockHash i; pkg := pkg i;
     _shrinkwrap := l; pkglockHash := pkglockHash i; prefix := prefix i |}.

Definition set_read (p l h : option JSON) (i : Installer) : Installer :=
  {| force := force i; validLockHash := validLockHash i; pkg := p;
     _shrinkwrap := l; pkglockHash := h; prefix := prefix i |}.

Section Stages.

Context {jp : JsonParser} {ss : Ssri} {co : Collaborators}.

Local Open Scope sync_scope.

Definition timedStage {A} (name : string) (stage : Sync Machine A) : Sync Machine A :=
  fun m => stage {| self := self m; disk := disk m; stages := stages m ++ [name] |}.

Definition readJson (jsonPath name : string) (ignoreMissing : bool)
    : Sync (gmap string string) (option JSON) :=
  try_catch
    (str <- disk_readFile (path_join jsonPath name) ;;
     j <- pure (JSON_parse (stripBOM str)) ;;
     ret (Some j))
    (fun err =>
       if negb (code_is err "ENOENT") || negb ignoreMissing then throw err
       else ret None).

Definition npmInstall : Sync Machine unit :=
  on_disk npm_install_package_lock_only ;;;
  i <- get_self ;;
  l <- on_disk (readJson (prefix i) "package-lock.json" false) ;;
  set_self (set_shrinkwrap l i).

(** [!pkg._shrinkwrap || !pkg._shrinkwrap.lockfileVersion] *)
Definition no_lockfile (i : Installer) : bool :=
  match _shrinkwrap i with
  | None => true
  | Some l => negb (js_truthy l) || negb (truthy (prop l "lockfileVersion"))
  end.

Definition checkLock : Sync Machine unit :=
  i <- get_self ;;
  (if truthy (pkglockHash i) then
     integrity <- pure (get_prop (pkglockHash i) "lockfile_integrity") ;;
     ok <- pure (ssri_checkData (JSON_stringify_opt (_shrinkwrap i)) integrity) ;;
     if negb ok then set_self (set_validLockHash false i) else ret tt
   else ret tt) ;;;
  i <- get_self ;;
  (if no_lockfile i then npmInstall else ret tt) ;;;
  i <- get_self ;;
  (if no_lockfile i
   then throw (NamedError "Error"
                 "npm install to generate package-lock.json failed. This is a bug.")
   else ret tt) ;;;
  status <- on_disk (lockVerify (prefix i)) ;;
  if status then ret tt else npmInstall.

Definition prepare : Sync Machine unit :=
  i <- get_self ;;
  p <- on_disk (readJson (prefix i) "package.json" false) ;;
  lock <- on_disk (readJson (prefix i) "package-lock.json" true) ;;
  shrink <- on_disk (readJson (prefix i) "npm-shrinkwrap.json" true) ;;
  lockHash <- on_disk (readJson (prefix i) "node_modules/.pkglock-hash" true) ;;
  (match p with
   | Some (JObj _) | Some (JArr _) => ret tt
   | _ => throw (TypeError "Cannot create property '_shrinkwrap'")
   end) ;;;
  set_self (set_read p (js_or shrink lock) lockHash i) ;;;
  checkLock ;;;
  i <- get_self ;;
  (* the dependency filter and the count that follow work on the tree alone *)
  pure (buildLogicalTree (pkg i) (_shrinkwrap i)).

Definition teardown : Sync Machine unit := ret tt.

Definition writeLockHash : Sync Machine unit :=
  i <- get_self ;;
  let nm := path_join (prefix i) "node_modules" in
  try_catch (on_disk (disk_mkdirp nm))
            (fun err => if negb (code_is err "EEXIST") then throw err else ret tt) ;;;
  integrity <-
    pure (match _shrinkwrap i with
          | Some l => Ok (ssri_fromData (JSON_stringify l))
          | None => Throw (TypeError "The data argument must be of type string")
          end) ;;
  on_disk (disk_writeFile (path_join nm ".pkglock-hash")
             (JSON_stringify (JObj [("lockfile_integrity", JStr integrity)]))).

(** The [try] block of [run]. *)
Definition run_try : Sync Machine unit :=
  timedStage "prepare" prepare ;;;
  i <- get_self ;;
  (if negb (validLockHash i) || force i then
     timedStage "fetchTree" (on_disk fetchTree) ;;;
     timedStage "updateJson" (on_disk updateJson) ;;;
     timedStage "buildTree" (on_disk buildTree) ;;;
     on_disk tinkifyBins ;;;
     timedStage "runScript" (on_disk (runScript "prepublish")) ;;;
     timedStage "runScript" (on_disk (runScript "prepare")) ;;;
     timedStage "writeLockHash" writeLockHash
   else ret tt) ;;;
  timedStage "teardown" teardown.

(** The [catch] clause of [run]: an aggregate error gives way to its first
    member. *)
Definition run_catch (err : JsError) : JsError :=
  if contains "aggregate error" (err_message err) then aggregate_first err else err.

(** [try { ... } catch (err) { throw ... } finally { teardown }] *)
Definition run : Sync Machine unit :=
  fun m =>
    let '(r, m1) := run_try m in
    let r := match r with Throw err => Throw (run_catch err) | Ok _ => r end in
    match timedStage "teardown" teardown m1 with
    | (Ok _, m2) => (r, m2)
    | (Throw err, m2) => (Throw err, m2)
    end.

(** [treeFrog(opts)]: [new Installer(opts).run()] in the project [d]. *)
Definition treeFrog (opts_force : bool) (opts_prefix : string) (d : gmap string string)
    : Result unit * Machine :=
  run {| self := constructor opts_force opts_prefix; disk := d; stages := [] |}.

End Stages.

End Installer.

(** ** The prepare command *)

Module Prepare.

Section Command.

Context {jp : JsonParser} {ss : Ssri} {co : Collaborators}.

Local Open Scope sync_scope.

(** [false] is [None]. *)
Definition checkPkgLock (base : string) (d : gmap string string) : option JSON :=
  let attempt : Sync (gmap string string) JSON :=
    lockText <- disk_readFile (path_join base "package-lock.json") ;;
    lock <- pure (JSON_parse (stripBOM lockText)) ;;
    mapText <- disk_readFile (path_join (path_join base "node_modules") ".pkglock-hash") ;;
    map <- pure (JSON_parse (stripBOM mapText)) ;;
    integrity <- pure (get_prop (Some map) "lockfile_integrity") ;;
    pure (ssri_checkData_error (Some (JSON_stringify lock)) integrity) ;;;
    ret map
  in
  match fst (attempt d) with
  | Ok map => Some map
  | Throw _ => None
  end.

(** [prepare(argv)] up to the installer's return; [base] is
    [process.cwd()]. The installer's failure is logged, not rethrown. *)
Definition prepare (argv_force opts_force : bool) (base opts_prefix : string)
    (d : gmap string string) : option (Result unit * Installer.Machine) :=
  if argv_force || negb (truthy (checkPkgLock base d))
  then Some (Installer.treeFrog opts_force opts_prefix d)
  else None.

End Command.

End Prepare.

(** ** Vocabulary of the specification *)

Definition O_RDONLY : Z := 0.

(** Flags that ask for reading only: ['r'], its synchronous forms, and the
    numeric [O_RDONLY]. An omitted argument is not classified. *)
Definition read_only_flags (flags : Flags) : bool :=
  match flags with
  | FlagStr s => String.eqb s "r" || String.eqb s "rs" || String.eqb s "sr"
  | FlagNum n => (n =? O_RDONLY)%Z
  | FlagUndefined => false
  end.

(** The bits of an access mode. *)
Definition requests_read (m : Z) : bool := Z.testbit m 2.
Definition requests_write (m : Z) : bool := Z.testbit m 1.
Definition requests_execute (m : Z) : bool := Z.testbit m 0.

(** A lockfile of one project, [{"lockfileVersion":1,"name":...}]. *)
Definition lockfile_named (name : string) : JSON :=
  JObj [("lockfileVersion", JNum 1); ("name", JStr name)].

(** ** A small host and project to run the model on *)

Module Fixture.

(** *** POSIX paths *)

(** The characters after the last slash, read from the reversed path. *)
Fixpoint take_segment (rev : list ascii) : list ascii :=
  match rev with
  | [] => []
  | c :: rest => if Ascii.eqb c "/"%char then [] else c :: take_segment rest
  end.

Fixpoint drop_segment (rev : list ascii) : list ascii :=
  match rev with
  | [] => []
  | c :: rest => if Ascii.eqb c "/"%char then rest else drop_segment rest
  end.

Fixpoint drop_slashes (rev : list ascii) : list ascii :=
  match rev with
  | [] => []
  | c :: rest => if Ascii.eqb c "/"%char then drop_slashes rest else rev
  end.

Definition posix_basename (p : string) : string :=
  string_of_list_ascii
    (List.rev (take_segment (drop_slashes (List.rev (list_ascii_of_string p))))).

Definition posix_dirname (p : string) : string :=
  match drop_segment (drop_slashes (List.rev (list_ascii_of_string p))) with
  | [] => if String.prefix "/" p then "/" else "."
  | rest => string_of_list_ascii (List.rev rest)
  end.

(** *** The real filesystem: path to content and mode *)

Definition host_ENOENT (syscall path : string) : JsError :=
  SystemError ("ENOENT: no such file or directory, " ++ syscall ++ " '" ++ path ++ "'")
              "ENOENT" (-2).

Definition host_ENOTDIR (syscall path : string) : JsError :=
  SystemError ("ENOTDIR: not a directory, " ++ syscall ++ " '" ++ path ++ "'")
              "ENOTDIR" (-20).

Definition bytes_of (d : FileData) : Buffer :=
  match d with
  | Raw data => data
  | Text s => list_byte_of_string s
  end.

Definition copyFileSync (src dst : string) : Sync (gmap string (Buffer * Z)) unit :=
  fun w =>
    match w !! src with
    | Some f => (Ok tt, <[dst := f]> w)
    | None => (Throw (host_ENOENT "copyfile" src), w)
    end.

Definition chmodSync (p : string) (mode : Z) : Sync (gmap string (Buffer * Z)) unit :=
  fun w =>
    match w !! p with
    | Some (data, _) => (Ok tt, <[p := (data, mode)]> w)
    | None => (Throw (host_ENOENT "chmod" p), w)
    end.

(** [mode] applies only when the file is created. *)
Definition writeFile (p : string) (data : option FileData) (mode : Z)
    : Sync (gmap string (Buffer * Z)) unit :=
  fun w =>
    match data with
    | None => (Throw (TypeError "The data argument must be a string or a Buffer"), w)
    | Some d =>
        match w !! p with
        | Some (_, m) => (Ok tt, <[p := (bytes_of d, m)]> w)
        | None => (Ok tt, <[p := (bytes_of d, mode)]> w)
        end
    end.

#[export] Instance host : Host (gmap string (Buffer * Z)) := {|
  Buffer_toString := fun data _ => string_of_list_byte data;
  Buffer_isEncoding := fun enc =>
    bool_decide (enc ∈ ["utf8"; "utf-8"; "latin1"; "binary"; "ascii"; "hex"; "base64";
                        "ucs2"; "ucs-2"; "utf16le"; "utf-16le"]);
  path_basename := posix_basename;
  path_dirname := posix_dirname;
  fs_copyFileSync := copyFileSync;
  fs_chmodSync := chmodSync;
  fs_copyFile := copyFileSync;
  fs_writeFile := writeFile;
  mkdirp := fun _ _ w => (Ok tt, w);
  file_at := fun w p => w !! p
|}.

(** The host's own primitives, before [overrideNode]. *)
Definition stats_of (f : Buffer * Z) : Stats :=
  {| st_size := Z.of_nat (length (fst f)); st_mode := snd f;
     st_isDirectory := false; cachePath := "" |}.

(** A path below a regular file fails with ENOTDIR, any other absent path
    with ENOENT. *)
Definition stat (p : string) : Sync (gmap string (Buffer * Z)) Stats :=
  fun w =>
    match w !! p with
    | Some f => (Ok (stats_of f), w)
    | None =>
        match w !! posix_dirname p with
        | Some _ => (Throw (host_ENOTDIR "stat" p), w)
        | None => (Throw (host_ENOENT "stat" p), w)
        end
    end.

(** ['w'] creates or truncates; every other flag needs the file. *)
Definition openSync (p : string) (flags : Flags) (mode : option Z)
    : Sync (gmap string (Buffer * Z)) Z :=
  fun w =>
    match flags, w !! p with
    | FlagStr "w", Some (_, m) => (Ok 3%Z, <[p := ([], m)]> w)
    | FlagStr "w", None => (Ok 3%Z, <[p := ([], default 438%Z mode)]> w)
    | _, Some _ => (Ok 3%Z, w)
    | _, None => (Throw (host_ENOENT "open" p), w)
    end.

Definition accessSync (p : string) (mode : ModeArg)
    : Sync (gmap string (Buffer * Z)) unit :=
  fun w =>
    match w !! p with
    | Some _ => (Ok tt, w)
    | None => (Throw (host_ENOENT "access" p), w)
    end.

Definition readFileSync (p : string) (options : ReadOptions)
    : Sync (gmap string (Buffer * Z)) FileData :=
  fun w =>
    match w !! p with
    | Some (data, _) => (Ok (Raw data), w)
    | None => (Throw (host_ENOENT "open" p), w)
    end.

Definition readdirSync (p : string) : Sync (gmap string (Buffer * Z)) (list string) :=
  fun w =>
    if String.eqb p "/proj/node_modules/a" then (Ok ["package.json"], w)
    else (Throw (host_ENOENT "scandir" p), w).

(** *** The project of the end-to-end scenarios *)

Definition blob : Buffer := list_byte_of_string "module.x=1;".

Definition cache_path : string := "/cache/content-v2/sha512/aa/bb/cc".

Definition index_js : Resolved :=
  ResolvedFile cache_path "sha512-AAA" 12 420.

Definition index_js_stats : Stats :=
  {| st_size := 12; st_mode := 420; st_isDirectory := false; cachePath := cache_path |}.

Definition pkg_a : Resolved :=
  ResolvedDir "/proj/node_modules/a"
    [("index.js", FileEntry "sha512-AAA" 12 420);
     ("package.json", FileEntry "sha512-BBB" 20 420)].

Definition resolve (p : string) : Resolution :=
  if String.eqb p "/proj/node_modules/a/index.js" then Found index_js
  else if String.eqb p "/proj/node_modules/a" then Found pkg_a
  else if String.prefix "/proj/node_modules/" p then Missing
  else Untracked.

Definition statSync (r : Resolved) (verify : bool) : Result (option Stats) :=
  match r with
  | ResolvedFile _ _ size mode =>
      Ok (Some {| st_size := size; st_mode := mode; st_isDirectory := false;
                  cachePath := cache_path |})
  | ResolvedDir _ _ =>
      Ok (Some {| st_size := 0; st_mode := 493; st_isDirectory := true;
                  cachePath := "" |})
  end.

Definition readSync (r : Resolved) : Result Buffer :=
  match r with
  | ResolvedFile _ _ _ _ => Ok blob
  | ResolvedDir p _ => Throw (isDirError p "read")
  end.

#[export] Instance pkglock : Pkglock := {|
  pkglock_resolve := resolve;
  pkglock_statSync := statSync;
  pkglock_readSync := readSync;
  pkglock_stat := statSync;
  pkglock_read := readSync
|}.

(** The real filesystem: the cache holds the blob, [/etc/passwd] is a
    regular file, and nothing of the project is on disk. *)
Definition world : gmap string (Buffer * Z) :=
  <[cache_path := (blob, 292%Z)]>
    (<["/etc/passwd" := (list_byte_of_string "root:x:0:0", 420%Z)]> ∅).

End Fixture.

(** ** A small JSON parser, hash and project to run the installer on *)

Module Project.

Definition is_ws (c : ascii) : bool :=
  let n := nat_of_ascii c in
  (n =? 32)%nat || (n =? 9)%nat || (n =? 10)%nat || (n =? 13)%nat.

Fixpoint skip_ws (s : string) : string :=
  match s with
  | EmptyString => s
  | String c rest => if is_ws c then skip_ws rest else s
  end.

(** The character an escape letter stands for. *)
Definition unescape (e : ascii) : option ascii :=
  let n := nat_of_ascii e in
  if (n =? 34)%nat then Some e
  else if (n =? 92)%nat then Some e
  else if (n =? 47)%nat then Some e
  else if (n =? 98)%nat then Some (ascii_of_nat 8)
  else if (n =? 116)%nat then Some (ascii_of_nat 9)
  else if (n =? 110)%nat then Some (ascii_of_nat 10)
  else if (n =? 102)%nat then Some (ascii_of_nat 12)
  else if (n =? 114)%nat then Some (ascii_of_nat 13)
  else None.

(** The rest of a string literal, after its opening quote. *)
Fixpoint parse_chars (s : string) : option (string * string) :=
  match s with
  | EmptyString => None
  | String c rest =>
      if (nat_of_ascii c =? 34)%nat then Some (EmptyString, rest)
      else if (nat_of_ascii c =? 92)%nat then
        match rest with
        | EmptyString => None
        | String e rest' =>
            match unescape e, parse_chars rest' with
            | Some c', Some (str, r) => Some (String c' str, r)
            | _, _ => None
            end
        end
      else
        match parse_chars rest with
        | Some (str, r) => Some (String c str, r)
        | None => None
        end
  end.

Definition digit (c : ascii) : option Z :=
  let n := nat_of_ascii c in
  if (48 <=? n)%nat && (n <=? 57)%nat then Some (Z.of_nat (n - 48)) else None.

Fixpoint parse_digits (acc : Z) (s : string) : Z * string :=
  match s with
  | EmptyString => (acc, s)
  | String c rest =>
      match digit c with
      | Some d => parse_digits (10 * acc + d)%Z rest
      | None => (acc, s)
      end
  end.

Definition parse_number (s : string) : option (Z * string) :=
  match s with
  | String c rest =>
      if (nat_of_ascii c =? 45)%nat then
        match rest with
        | String d _ =>
            match digit d with
            | Some _ => let '(n, r) := parse_digits 0 rest in Some ((- n)%Z, r)
            | None => None
            end
        | EmptyString => None
        end
      else
        match digit c with
        | Some _ => Some (parse_digits 0 s)
        | None => None
        end
  | EmptyString => None
  end.

Definition starts_with (n : nat) (s : string) : bool :=
  match s with
  | String c _ => (nat_of_ascii c =? n)%nat
  | EmptyString => false
  end.

Definition tail (s : string) : string :=
  match s with
  | String _ rest => rest
  | EmptyString => EmptyString
  end.

Fixpoint parse_value (fuel : nat) (s : string) : option (JSON * string) :=
  match fuel with
  | O => None
  | S fuel' =>
      let s := skip_ws s in
      if starts_with 34 s then
        match parse_chars (tail s) with
        | Some (str, r) => Some (JStr str, r)
        | None => None
        end
      else if starts_with 123 s then
        if starts_with 125 (skip_ws (tail s)) then Some (JObj [], tail (skip_ws (tail s)))
        else
          match parse_fields fuel' (tail s) with
          | Some (fields, r) => Some (JObj fields, r)
          | None => None
          end
      else if starts_with 91 s then
        if starts_with 93 (skip_ws (tail s)) then Some (JArr [], tail (skip_ws (tail s)))
        else
          match parse_items fuel' (tail s) with
          | Some (items, r) => Some (JArr items, r)
          | None => None
          end
      else
        match strip_prefix "true" s, strip_prefix "false" s, strip_prefix "null" s with
        | Some r, _, _ => Some (JBool true, r)
        | _, Some r, _ => Some (JBool false, r)
        | _, _, Some r => Some (JNull, r)
        | _, _, _ =>
            match parse_number s with
            | Some (n, r) => Some (JNum n, r)
            | None => None
            end
        end
  end
with parse_fields (fuel : nat) (s : string) : option (list (string * JSON) * string) :=
  match fuel with
  | O => None
  | S fuel' =>
      let s := skip_ws s in
      if starts_with 34 s then
        match parse_chars (tail s) with
        | Some (key, r1) =>
            if starts_with 58 (skip_ws r1) then
              match parse_value fuel' (tail (skip_ws r1)) with
              | Some (v, r2) =>
                  if starts_with 44 (skip_ws r2) then
                    match parse_fields fuel' (tail (skip_ws r2)) with
                    | Some (fields, r3) => Some ((key, v) :: fields, r3)
                    | None => None
                    end
                  else if starts_with 125 (skip_ws r2) then
                    Some ([(key, v)], tail (skip_ws r2))
                  else None
              | None => None
              end
            else None
        | None => None
        end
      else None
  end
with parse_items (fuel : nat) (s : string) : option (list JSON * string) :=
  match fuel with
  | O => None
  | S fuel' =>
      match parse_value fuel' s with
      | Some (v, r) =>
          if starts_with 44 (skip_ws r) then
            match parse_items fuel' (tail (skip_ws r)) with
            | Some (items, r') => Some (v :: items, r')
            | None => None
            end
          else if starts_with 93 (skip_ws r) then Some ([v], tail (skip_ws r))
          else None
      | None => None
      end
  end.

Definition parse (text : string) : Result JSON :=
  match parse_value (2 * String.length text + 2) text with
  | Some (j, rest) =>
      match skip_ws rest with
      | EmptyString => Ok j
      | _ => Throw (NamedError "SyntaxError" "Unexpected token in JSON")
      end
  | None => Throw (NamedError "SyntaxError" "Unexpected token in JSON")
  end.

#[export] Instance json_parser : JsonParser := {| JSON_parse := parse |}.

(** A two-bit stand-in for SHA-512: the parities of the length and of the
    number of letters [a]. *)
Fixpoint count_a (s : string) : nat :=
  match s with
  | EmptyString => 0
  | String c rest => (if Ascii.eqb c "a"%char then 1 else 0) + count_a rest
  end.

Definition toy_digest (s : string) : bool * bool :=
  (Nat.even (String.length s), Nat.even (count_a s)).

Definition toy_base64 (d : bool * bool) : string :=
  (if fst d then "A" else "B") ++ (if snd d then "A" else "B") ++ "==".

Definition toy_fromData (data : string) : string :=
  "sha512-" ++ toy_base64 (toy_digest data).

(** The check against the one kind of integrity string [toy_fromData]
    makes. Without any integrity value it throws, as ssri does when it
    reads [sri.algorithm]. *)
Definition toy_checkData (data : option string) (sri : option JSON) : Result bool :=
  match sri with
  | None => Throw (TypeError "Cannot read property 'algorithm' of undefined")
  | Some (JStr s) =>
      match strip_prefix "sha512-" s, data with
      | Some digest, Some d => Ok (String.eqb (toy_base64 (toy_digest d)) digest)
      | Some _, None => Throw (TypeError "The data argument must be of type string")
      | None, _ => Ok false
      end
  | Some _ => Ok false
  end.

Definition toy_checkData_error (data : option string) (sri : option JSON) : Result unit :=
  match toy_checkData data sri with
  | Ok true => Ok tt
  | Ok false => Throw (SystemError "Integrity verification failed" "EINTEGRITY" 0)
  | Throw err => Throw err
  end.

#[export] Instance ssri : Ssri := {|
  ssri_fromData := toy_fromData;
  ssri_checkData := toy_checkData;
  ssri_checkData_error := toy_checkData_error
|}.

(** Collaborators that succeed and leave the project alone. *)
#[export] Instance collaborators : Collaborators := {|
  lockVerify := fun _ d => (Ok true, d);
  npm_install_package_lock_only := fun d => (Ok tt, d);
  buildLogicalTree := fun _ _ => Ok tt;
  fetchTree := fun d => (Ok tt, d);
  updateJson := fun d => (Ok tt, d);
  buildTree := fun d => (Ok tt, d);
  tinkifyBins := fun d => (Ok tt, d);
  runScript := fun _ d => (Ok tt, d);
  aggregate_first := fun err => err
|}.

Definition package_json : JSON :=
  JObj [("name", JStr "demo"); ("version", JStr "1.0.0")].

Definition lock : JSON := lockfile_named "demo".

(** The lockfile after one more dependency was added by hand. *)
Definition lock_mutated : JSON :=
  JObj [("lockfileVersion", JNum 1); ("name", JStr "demo");
        ("dependencies", JObj [("b", JObj [("version", JStr "2.0.0")])])].

Definition seal_of (l : JSON) : string :=
  JSON_stringify (JObj [("lockfile_integrity", JStr (ssri_fromData (JSON_stringify l)))]).

(** A project whose persisted seal is the one written for its lockfile. *)
Definition sealed : gmap string string :=
  <["/proj/package.json" := JSON_stringify package_json]>
    (<["/proj/package-lock.json" := JSON_stringify lock]>
       (<["/proj/node_modules/.pkglock-hash" := seal_of lock]> ∅)).

(** The same project before anything was persisted. *)
Definition unsealed : gmap string string :=
  <["/proj/package.json" := JSON_stringify package_json]>
    (<["/proj/package-lock.json" := JSON_stringify lock]> ∅).

End Project.

(** ** Hosts and stores that fail *)

Module Faults.

Definition mkdirp_EACCES (p : string) : JsError :=
  SystemError ("EACCES: permission denied, mkdir '" ++ p ++ "'") "EACCES" (-13).

(** The host of [Fixture], except that no directory can be created. *)
Definition no_mkdir_host : Host (gmap string (Buffer * Z)) := {|
  Buffer_toString := fun data _ => string_of_list_byte data;
  Buffer_isEncoding := @Buffer_isEncoding _ Fixture.host;
  path_basename := Fixture.posix_basename;
  path_dirname := Fixture.posix_dirname;
  fs_copyFileSync := Fixture.copyFileSync;
  fs_chmodSync := Fixture.chmodSync;
  fs_copyFile := Fixture.copyFileSync;
  fs_writeFile := Fixture.writeFile;
  mkdirp := fun p _ w => (Throw (mkdirp_EACCES p), w);
  file_at := fun w p => w !! p
|}.

(** The store of [Fixture], except that its promises fulfil with nothing. *)
Definition statless : Pkglock := {|
  pkglock_resolve := Fixture.resolve;
  pkglock_statSync := Fixture.statSync;
  pkglock_readSync := Fixture.readSync;
  pkglock_stat := fun _ _ => Ok None;
  pkglock_read := Fixture.readSync
|}.

End Faults.

(** ** The installer's work on single dependencies *)

Module Dependencies.

(** [checkDepEnv(dep)], by truthiness. [dev], [development] and
    [production] are the options of those names; [only] and [also] are
    the options as [RegExp.prototype.test] sees them, that is converted to
    strings, an absent one being the string [undefined]. *)
Definition is_prod (s : string) : bool :=
  String.eqb s "prod" || String.eqb s "production".

Definition is_dev (s : string) : bool :=
  String.eqb s "dev" || String.eqb s "development".

Definition checkDepEnv (dev development production : bool) (only also : string)
    (dep_dev : bool) : bool :=
  let includeDev :=
    dev || development || (negb (is_prod only) && negb production)
    || is_dev only || is_dev also in
  let includeProd := negb (is_dev only) in
  (dep_dev && includeDev) || (negb dep_dev && includeProd).

(** [\w] *)
Definition is_word_char (c : ascii) : bool :=
  let n := nat_of_ascii c in
  ((48 <=? n) && (n <=? 57) || (65 <=? n) && (n <=? 90)
   || (97 <=? n) && (n <=? 122) || (n =? 95))%nat.

(** [([^-\w]|$)] at the head of [s] *)
Definition node_ends (s : string) : bool :=
  match s with
  | EmptyString => true
  | String c _ => negb (is_word_char c || Ascii.eqb c "-")
  end.

(** [s.replace(/\bnode([^-\w]|$)/, 'tish$1')], from a position inside the
    string: [word_before] tells whether the character before [s] is a
    word character. The leftmost match is replaced, and only that one. *)
Fixpoint tishify_from (word_before : bool) (s : string) : string :=
  match s with
  | EmptyString => EmptyString
  | String c rest =>
      match (if word_before then None else strip_prefix "node" s) with
      | Some after =>
          if node_ends after then "tish" ++ after
          else String c (tishify_from (is_word_char c) rest)
      | None => String c (tishify_from (is_word_char c) rest)
      end
  end.

Definition tishify (s : string) : string := tishify_from false s.

(** Where [.] stops: a line feed, a carriage return, or one of the
    separators U+2028 and U+2029, which are three bytes each in the UTF-8
    text. *)
Definition line_ends (s : string) : bool :=
  match s with
  | EmptyString => true
  | String c _ =>
      Ascii.eqb c (ascii_of_nat 10) || Ascii.eqb c (ascii_of_nat 13)
      || String.prefix
           (String (ascii_of_nat 226) (String (ascii_of_nat 128)
              (String (ascii_of_nat 168) EmptyString))) s
      || String.prefix
           (String (ascii_of_nat 226) (String (ascii_of_nat 128)
              (String (ascii_of_nat 169) EmptyString))) s
  end.

(** The match of [.*\bnode([^-\w]|$)] inside the first line, the
    repetition being greedy: the last place of the line where [node]
    starts a word and ends as the pattern asks. [None] when there is
    none. *)
Fixpoint tishify_last (word_before : bool) (s : string) : option string :=
  match s with
  | EmptyString => None
  | String c rest =>
      if line_ends s then None
      else
        match tishify_last (is_word_char c) rest with
        | Some rest' => Some (String c rest')
        | None =>
            match (if word_before then None else strip_prefix "node" s) with
            | Some after => if node_ends after then Some ("tish" ++ after) else None
            | None => None
            end
        end
  end.

(** [data.replace(/^(#!.*\b)node([^-\w]|$)/g, '$1tish$2')], which
    [tinkifyBins] applies to every installed bin. *)
Definition tinkify (data : string) : string :=
  match strip_prefix "#!" data with
  | Some line =>
      match tishify_last false line with
      | Some line' => "#!" ++ line'
      | None => data
      end
  | None => data
  end.

Definition to_lower (c : ascii) : ascii :=
  let n := nat_of_ascii c in
  if ((65 <=? n) && (n <=? 90))%nat then ascii_of_nat (n + 32) else c.

Fixpoint lower_case (s : string) : string :=
  match s with
  | EmptyString => EmptyString
  | String c rest => String (to_lower c) (lower_case rest)
  end.

(** [/\.gyp$/i.test(f)] *)
Definition is_gyp (f : string) : bool :=
  let n := String.length f in
  (4 <=? n)%nat && String.eqb (lower_case (String.substring (n - 4) 4 f)) ".gyp".

(** [obj[k] = v]: an own member keeps its place, a new one goes last. *)
Fixpoint set_prop (k : string) (v : JSON) (fields : list (string * JSON))
    : list (string * JSON) :=
  match fields with
  | [] => [(k, v)]
  | (k', v') :: rest =>
      if String.eqb k' k then (k, v) :: rest else (k', v') :: set_prop k v rest
  end.

(** The object parsed from a dependency's [package.json]: its [scripts]
    member, which is an object (given by its members) or is absent or
    falsy ([None]), and its other members. *)
Record PackageJson : Type := mkPackageJson {
  scripts : option (list (string * JSON));
  members : list (string * JSON)
}.

(** The host: [fs.readdir] and [JSON.stringify(pkg, null, 2)]. *)
Class DepHost : Type := {
  readdirAsync : string -> Sync (gmap string string) (list string);
  stringify_indented : PackageJson -> string
}.

(** One of the three blocks
    [if (pkg.scripts.X) { old = ...; pkg.scripts.X = old.replace(...);
    modified = pkg.scripts.X === old }]. [modified] starts out
    [undefined], which is [None]. *)
Definition rewrite_script (name : string)
    (state : list (string * JSON) * option bool)
    : Result (list (string * JSON) * option bool) :=
  match assoc name (fst state) with
  | Some script =>
      if js_truthy script then
        match script with
        | JStr old =>
            Ok (set_prop name (JStr (tishify old)) (fst state),
                Some (String.eqb (tishify old) old))
        | _ => Throw (TypeError ("pkg.scripts." ++ name ++ ".replace is not a function"))
        end
      else Ok state
  | None => Ok state
  end.

Section UpdateInstallScript.

Context {dh : DepHost}.

Local Open Scope sync_scope.

(** [updateInstallScript(dep, pkg)]; [depPath] is [dep.path(this.prefix)]. *)
Definition updateInstallScript (depPath : string) (pkg : PackageJson)
    : Sync (gmap string string) PackageJson :=
  pkg <-
    (if negb (match scripts pkg with
              | Some s => truthy (assoc "install" s)
              | None => false
              end)
     then
       files <- readdirAsync depPath ;;
       if existsb is_gyp files
       then ret {| scripts :=
                     Some (set_prop "install" (JStr "node-gyp rebuild")
                             (default [] (scripts pkg)));
                   members := members pkg |}
       else ret pkg
     else ret pkg) ;;
  match scripts pkg with
  | Some s =>
      state <- pure (rewrite_script "preinstall" (s, None)) ;;
      state <- pure (rewrite_script "install" state) ;;
      state <- pure (rewrite_script "postinstall" state) ;;
      let pkg := {| scripts := Some (fst state); members := members pkg |} in
      (match snd state with
       | Some true =>
           disk_writeFile (path_join depPath "package.json") (stringify_indented pkg)
       | _ => ret tt
       end) ;;;
      ret pkg
  | None => ret pkg
  end.

End UpdateInstallScript.

(** A directory listing fixed in advance, and a serialisation that shows
    the scripts. *)
Definition listing_host (files : list string) : DepHost := {|
  readdirAsync := fun _ d => (Ok files, d);
  stringify_indented := fun pkg =>
    match scripts pkg with
    | Some s => JSON_stringify (JObj s)
    | None => "{}"
    end
|}.

End Dependencies.

(** * Properties *)

(** ** Arrays without duplicates *)

Lemma array_from_set_elem_of (files seen : list string) (x : string) :
  x ∈ array_from_set seen files <-> x ∈ files /\ x ∉ seen.
Proof.
  revert seen. induction files as [|f rest IH]; intros seen; simpl.
  - split; [intros H; inversion H | intros [H _]; inversion H].
  - case_bool_decide as Hf.
    + rewrite IH, elem_of_cons. split.
      * intros [? ?]; auto.
      * intros [[-> | ?] ?]; [contradiction | auto].
    + rewrite !elem_of_cons, IH, elem_of_cons. split.
      * intros [-> | [? Hn]]; [auto |].
        split; [auto |]. intros ?; apply Hn; auto.
      * intros [[-> | ?] Hn]; [auto |].
        destruct (decide (x = f)) as [-> | Hne]; [auto |].
        right. split; [done |]. intros [? | ?]; [done | contradiction].
Qed.

Lemma array_from_set_NoDup (files seen : list string) :
  NoDup (array_from_set seen files).
Proof.
  revert seen. induction files as [|f rest IH]; intros seen; simpl.
  - constructor.
  - case_bool_decide; [apply IH |].
    apply NoDup_cons. split; [| apply IH].
    rewrite array_from_set_elem_of, elem_of_cons. intros [_ Hn]. apply Hn; auto.
Qed.

Lemma array_from_set_id (files seen : list string) :
  NoDup files -> (forall x, x ∈ files -> x ∉ seen) ->
  array_from_set seen files = files.
Proof.
  revert seen. induction files as [|f rest IH]; intros seen Hnd Hseen; simpl; [done |].
  apply NoDup_cons in Hnd as [Hf Hnd].
  case_bool_decide as Hin.
  - exfalso. apply (Hseen f); [left | done].
  - f_equal. apply IH; [done |].
    intros x Hx. rewrite elem_of_cons. intros [-> | ?]; [done |].
    apply (Hseen x); [by right | done].
Qed.

Lemma uniq_elem_of (files : list string) (x : string) : x ∈ uniq files <-> x ∈ files.
Proof.
  unfold uniq. rewrite array_from_set_elem_of. split; [tauto |].
  intros ?; split; [done |]. apply not_elem_of_nil.
Qed.

Lemma uniq_NoDup (files : list string) : NoDup (uniq files).
Proof. apply array_from_set_NoDup. Qed.

Lemma uniq_id (files : list string) : NoDup files -> uniq files = files.
Proof.
  intros ?. apply array_from_set_id; [done |]. intros ? _. apply not_elem_of_nil.
Qed.

(** ** Access-mode bits *)

Lemma to_int32_testbit (m i : Z) : (0 <= i < 32)%Z ->
  Z.testbit (to_int32 m) i = Z.testbit m i.
Proof.
  intros Hi. unfold to_int32.
  rewrite <- (Z.mod_pow2_bits_low ((m + 2 ^ 31) mod 2 ^ 32 - 2 ^ 31) 32 i) by lia.
  rewrite <- (Z.mod_pow2_bits_low m 32 i) by lia.
  f_equal.
  rewrite Zminus_mod_idemp_l.
  replace (m + 2 ^ 31 - 2 ^ 31)%Z with m by lia. done.
Qed.

Lemma land_4_testbit (x : Z) : (Z.land 4 x =? 0)%Z = negb (Z.testbit x 2).
Proof.
  destruct (Z.testbit x 2) eqn:Hb; simpl.
  - apply Z.eqb_neq. intros H0.
    assert (Z.testbit (Z.land 4 x) 2 = false) as Hf by (rewrite H0; apply Z.bits_0).
    rewrite Z.land_spec, Hb in Hf. discriminate.
  - apply Z.eqb_eq. apply Z.bits_inj'. intros n Hn.
    rewrite Z.land_spec, Z.bits_0.
    destruct (decide (n = 2%Z)) as [-> | Hne]; [by rewrite Hb, andb_false_r |].
    replace 4%Z with (2 ^ 2)%Z by done.
    rewrite Z.pow2_bits_eqb by lia.
    destruct (Z.eqb_spec 2 n); [congruence | done].
Qed.

Lemma js_and_R_OK (m : Z) : (js_and R_OK m =? 0)%Z = negb (requests_read m).
Proof.
  unfold js_and, R_OK, requests_read.
  change (to_int32 4) with 4%Z.
  rewrite land_4_testbit, to_int32_testbit by lia. done.
Qed.

Lemma dir_mode_accepted_spec (m : Z) :
  dir_mode_accepted (ModeNum m) = (m =? F_OK)%Z || requests_read m.
Proof. unfold dir_mode_accepted. by rewrite js_and_R_OK, negb_involutive. Qed.

(** ** Directory listings *)

Section Readdir.

Context {World : Type} {pk : Pkglock}.

Lemma readdir_patch_is_readdirSync_patch
    (readdir : string -> Sync World (list string)) (p : string) (w : World) :
  readdir_patch readdir p deliver w =
  ([Called (fst (readdirSync_patch readdir p w))], snd (readdirSync_patch readdir p w)).
Proof.
  unfold readdir_patch, readdirSync_patch, invoke, bind, try_catch, pure, ret, throw, deliver.
  destruct (readdir p w) as [[files | err] w']; simpl; [done |].
  destruct (code_is err "ENOENT"); done.
Qed.

Lemma readdirSync_patch_world
    (readdir : string -> Sync World (list string)) (p : string) (w : World) :
  snd (readdirSync_patch readdir p w) = snd (readdir p w).
Proof.
  unfold readdirSync_patch, bind, try_catch, pure, ret, throw.
  destruct (readdir p w) as [[files | err] w']; simpl; [done |].
  destruct (code_is err "ENOENT"); done.
Qed.

Lemma readdirSync_patch_found
    (readdir : string -> Sync World (list string)) (p : string) (w : World) files :
  fst (readdir p w) = Ok files ->
  fst (readdirSync_patch readdir p w) = readdir_merge p true files.
Proof.
  unfold readdirSync_patch, bind, try_catch, pure, ret, throw.
  destruct (readdir p w) as [[files' | err] w']; simpl; congruence.
Qed.

Lemma readdirSync_patch_absent
    (readdir : string -> Sync World (list string)) (p : string) (w : World) err :
  fst (readdir p w) = Throw err -> code_is err "ENOENT" = true ->
  fst (readdirSync_patch readdir p w) = readdir_merge p false [].
Proof.
  unfold readdirSync_patch, bind, try_catch, pure, ret, throw.
  destruct (readdir p w) as [[files' | err'] w']; simpl; [congruence |].
  intros [= ->] ->. done.
Qed.

(** C3. [readdir] and [readdirSync] answer alike, with the real call's
    effect on the filesystem and nothing more. A real listing is merged with
    the names of the map directory's children, without duplicates; when the
    real call fails with ENOENT and the map has the directory, the children
    alone are listed; when the real call fails with ENOENT and the map has
    no directory there, the call fails with ENOENT (errno -2); when the real
    call succeeds and the map has a file there, the call fails with ENOTDIR
    (errno -20). Any other real error is passed on. *)
Theorem readdir_merges_real_and_map
    (readdir : string -> Sync World (list string)) (p : string) (w : World) :
  let out := fst (readdirSync_patch readdir p w) in
  readdirSync_patch readdir p w = (out, snd (readdir p w)) /\
  readdir_patch readdir p deliver w = ([Called out], snd (readdir p w)) /\
  (forall files rp dir,
     fst (readdir p w) = Ok files ->
     pkglock_resolve p = Found (ResolvedDir rp dir) ->
     exists l, out = Ok l /\ NoDup l /\
       forall x, x ∈ l <-> x ∈ files \/ x ∈ map fst dir) /\
  (forall files,
     fst (readdir p w) = Ok files ->
     falsy (pkglock_resolve p) = true ->
     exists l, out = Ok l /\ NoDup l /\ forall x, x ∈ l <-> x ∈ files) /\
  (forall err rp dir,
     fst (readdir p w) = Throw err -> code_is err "ENOENT" = true ->
     pkglock_resolve p = Found (ResolvedDir rp dir) ->
     exists l, out = Ok l /\ NoDup l /\
       (forall x, x ∈ l <-> x ∈ map fst dir) /\
       (NoDup (map fst dir) -> l = map fst dir)) /\
  (forall err,
     fst (readdir p w) = Throw err -> code_is err "ENOENT" = true ->
     truthy_isDir (pkglock_resolve p) = false ->
     out = Throw (SystemError ("ENOENT, " ++ p ++ " not found") "ENOENT" (-2))) /\
  (forall files rp digest size mode,
     fst (readdir p w) = Ok files ->
     pkglock_resolve p = Found (ResolvedFile rp digest size mode) ->
     out = Throw (SystemError "ENOTDIR, not a directory" "ENOTDIR" (-20))) /\
  (forall err,
     fst (readdir p w) = Throw err -> code_is err "ENOENT" = false ->
     out = Throw err).
Proof.
  intros out. subst out.
  split; [| split].
  - rewrite <- readdirSync_patch_world. by destruct (readdirSync_patch readdir p w).
  - rewrite readdir_patch_is_readdirSync_patch. by rewrite readdirSync_patch_world.
  - repeat split.
    + intros files rp dir Hreal Hres.
      rewrite (readdirSync_patch_found _ _ _ _ Hreal). unfold readdir_merge. rewrite Hres. simpl.
      eexists; split; [done |]. split; [apply uniq_NoDup |].
      intros x. by rewrite uniq_elem_of, elem_of_app.
    + intros files Hreal Hres.
      rewrite (readdirSync_patch_found _ _ _ _ Hreal). unfold readdir_merge.
      destruct (pkglock_resolve p); try discriminate; simpl;
        (eexists; split; [done |]; split; [apply uniq_NoDup | apply uniq_elem_of]).
    + intros err rp dir Hreal Hcode Hres.
      rewrite (readdirSync_patch_absent _ _ _ _ Hreal Hcode). unfold readdir_merge.
      rewrite Hres. simpl.
      eexists; split; [done |]. split; [apply uniq_NoDup |].
      split; [apply uniq_elem_of | apply uniq_id].
    + intros err Hreal Hcode Hres.
      rewrite (readdirSync_patch_absent _ _ _ _ Hreal Hcode). unfold readdir_merge.
      destruct (pkglock_resolve p) as [| | [? ? | ? ? ? ?]]; simpl in *; done.
    + intros files rp digest size mode Hreal Hres.
      rewrite (readdirSync_patch_found _ _ _ _ Hreal). unfold readdir_merge.
      by rewrite Hres.
    + intros err Hreal Hcode.
      unfold readdirSync_patch, bind, try_catch, pure, ret, throw.
      destruct (readdir p w) as [[files' | err'] w']; simpl in *; [congruence |].
      injection Hreal as ->. by rewrite Hcode.
Qed.

End Readdir.

(** A witness of the merge: the real directory holds [package.json], the
    map adds [index.js]. *)
Lemma readdir_merges_real_and_map_witness :
  exists l,
    fst (readdirSync_patch (pk := Fixture.pkglock)
           Fixture.readdirSync "/proj/node_modules/a" Fixture.world) = Ok l /\
    NoDup l /\
    forall x, x ∈ l <-> x ∈ ["package.json"] \/ x ∈ ["index.js"; "package.json"].
Proof.
  pose proof (readdir_merges_real_and_map (pk := Fixture.pkglock)
                Fixture.readdirSync "/proj/node_modules/a" Fixture.world) as H.
  cbv zeta in H. destruct H as (_ & _ & Hdir & _).
  exact (Hdir ["package.json"] _ _ eq_refl eq_refl).
Defined.

(** ** Reading files *)

Section ReadFile.

Context {World : Type} {pk : Pkglock} {hs : Host World}.

Lemma decode_cases (data : Buffer) :
  decode None data = Ok (Raw data) /\
  decode (Some "") data = Ok (Raw data) /\
  (forall enc, enc <> "" -> Buffer_isEncoding enc = true ->
     decode (Some enc) data = Ok (Text (Buffer_toString data enc))) /\
  (forall enc, enc <> "" -> Buffer_isEncoding enc = false ->
     decode (Some enc) data = Throw (TypeError ("Unknown encoding: " ++ enc))).
Proof.
  split; [done |]. split; [done |].
  split; intros [| c enc] Hne Hknown; try done; simpl; by rewrite Hknown.
Qed.

(** C4. On a tracked path [readFile] and [readFileSync] fail with EISDIR
    (errno -21) when the map has a directory there and with ENOENT
    (errno -2) when it has nothing. When it has a file they answer with the
    blob's bytes as the blob store reads them: the bytes themselves when no
    encoding is asked for (no options, an empty string, an object without
    an encoding or with an empty one, and for the callback form the
    callback in the options' place), and their decoding under [enc] when
    the options are the string [enc] or an object whose encoding is [enc],
    an encoding that [Buffer] knows. In none of these cases is the real
    filesystem consulted: the answer does not depend on the original
    primitive, and the filesystem is left as it was. *)
Theorem readFile_serves_the_blob
    (readFile readFileSync : string -> ReadOptions -> Sync World FileData)
    (p : string) (w : World) :
  (forall rp dir,
     pkglock_resolve p = Found (ResolvedDir rp dir) ->
     (forall options,
        readFileSync_patch readFileSync p options w =
          (Throw (SystemError ("EISDIR: illegal operation on a directory, read, " ++ p)
                              "EISDIR" (-21)), w)) /\
     (forall options, (forall b, options <> OptOther b) ->
        readFile_patch readFile p options deliver w =
          ([Called (Throw (SystemError
                             ("EISDIR: illegal operation on a directory, read, " ++ p)
                             "EISDIR" (-21)))], w))) /\
  (pkglock_resolve p = Missing ->
     (forall options,
        readFileSync_patch readFileSync p options w =
          (Throw (SystemError ("ENOENT, " ++ p ++ " not found") "ENOENT" (-2)), w)) /\
     (forall options, (forall b, options <> OptOther b) ->
        readFile_patch readFile p options deliver w =
          ([Called (Throw (SystemError ("ENOENT, " ++ p ++ " not found") "ENOENT" (-2)))],
           w))) /\
  (forall rp digest size mode data,
     pkglock_resolve p = Found (ResolvedFile rp digest size mode) ->
     pkglock_readSync (ResolvedFile rp digest size mode) = Ok data ->
     (forall options,
        options = OptUndefined \/ options = OptString "" \/
        options = OptObject None \/ options = OptObject (Some "") ->
        readFileSync_patch readFileSync p options w = (Ok (Raw data), w)) /\
     (forall enc options,
        enc <> "" -> Buffer_isEncoding enc = true ->
        options = OptString enc \/ options = OptObject (Some enc) ->
        readFileSync_patch readFileSync p options w =
          (Ok (Text (Buffer_toString data enc)), w))) /\
  (forall rp digest size mode data,
     pkglock_resolve p = Found (ResolvedFile rp digest size mode) ->
     pkglock_read (ResolvedFile rp digest size mode) = Ok data ->
     (forall options,
        options = OptCallback \/ options = OptUndefined \/ options = OptString "" \/
        options = OptObject None \/ options = OptObject (Some "") ->
        readFile_patch readFile p options deliver w = ([Called (Ok (Raw data))], w)) /\
     (forall enc options,
        enc <> "" -> Buffer_isEncoding enc = true ->
        options = OptString enc \/ options = OptObject (Some enc) ->
        readFile_patch readFile p options deliver w =
          ([Called (Ok (Text (Buffer_toString data enc)))], w))) /\
  (nullish (pkglock_resolve p) = false ->
     forall options (other : string -> ReadOptions -> Sync World FileData),
       readFileSync_patch readFileSync p options w = readFileSync_patch other p options w /\
       snd (readFileSync_patch readFileSync p options w) = w /\
       readFile_patch readFile p options deliver w = readFile_patch other p options deliver w /\
       snd (readFile_patch readFile p options deliver w) = w).
Proof.
  split; [| split; [| split; [| split]]].
  - intros rp dir Hres. split.
    + intros options. unfold readFileSync_patch. by rewrite Hres.
    + intros options Hopt. unfold readFile_patch. rewrite Hres. simpl.
      destruct options as [| e | e | | b]; try done. by destruct (Hopt b).
  - intros Hres. split.
    + intros options. unfold readFileSync_patch. by rewrite Hres.
    + intros options Hopt. unfold readFile_patch. rewrite Hres. simpl.
      destruct options as [| e | e | | b]; try done. by destruct (Hopt b).
  - intros rp digest size mode data Hres Hdata. split.
    + intros options Hopt.
      unfold readFileSync_patch, bind, pure, ret. rewrite Hres. simpl.
      destruct Hopt as [-> | [-> | [-> | ->]]]; simpl; by rewrite Hdata.
    + intros enc options Hne Hknown Hopt.
      pose proof (proj1 (proj2 (proj2 (decode_cases data))) enc Hne Hknown) as Hdecode.
      unfold readFileSync_patch, bind, pure, ret. rewrite Hres. simpl.
      destruct Hopt as [-> | ->]; destruct enc as [| c enc]; try done;
        simpl readFileSync_encoding; cbn iota; rewrite Hdata; by rewrite Hdecode.
  - intros rp digest size mode data Hres Hdata. split.
    + intros options Hopt.
      unfold readFile_patch. rewrite Hres. simpl.
      destruct Hopt as [-> | [-> | [-> | [-> | ->]]]]; simpl; by rewrite Hdata.
    + intros enc options Hne Hknown Hopt.
      pose proof (proj1 (proj2 (proj2 (decode_cases data))) enc Hne Hknown) as Hdecode.
      unfold readFile_patch. rewrite Hres. cbn -[decode].
      destruct Hopt as [-> | ->]; cbn -[decode]; rewrite Hdata; by rewrite Hdecode.
  - intros Htracked options other. repeat split.
    + unfold readFileSync_patch. destruct (pkglock_resolve p); done.
    + unfold readFileSync_patch, bind, pure, ret, throw.
      destruct (pkglock_resolve p) as [| | r]; [done | done |].
      destruct (isDir r); [done |].
      destruct (readFileSync_encoding options); [| done].
      destruct (pkglock_readSync r) as [data |]; [| done].
      by destruct (decode _ data).
    + unfold readFile_patch. destruct (pkglock_resolve p); done.
    + unfold readFile_patch, raise, deliver, idle.
      destruct (pkglock_resolve p) as [| | r]; [done | | ]; simpl.
      * destruct (readFile_encoding options); done.
      * destruct (readFile_encoding options); [| done].
        destruct (isDir r); [done |]. destruct (pkglock_read r) as [data |]; [| done].
        by destruct (decode _ data).
Qed.

(** An encoding that [Buffer] does not know makes [toString] throw:
    [readFileSync] throws the [TypeError], and [readFile], where the throw
    happens inside the promise's fulfilment handler, never calls back. *)
Lemma readFile_unknown_encoding
    (readFile readFileSync : string -> ReadOptions -> Sync World FileData)
    (p : string) (w : World) rp digest size mode data enc :
  pkglock_resolve p = Found (ResolvedFile rp digest size mode) ->
  pkglock_readSync (ResolvedFile rp digest size mode) = Ok data ->
  pkglock_read (ResolvedFile rp digest size mode) = Ok data ->
  enc <> "" -> Buffer_isEncoding enc = false ->
  readFileSync_patch readFileSync p (OptString enc) w
    = (Throw (TypeError ("Unknown encoding: " ++ enc)), w) /\
  readFile_patch readFile p (OptString enc) deliver w = ([], w).
Proof.
  intros Hres Hsync Hasync Hne Hunknown.
  pose proof (proj2 (proj2 (proj2 (decode_cases data))) enc Hne Hunknown) as Hdecode.
  unfold readFileSync_patch, readFile_patch, bind, pure, ret. rewrite Hres.
  cbn -[decode]. rewrite Hsync, Hasync.
  destruct enc as [| c enc]; [done |]. cbn -[decode]. by rewrite Hdecode.
Qed.

End ReadFile.

(** Scenarios 1 and 2 of the specification. *)
Lemma readFile_serves_the_blob_witness :
  readFileSync_patch (pk := Fixture.pkglock) (hs := Fixture.host) Fixture.readFileSync
    "/proj/node_modules/a/index.js" (OptString "utf8") Fixture.world
  = (Ok (Text "module.x=1;"), Fixture.world) /\
  readFileSync_patch (pk := Fixture.pkglock) (hs := Fixture.host) Fixture.readFileSync
    "/proj/node_modules/a/missing.js" OptUndefined Fixture.world
  = (Throw (SystemError "ENOENT, /proj/node_modules/a/missing.js not found" "ENOENT" (-2)),
     Fixture.world) /\
  readFile_patch (pk := Fixture.pkglock) (hs := Fixture.host) Fixture.readFileSync
    "/proj/node_modules/a/index.js" (OptObject (Some "hex")) deliver Fixture.world
  = ([Called (Ok (Text "module.x=1;"))], Fixture.world).
Proof.
  assert ("utf8" <> "") as Hutf8 by discriminate.
  assert ("hex" <> "") as Hhex by discriminate.
  pose proof (readFile_serves_the_blob (pk := Fixture.pkglock) (hs := Fixture.host)
                Fixture.readFileSync Fixture.readFileSync
                "/proj/node_modules/a/index.js" Fixture.world)
    as (_ & _ & Hsync & Hasync & _).
  pose proof (readFile_serves_the_blob (pk := Fixture.pkglock) (hs := Fixture.host)
                Fixture.readFileSync Fixture.readFileSync
                "/proj/node_modules/a/missing.js" Fixture.world)
    as (_ & Hmissing & _).
  split; [| split].
  - exact (proj2 (Hsync _ _ _ _ Fixture.blob eq_refl eq_refl)
             "utf8" _ Hutf8 eq_refl (or_introl eq_refl)).
  - exact (proj1 (Hmissing eq_refl) OptUndefined).
  - exact (proj2 (Hasync _ _ _ _ Fixture.blob eq_refl eq_refl)
             "hex" _ Hhex eq_refl (or_intror eq_refl)).
Defined.

(** ** The module loader's probes *)

Section Probes.

Context {World : Type} {pk : Pkglock} {hs : Host World}.

(** C8. The patched [internalModuleStat] answers 0 on a path the map has as
    a file, 1 on a path it has as a directory, 1 on a path it lacks whose
    basename is [node_modules], and -34 on any other path it lacks. *)
Theorem internalModuleStat_answers
    (internalModuleStat : string -> Sync World Z) (p : string) (w : World) :
  (forall rp digest size mode,
     pkglock_resolve p = Found (ResolvedFile rp digest size mode) ->
     internalModuleStat_patch internalModuleStat p w = (Ok 0%Z, w)) /\
  (forall rp dir,
     pkglock_resolve p = Found (ResolvedDir rp dir) ->
     internalModuleStat_patch internalModuleStat p w = (Ok 1%Z, w)) /\
  (pkglock_resolve p = Missing -> path_basename p = "node_modules" ->
     internalModuleStat_patch internalModuleStat p w = (Ok 1%Z, w)) /\
  (pkglock_resolve p = Missing -> path_basename p <> "node_modules" ->
     internalModuleStat_patch internalModuleStat p w = (Ok (-34)%Z, w)).
Proof.
  unfold internalModuleStat_patch. repeat split.
  - intros rp digest size mode ->. done.
  - intros rp dir ->. done.
  - intros -> ->. done.
  - intros -> Hne. simpl.
    destruct (String.eqb_spec (path_basename p) "node_modules"); done.
Qed.

(** C10. The patched [internalModuleReadJSON] hands an untracked path to
    the original probe; it answers [undefined] on a path the map lacks or
    has as a directory; on a file it answers the blob decoded as UTF-8, and
    [undefined] when reading the blob throws. On a tracked path it never
    throws, and on an untracked one only if the original does. *)
Theorem internalModuleReadJSON_never_throws
    (internalModuleReadJSON : string -> Sync World (option string))
    (p : string) (w : World) :
  (pkglock_resolve p = Untracked ->
     internalModuleReadJSON_patch internalModuleReadJSON p w = internalModuleReadJSON p w) /\
  (pkglock_resolve p = Missing ->
     internalModuleReadJSON_patch internalModuleReadJSON p w = (Ok None, w)) /\
  (forall rp dir,
     pkglock_resolve p = Found (ResolvedDir rp dir) ->
     internalModuleReadJSON_patch internalModuleReadJSON p w = (Ok None, w)) /\
  (forall rp digest size mode data,
     pkglock_resolve p = Found (ResolvedFile rp digest size mode) ->
     pkglock_readSync (ResolvedFile rp digest size mode) = Ok data ->
     internalModuleReadJSON_patch internalModuleReadJSON p w =
       (Ok (Some (Buffer_toString data "utf8")), w)) /\
  (forall rp digest size mode err,
     pkglock_resolve p = Found (ResolvedFile rp digest size mode) ->
     pkglock_readSync (ResolvedFile rp digest size mode) = Throw err ->
     internalModuleReadJSON_patch internalModuleReadJSON p w = (Ok None, w)) /\
  (pkglock_resolve p <> Untracked ->
     is_ok (fst (internalModuleReadJSON_patch internalModuleReadJSON p w)) = true) /\
  (is_ok (fst (internalModuleReadJSON p w)) = true ->
     is_ok (fst (internalModuleReadJSON_patch internalModuleReadJSON p w)) = true).
Proof.
  unfold internalModuleReadJSON_patch, try_catch, bind, pure, ret.
  split; [| split; [| split; [| split; [| split; [| split]]]]].
  - intros ->. done.
  - intros ->. done.
  - intros rp dir ->. done.
  - intros rp digest size mode data -> Hdata. simpl. by rewrite Hdata.
  - intros rp digest size mode err -> Herr. simpl. by rewrite Herr.
  - intros Htracked. destruct (pkglock_resolve p) as [| | r]; [done | done |].
    destruct (isDir r); [done |]. destruct (pkglock_readSync r); done.
  - intros Hok. destruct (pkglock_resolve p) as [| | r]; [done | done |].
    destruct (isDir r); [done |]. destruct (pkglock_readSync r); done.
Qed.

End Probes.

(** Scenario 5 of the specification, through the stat probe. *)
Lemma internalModuleStat_answers_witness :
  let probe := internalModuleStat_patch (pk := Fixture.pkglock) (hs := Fixture.host)
                 (fun _ w => (Ok (-2)%Z, w)) in
  probe "/proj/node_modules/a/index.js" Fixture.world = (Ok 0%Z, Fixture.world) /\
  probe "/proj/node_modules/a" Fixture.world = (Ok 1%Z, Fixture.world) /\
  probe "/proj/node_modules/nonexistent/node_modules" Fixture.world
    = (Ok 1%Z, Fixture.world) /\
  probe "/proj/node_modules/nonexistent" Fixture.world = (Ok (-34)%Z, Fixture.world).
Proof.
  intros probe. subst probe. split; [| split; [| split]].
  - exact (proj1 (internalModuleStat_answers (pk := Fixture.pkglock) (hs := Fixture.host)
                    _ "/proj/node_modules/a/index.js" Fixture.world)
             _ _ _ _ eq_refl).
  - exact (proj1 (proj2 (internalModuleStat_answers (pk := Fixture.pkglock)
                           (hs := Fixture.host) _ "/proj/node_modules/a" Fixture.world))
             _ _ eq_refl).
  - exact (proj1 (proj2 (proj2 (internalModuleStat_answers (pk := Fixture.pkglock)
                           (hs := Fixture.host) _
                           "/proj/node_modules/nonexistent/node_modules" Fixture.world)))
             eq_refl eq_refl).
  - refine (proj2 (proj2 (proj2 (internalModuleStat_answers (pk := Fixture.pkglock)
                           (hs := Fixture.host) _
                           "/proj/node_modules/nonexistent" Fixture.world)))
             eq_refl _).
    discriminate.
Defined.

Lemma internalModuleReadJSON_never_throws_witness :
  internalModuleReadJSON_patch (pk := Fixture.pkglock) (hs := Fixture.host)
    (fun _ w => (Ok None, w)) "/proj/node_modules/a/index.js" Fixture.world
  = (Ok (Some "module.x=1;"), Fixture.world) /\
  internalModuleReadJSON_patch (pk := Fixture.pkglock) (hs := Fixture.host)
    (fun _ w => (Ok None, w)) "/proj/node_modules/a" Fixture.world
  = (Ok None, Fixture.world).
Proof.
  split.
  - exact (proj1 (proj2 (proj2 (proj2
      (internalModuleReadJSON_never_throws (pk := Fixture.pkglock) (hs := Fixture.host)
         _ "/proj/node_modules/a/index.js" Fixture.world))))
      _ _ _ _ Fixture.blob eq_refl eq_refl).
  - exact (proj1 (proj2 (proj2
      (internalModuleReadJSON_never_throws (pk := Fixture.pkglock) (hs := Fixture.host)
         _ "/proj/node_modules/a" Fixture.world)))
      _ _ eq_refl).
Defined.

(** ** Access checks *)

Section Access.

Context {World : Type} {pk : Pkglock} {hs : Host World}.

Lemma fs_accessSync_untracked
    (accessSync : string -> ModeArg -> Sync World unit) (stack : nat)
    (p : string) (mode : ModeArg) (w : World) :
  pkglock_resolve p = Untracked ->
  fs_accessSync (S stack) accessSync p mode w = accessSync p mode w.
Proof. intros Hres. simpl. unfold accessSync_patch. by rewrite Hres. Qed.

(** C7, as the code has it. [access] and [accessSync] hand an untracked
    path to the original primitive with the caller's arguments and fail
    with ENOENT on a path the map lacks. On a map directory they succeed
    when the mode is F_OK (also by omission) or has the read bit, whatever
    its other bits, and fail with EACCES (errno -13) for every other mode,
    that is when write or execute is requested without read. On a map file
    whose stats pkglock supplies they run the real access check on the
    blob's cache path; [accessSync] does so through [fs.accessSync], hence
    for a cache path that is itself untracked. *)
Theorem access_follows_the_resolution
    (access accessSync : string -> ModeArg -> Sync World unit)
    (p : string) (mode : ModeArg) (w : World) (stack : nat) :
  (pkglock_resolve p = Untracked ->
     fs_accessSync (S (S stack)) accessSync p mode w = accessSync p mode w /\
     access_patch access p mode deliver w = invoke (access p mode) deliver w) /\
  (pkglock_resolve p = Missing ->
     fs_accessSync (S (S stack)) accessSync p mode w =
       (Throw (SystemError ("ENOENT, " ++ p ++ " not found") "ENOENT" (-2)), w) /\
     access_patch access p mode deliver w =
       ([Called (Throw (SystemError ("ENOENT, " ++ p ++ " not found") "ENOENT" (-2)))], w)) /\
  (forall rp dir,
     pkglock_resolve p = Found (ResolvedDir rp dir) ->
     (forall m, mode = ModeNum m -> m = F_OK \/ requests_read m = true ->
        fs_accessSync (S (S stack)) accessSync p mode w = (Ok tt, w) /\
        access_patch access p mode deliver w = ([Called (Ok tt)], w)) /\
     (mode = ModeUndefined ->
        fs_accessSync (S (S stack)) accessSync p mode w = (Ok tt, w)) /\
     (mode = ModeCallback ->
        access_patch access p mode deliver w = ([Called (Ok tt)], w)) /\
     (forall m, mode = ModeNum m -> m <> F_OK -> requests_read m = false ->
        fs_accessSync (S (S stack)) accessSync p mode w =
          (Throw (SystemError ("EACCES, permission denies, access '" ++ p ++ "'")
                              "EACCES" (-13)), w) /\
        access_patch access p mode deliver w =
          ([Called (Throw (SystemError
                             ("EACCES, permission denies, access '" ++ p ++ "'")
                             "EACCES" (-13)))], w))) /\
  (forall rp digest size fmode st,
     pkglock_resolve p = Found (ResolvedFile rp digest size fmode) ->
     (pkglock_statSync (ResolvedFile rp digest size fmode) false = Ok (Some st) ->
      pkglock_resolve (cachePath st) = Untracked ->
      fs_accessSync (S (S stack)) accessSync p mode w =
        accessSync (cachePath st)
          (match mode with ModeUndefined => ModeNum F_OK | _ => mode end) w) /\
     (pkglock_stat (ResolvedFile rp digest size fmode) false = Ok (Some st) ->
      access_patch access p mode deliver w =
        invoke (access (cachePath st)
                  (match mode with ModeCallback => ModeNum F_OK | _ => mode end))
               deliver w)).
Proof.
  split; [| split; [| split]].
  - intros Hres. split.
    + by apply fs_accessSync_untracked.
    + unfold access_patch. by rewrite Hres.
  - intros Hres. split.
    + simpl. unfold accessSync_patch at 1. by rewrite Hres.
    + unfold access_patch. by rewrite Hres.
  - intros rp dir Hres. split; [| split; [| split]].
    + intros m -> Hm. split.
      * simpl. unfold accessSync_patch at 1. rewrite Hres. simpl.
        rewrite js_and_R_OK, negb_involutive.
        destruct Hm as [-> | ->]; [done | by rewrite orb_true_r].
      * unfold access_patch. rewrite Hres. simpl.
        rewrite js_and_R_OK, negb_involutive.
        destruct Hm as [-> | ->]; [done | by rewrite orb_true_r].
    + intros ->. simpl. unfold accessSync_patch at 1. by rewrite Hres.
    + intros ->. unfold access_patch. by rewrite Hres.
    + intros m -> Hm Hr. split.
      * simpl. unfold accessSync_patch at 1. rewrite Hres. simpl.
        rewrite js_and_R_OK, Hr. simpl.
        destruct (Z.eqb_spec m F_OK); done.
      * unfold access_patch. rewrite Hres. simpl.
        rewrite js_and_R_OK, Hr. simpl.
        destruct (Z.eqb_spec m F_OK); done.
  - intros rp digest size fmode st Hres. split.
    + intros Hstat Hcache.
      change (fs_accessSync (S (S stack)) accessSync)
        with (accessSync_patch (fs_accessSync (S stack) accessSync) accessSync).
      unfold accessSync_patch at 1. rewrite Hres. simpl.
      unfold bind, pure. rewrite Hstat. simpl.
      by apply fs_accessSync_untracked.
    + intros Hstat. unfold access_patch. rewrite Hres. simpl. by rewrite Hstat.
Qed.

End Access.

(** Asking a map directory for read and write access is granted, although
    write is requested. *)
Lemma access_read_write_on_map_directory_succeeds :
  requests_write 6 = true /\
  pkglock_resolve (Pkglock := Fixture.pkglock) "/proj/node_modules/a" = Found Fixture.pkg_a /\
  fs_accessSync (pk := Fixture.pkglock) 2 Fixture.accessSync
    "/proj/node_modules/a" (ModeNum 6) Fixture.world = (Ok tt, Fixture.world) /\
  access_patch (pk := Fixture.pkglock) Fixture.accessSync
    "/proj/node_modules/a" (ModeNum 6) deliver Fixture.world
  = ([Called (Ok tt)], Fixture.world).
Proof. repeat split. Qed.

Lemma access_follows_the_resolution_witness :
  fs_accessSync (pk := Fixture.pkglock) 2 Fixture.accessSync
    "/proj/node_modules/a" (ModeNum W_OK) Fixture.world
  = (Throw (SystemError "EACCES, permission denies, access '/proj/node_modules/a'"
                        "EACCES" (-13)), Fixture.world) /\
  fs_accessSync (pk := Fixture.pkglock) 2 Fixture.accessSync
    "/proj/node_modules/a/index.js" (ModeNum R_OK) Fixture.world
  = Fixture.accessSync Fixture.cache_path (ModeNum R_OK) Fixture.world.
Proof.
  split.
  - refine (proj1 (proj2 (proj2 (proj2 (proj1 (proj2 (proj2
      (access_follows_the_resolution (pk := Fixture.pkglock)
         Fixture.accessSync Fixture.accessSync "/proj/node_modules/a" (ModeNum W_OK)
         Fixture.world 0))) _ _ eq_refl))) W_OK eq_refl _ eq_refl)).
    discriminate.
  - exact (proj1 (proj2 (proj2 (proj2
      (access_follows_the_resolution (pk := Fixture.pkglock)
         Fixture.accessSync Fixture.accessSync "/proj/node_modules/a/index.js"
         (ModeNum R_OK) Fixture.world 0))) _ _ _ _ _ eq_refl) eq_refl eq_refl).
Defined.

(** ** Opening files and streams *)

Section Open.

Context {World : Type} {pk : Pkglock} {hs : Host World} {laws : HostLaws World}.

Lemma materialise_runs_copy_then_chmod (st : Stats) (p : string) (w w1 w2 : World) :
  fs_copyFileSync (cachePath st) p w = (Ok tt, w1) ->
  fs_chmodSync p 493 w1 = (Ok tt, w2) ->
  materialise st p w = (Ok tt, w2).
Proof.
  intros Hcopy Hchmod. unfold materialise, bind. by rewrite Hcopy, Hchmod.
Qed.

Lemma materialised_file (st : Stats) (p : string) (w w1 w2 : World) :
  fs_copyFileSync (cachePath st) p w = (Ok tt, w1) ->
  fs_chmodSync p 493 w1 = (Ok tt, w2) ->
  exists data m,
    file_at w (cachePath st) = Some (data, m) /\ file_at w2 p = Some (data, 493%Z).
Proof.
  intros Hcopy Hchmod.
  destruct (copyFileSync_spec _ _ _ _ Hcopy) as (data & m & m' & Hsrc & Hdst).
  destruct (chmodSync_spec _ _ _ _ Hchmod) as (data' & m'' & Hbefore & Hafter).
  rewrite Hdst in Hbefore. injection Hbefore as <- <-.
  exists data, m. done.
Qed.

(** C2, as the code has it. On a path the map has as a file whose stats
    pkglock supplies: [openSync] with flags exactly ['r'] opens the blob's
    cache path through the original [openSync] and does nothing else; with
    any other flags, read-only ones included, it runs
    [copyFileSync(cachePath, p)] and [chmodSync(p, 0o755)] and then the
    original [openSync] on the real path with the caller's flags, so that
    this open finds the real file holding the blob's bytes with mode 0o755.
    [open] first calls the original on the real path and hands its outcome
    to the callback unless it failed with ENOENT; only then does it split
    the same way, copying with [copyFile] and calling [fs.chmod(p, 0o755)]
    before it opens the real path. *)
Theorem open_splits_on_the_flags
    (open openSync : string -> Flags -> option Z -> Sync World Z)
    (fs_chmod : string -> Z -> Callback World unit Z -> Act World Z)
    (p : string) (flags : Flags) (mode : option Z) (w : World)
    (rp digest : string) (size fmode : Z) (st : Stats) :
  pkglock_resolve p = Found (ResolvedFile rp digest size fmode) ->
  (pkglock_statSync (ResolvedFile rp digest size fmode) true = Ok (Some st) ->
     (flags = FlagStr "r" ->
        openSync_patch openSync p flags mode w = openSync (cachePath st) flags mode w) /\
     (flags_is_r flags = false ->
        forall w1 w2,
          fs_copyFileSync (cachePath st) p w = (Ok tt, w1) ->
          fs_chmodSync p 493 w1 = (Ok tt, w2) ->
          openSync_patch openSync p flags mode w = openSync p flags mode w2 /\
          exists data m,
            file_at w (cachePath st) = Some (data, m) /\
            file_at w2 p = Some (data, 493%Z))) /\
  (forall fd w0,
     open p flags mode w = (Ok fd, w0) ->
     open_patch fs_chmod open p flags mode deliver w = ([Called (Ok fd)], w0)) /\
  (forall err w0,
     open p flags mode w = (Throw err, w0) -> code_is err "ENOENT" = false ->
     open_patch fs_chmod open p flags mode deliver w = ([Called (Throw err)], w0)) /\
  (forall err w0,
     open p flags mode w = (Throw err, w0) -> code_is err "ENOENT" = true ->
     pkglock_stat (ResolvedFile rp digest size fmode) true = Ok (Some st) ->
     (flags = FlagStr "r" ->
        open_patch fs_chmod open p flags mode deliver w =
          invoke (open (cachePath st) flags mode) deliver w0) /\
     (flags_is_r flags = false ->
        forall w1 w2,
          fs_copyFile (cachePath st) p w0 = (Ok tt, w1) ->
          (forall cb, fs_chmod p 493%Z cb w1 = cb (Ok tt) w2) ->
          open_patch fs_chmod open p flags mode deliver w =
            invoke (open p flags mode) deliver w2)).
Proof.
  intros Hres. split; [| split; [| split]].
  - intros Hstat. split.
    + intros ->. unfold openSync_patch, bind, pure. rewrite Hres. simpl.
      by rewrite Hstat.
    + intros Hflags w1 w2 Hcopy Hchmod. split.
      * unfold openSync_patch. rewrite Hres. simpl.
        unfold bind at 1. unfold pure. rewrite Hstat. simpl.
        unfold bind at 1. simpl. rewrite Hflags.
        unfold bind. by rewrite (materialise_runs_copy_then_chmod _ _ _ _ _ Hcopy Hchmod).
      * by eapply materialised_file.
  - intros fd w0 Hopen. unfold open_patch, invoke. by rewrite Hopen.
  - intros err w0 Hopen Hcode. unfold open_patch, invoke. rewrite Hopen. by rewrite Hcode.
  - intros err w0 Hopen Hcode Hstat. split.
    + intros ->. unfold open_patch. unfold invoke at 1. rewrite Hopen, Hcode, Hres. simpl.
      by rewrite Hstat.
    + intros Hflags w1 w2 Hcopy Hchmod.
      unfold open_patch. unfold invoke at 1. rewrite Hopen, Hcode, Hres. simpl.
      rewrite Hstat, Hflags. unfold invoke at 1. rewrite Hcopy. by rewrite Hchmod.
Qed.

(** C9, as the code has it. [createReadStream] and [createWriteStream] hand
    the path to the original constructor unchanged when it is untracked,
    when the map lacks it, when the map has a directory there, and when
    pkglock has no stats for the file. The stream the host then makes opens
    the path with [fs.open], which is the patched [open]: where the real
    open succeeds the stream has the real descriptor, and where it fails
    with ENOENT the stream emits ENOENT (errno -2) for a path the map lacks
    and EISDIR (errno -21) for a map directory. On a map file with stats,
    [createReadStream] streams from the blob's cache path only when
    [opts.flags] is exactly ['r']; otherwise, also when no flags are given,
    it copies the blob to the real path with mode 0o755 and streams the
    real path. [createWriteStream] always copies first. *)
Theorem streams_pass_through_or_materialise {Stream : Type}
    (createReadStream createWriteStream : string -> option Flags -> Sync World Stream)
    (open : string -> Flags -> option Z -> Sync World Z)
    (fs_chmod : string -> Z -> Callback World unit Z -> Act World Z)
    (p : string) (opts : option Flags) (w : World) :
  (truthy_isFile (pkglock_resolve p) = false ->
     createReadStream_patch createReadStream p opts w = createReadStream p opts w /\
     createWriteStream_patch createWriteStream p opts w = createWriteStream p opts w /\
     createReadStream_patch ReadStream p opts w
       = (Ok (mkFileStream p (stream_flags_of "r" opts) 438), w) /\
     createWriteStream_patch WriteStream p opts w
       = (Ok (mkFileStream p (stream_flags_of "w" opts) 438), w)) /\
  (forall stream,
     stream = mkFileStream p (stream_flags_of "r" opts) 438 \/
     stream = mkFileStream p (stream_flags_of "w" opts) 438 ->
     (forall fd w0,
        open p (stream_flags stream) (Some 438%Z) w = (Ok fd, w0) ->
        stream_open (open_patch fs_chmod open) stream deliver w = ([Called (Ok fd)], w0)) /\
     (forall err w0,
        open p (stream_flags stream) (Some 438%Z) w = (Throw err, w0) ->
        code_is err "ENOENT" = true ->
        (pkglock_resolve p = Missing ->
           stream_open (open_patch fs_chmod open) stream deliver w =
             ([Called (Throw (SystemError ("ENOENT, " ++ p ++ " not found")
                                          "ENOENT" (-2)))], w0)) /\
        (forall rp dir, pkglock_resolve p = Found (ResolvedDir rp dir) ->
           stream_open (open_patch fs_chmod open) stream deliver w =
             ([Called (Throw (SystemError
                                ("EISDIR: illegal operation on a directory, read, " ++ p)
                                "EISDIR" (-21)))], w0)))) /\
  (forall rp digest size fmode,
     pkglock_resolve p = Found (ResolvedFile rp digest size fmode) ->
     pkglock_statSync (ResolvedFile rp digest size fmode) true = Ok None ->
     createReadStream_patch createReadStream p opts w = createReadStream p opts w /\
     createWriteStream_patch createWriteStream p opts w = createWriteStream p opts w) /\
  (forall rp digest size fmode st,
     pkglock_resolve p = Found (ResolvedFile rp digest size fmode) ->
     pkglock_statSync (ResolvedFile rp digest size fmode) true = Ok (Some st) ->
     (opts = Some (FlagStr "r") ->
        createReadStream_patch createReadStream p opts w =
          createReadStream (cachePath st) opts w) /\
     (forall w1 w2,
        fs_copyFileSync (cachePath st) p w = (Ok tt, w1) ->
        fs_chmodSync p 493 w1 = (Ok tt, w2) ->
        (opts_flags_is_r opts = false ->
           createReadStream_patch createReadStream p opts w = createReadStream p opts w2) /\
        createWriteStream_patch createWriteStream p opts w = createWriteStream p opts w2 /\
        exists data m,
          file_at w (cachePath st) = Some (data, m) /\
          file_at w2 p = Some (data, 493%Z))).
Proof.
  split; [| split; [| split]].
  - intros Hres. unfold createReadStream_patch, createWriteStream_patch.
    destruct (pkglock_resolve p) as [| | [? ? | ? ? ? ?]]; done.
  - intros stream Hstream.
    assert (stream_path stream = p /\ stream_mode stream = 438%Z) as [Hpath Hmode]
      by (by destruct Hstream as [-> | ->]).
    unfold stream_open, open_patch, invoke, deliver. rewrite Hpath, Hmode. split.
    + by intros fd w0 ->.
    + intros err w0 -> ->. simpl. split.
      * by intros ->.
      * by intros rp dir ->.
  - intros rp digest size fmode Hres Hstat.
    unfold createReadStream_patch, createWriteStream_patch, bind, pure.
    rewrite Hres. simpl. by rewrite Hstat.
  - intros rp digest size fmode st Hres Hstat. split.
    + intros ->. unfold createReadStream_patch, bind, pure. rewrite Hres. simpl.
      by rewrite Hstat.
    + intros w1 w2 Hcopy Hchmod. split; [| split].
      * intros Hflags. unfold createReadStream_patch. rewrite Hres. simpl.
        unfold bind at 1. unfold pure. rewrite Hstat, Hflags.
        unfold bind. by rewrite (materialise_runs_copy_then_chmod _ _ _ _ _ Hcopy Hchmod).
      * unfold createWriteStream_patch. rewrite Hres. simpl.
        unfold bind at 1. unfold pure. rewrite Hstat.
        unfold bind. by rewrite (materialise_runs_copy_then_chmod _ _ _ _ _ Hcopy Hchmod).
      * by eapply materialised_file.
Qed.

(** What [fs.chmod] is by the time [open]'s callbacks run: on a map file
    the patched [chmod] makes the parent directory, reads the blob through
    the patched [readFile] and rewrites the real file with [writeFile],
    passing the mode as an option; the host's [chmod] is not called. *)
Lemma fs_chmod_on_a_map_file {R}
    (readFile : string -> ReadOptions -> Sync World FileData)
    (chmod : string -> Z -> Sync World unit)
    (p : string) (mode : Z) (cb : Callback World unit R) (w w1 w2 : World)
    rp digest size fmode data res :
  pkglock_resolve p = Found (ResolvedFile rp digest size fmode) ->
  mkdirp (path_dirname p) None w = (Ok tt, w1) ->
  pkglock_read (ResolvedFile rp digest size fmode) = Ok data ->
  fs_writeFile p (Some (Raw data)) mode w1 = (res, w2) ->
  fs_chmod readFile chmod p mode cb w = cb res w2.
Proof.
  intros Hres Hmkdirp Hread Hwrite.
  unfold fs_chmod, chmod_patch, fs_readFile, readFile_patch.
  rewrite Hres. simpl. unfold invoke at 1. rewrite Hmkdirp.
  unfold andThen at 1, idle. rewrite Hread. simpl.
  unfold andThen, invoke. rewrite Hwrite. simpl.
  by destruct (cb res w2).
Qed.

End Open.

Lemma fixture_host_laws : HostLaws (gmap string (Buffer * Z)) (Host0 := Fixture.host).
Proof.
  split.
  - intros src dst w w'. simpl. unfold Fixture.copyFileSync.
    destruct (w !! src) as [[data m] |] eqn:Hsrc; [| discriminate].
    intros [= <-]. exists data, m, m. split; [done | apply lookup_insert_eq].
  - intros p mode w w'. simpl. unfold Fixture.chmodSync.
    destruct (w !! p) as [[data m] |] eqn:Hp; [| discriminate].
    intros [= <-]. exists data, m. split; [done | apply lookup_insert_eq].
Qed.

(** Opening a map file with the numeric read-only flag writes the real
    path: before the call nothing is there, after it the blob is. *)
Lemma openSync_read_only_number_writes_the_path :
  read_only_flags (FlagNum O_RDONLY) = true /\
  pkglock_resolve (Pkglock := Fixture.pkglock) "/proj/node_modules/a/index.js"
    = Found Fixture.index_js /\
  Fixture.world !! "/proj/node_modules/a/index.js" = None /\
  snd (openSync_patch (pk := Fixture.pkglock) (hs := Fixture.host) Fixture.openSync
         "/proj/node_modules/a/index.js" (FlagNum O_RDONLY) None Fixture.world)
    !! "/proj/node_modules/a/index.js" = Some (Fixture.blob, 493%Z).
Proof. vm_compute. repeat split. Qed.

(** Scenario 4 of the specification. *)
Lemma open_splits_on_the_flags_witness :
  openSync_patch (pk := Fixture.pkglock) (hs := Fixture.host) Fixture.openSync
    "/proj/node_modules/a/index.js" (FlagStr "r") None Fixture.world
  = Fixture.openSync Fixture.cache_path (FlagStr "r") None Fixture.world /\
  openSync_patch (pk := Fixture.pkglock) (hs := Fixture.host) Fixture.openSync
    "/proj/node_modules/a/index.js" (FlagStr "w") None Fixture.world
  = Fixture.openSync "/proj/node_modules/a/index.js" (FlagStr "w") None
      (<["/proj/node_modules/a/index.js" := (Fixture.blob, 493%Z)]>
         (<["/proj/node_modules/a/index.js" := (Fixture.blob, 292%Z)]> Fixture.world)) /\
  exists data m,
    Fixture.world !! Fixture.cache_path = Some (data, m) /\
    (<["/proj/node_modules/a/index.js" := (Fixture.blob, 493%Z)]>
       (<["/proj/node_modules/a/index.js" := (Fixture.blob, 292%Z)]> Fixture.world))
      !! "/proj/node_modules/a/index.js" = Some (data, 493%Z).
Proof.
  pose proof (open_splits_on_the_flags (pk := Fixture.pkglock) (hs := Fixture.host)
                (laws := fixture_host_laws) Fixture.openSync Fixture.openSync
                (fun _ _ cb => cb (Ok tt))
                "/proj/node_modules/a/index.js" (FlagStr "r") None Fixture.world
                _ _ _ _ Fixture.index_js_stats eq_refl) as [Hr _].
  pose proof (open_splits_on_the_flags (pk := Fixture.pkglock) (hs := Fixture.host)
                (laws := fixture_host_laws) Fixture.openSync Fixture.openSync
                (fun _ _ cb => cb (Ok tt))
                "/proj/node_modules/a/index.js" (FlagStr "w") None Fixture.world
                _ _ _ _ Fixture.index_js_stats eq_refl) as [Hw _].
  split.
  - exact (proj1 (Hr eq_refl) eq_refl).
  - exact (proj2 (Hw eq_refl) eq_refl _ _ eq_refl eq_refl).
Defined.

(** The asynchronous [open] on the fixture, whose [writeFile] applies its
    mode to new files only, as Node's does. With ['r+'] the real open fails
    with ENOENT, the blob is copied and the real path opened, but the file
    keeps the mode it was copied with; with ['w'] the real open succeeds at
    once and the blob is not copied. *)
Lemma open_on_the_fixture :
  let open flags :=
    fs_open (pk := Fixture.pkglock) (hs := Fixture.host) Fixture.readFileSync
      Fixture.chmodSync Fixture.openSync "/proj/node_modules/a/index.js" flags None
      deliver Fixture.world in
  fst (open (FlagStr "r+")) = [Called (Ok 3%Z)] /\
  snd (open (FlagStr "r+")) !! "/proj/node_modules/a/index.js" = Some (Fixture.blob, 292%Z) /\
  fst (open (FlagStr "w")) = [Called (Ok 3%Z)] /\
  snd (open (FlagStr "w")) !! "/proj/node_modules/a/index.js" = Some ([], 438%Z).
Proof. vm_compute. repeat split. Qed.

(** A read stream asked for without flags is a read-only request, the
    host opening it with ['r']; yet making it writes the real path: before
    the call nothing is there, after it the blob is. *)
Lemma createReadStream_without_flags_writes_the_path :
  pkglock_resolve (Pkglock := Fixture.pkglock) "/proj/node_modules/a/index.js"
    = Found Fixture.index_js /\
  Fixture.world !! "/proj/node_modules/a/index.js" = None /\
  fst (createReadStream_patch (pk := Fixture.pkglock) (hs := Fixture.host)
         ReadStream "/proj/node_modules/a/index.js" None Fixture.world)
    = Ok (mkFileStream "/proj/node_modules/a/index.js" (FlagStr "r") 438) /\
  read_only_flags (FlagStr "r") = true /\
  snd (createReadStream_patch (pk := Fixture.pkglock) (hs := Fixture.host)
         ReadStream "/proj/node_modules/a/index.js" None Fixture.world)
    !! "/proj/node_modules/a/index.js" = Some (Fixture.blob, 493%Z).
Proof. vm_compute. repeat split. Qed.

Lemma streams_pass_through_or_materialise_witness :
  createReadStream_patch (pk := Fixture.pkglock) (hs := Fixture.host)
    ReadStream "/proj/node_modules/a/index.js" (Some (FlagStr "r")) Fixture.world
  = (Ok (mkFileStream Fixture.cache_path (FlagStr "r") 438), Fixture.world) /\
  stream_open
    (fs_open (pk := Fixture.pkglock) (hs := Fixture.host) Fixture.readFileSync
       Fixture.chmodSync Fixture.openSync)
    (mkFileStream "/proj/node_modules/a/missing.js" (FlagStr "r") 438) deliver Fixture.world
  = ([Called (Throw (SystemError "ENOENT, /proj/node_modules/a/missing.js not found"
                                 "ENOENT" (-2)))], Fixture.world) /\
  stream_open
    (fs_open (pk := Fixture.pkglock) (hs := Fixture.host) Fixture.readFileSync
       Fixture.chmodSync Fixture.openSync)
    (mkFileStream "/proj/node_modules/a" (FlagStr "r") 438) deliver Fixture.world
  = ([Called (Throw (SystemError
                       "EISDIR: illegal operation on a directory, read, /proj/node_modules/a"
                       "EISDIR" (-21)))], Fixture.world) /\
  createWriteStream_patch (pk := Fixture.pkglock) (hs := Fixture.host)
    WriteStream "/proj/node_modules/a/index.js" None Fixture.world
  = (Ok (mkFileStream "/proj/node_modules/a/index.js" (FlagStr "w") 438),
     <["/proj/node_modules/a/index.js" := (Fixture.blob, 493%Z)]>
       (<["/proj/node_modules/a/index.js" := (Fixture.blob, 292%Z)]> Fixture.world)).
Proof.
  pose proof (streams_pass_through_or_materialise (pk := Fixture.pkglock)
                (hs := Fixture.host) (laws := fixture_host_laws)
                (ReadStream (World := gmap string (Buffer * Z))) WriteStream
                Fixture.openSync
                (fs_chmod (pk := Fixture.pkglock) (hs := Fixture.host)
                   Fixture.readFileSync Fixture.chmodSync)
                "/proj/node_modules/a/index.js" (Some (FlagStr "r")) Fixture.world)
    as (_ & _ & _ & Hr).
  pose proof (streams_pass_through_or_materialise (pk := Fixture.pkglock)
                (hs := Fixture.host) (laws := fixture_host_laws)
                (ReadStream (World := gmap string (Buffer * Z))) WriteStream
                Fixture.openSync
                (fs_chmod (pk := Fixture.pkglock) (hs := Fixture.host)
                   Fixture.readFileSync Fixture.chmodSync)
                "/proj/node_modules/a/missing.js" None Fixture.world)
    as (_ & Hmissing & _).
  pose proof (streams_pass_through_or_materialise (pk := Fixture.pkglock)
                (hs := Fixture.host) (laws := fixture_host_laws)
                (ReadStream (World := gmap string (Buffer * Z))) WriteStream
                Fixture.openSync
                (fs_chmod (pk := Fixture.pkglock) (hs := Fixture.host)
                   Fixture.readFileSync Fixture.chmodSync)
                "/proj/node_modules/a" None Fixture.world)
    as (_ & Hdir & _).
  pose proof (streams_pass_through_or_materialise (pk := Fixture.pkglock)
                (hs := Fixture.host) (laws := fixture_host_laws)
                (ReadStream (World := gmap string (Buffer * Z))) WriteStream
                Fixture.openSync
                (fs_chmod (pk := Fixture.pkglock) (hs := Fixture.host)
                   Fixture.readFileSync Fixture.chmodSync)
                "/proj/node_modules/a/index.js" None Fixture.world)
    as (_ & _ & _ & Hw).
  split; [| split; [| split]].
  - exact (proj1 (Hr _ _ _ _ Fixture.index_js_stats eq_refl eq_refl) eq_refl).
  - exact (proj1 (proj2 (Hmissing _ (or_introl eq_refl)) _ _ eq_refl eq_refl) eq_refl).
  - exact (proj2 (proj2 (Hdir _ (or_introl eq_refl)) _ _ eq_refl eq_refl) _ _ eq_refl).
  - exact (proj1 (proj2 (proj2 (Hw _ _ _ _ Fixture.index_js_stats eq_refl eq_refl)
                          _ _ eq_refl eq_refl))).
Defined.

(** ** Untracked paths *)

Section Untracked.

Context {World : Type} {pk : Pkglock} {hs : Host World}.

Variable p : string.
Hypothesis untracked : pkglock_resolve p = Untracked.

(** The patches that ask the resolver first hand an untracked path to the
    original, arguments and all. *)
Lemma untracked_is_handed_over :
  (forall (f : string -> Sync World bool) w, existsSync_patch f p w = f p w) /\
  (forall (f : string -> Sync World bool) w, exists_custom_patch f p w = f p w) /\
  (forall (f : string -> ModeArg -> Sync World unit) stack mode w,
     fs_accessSync (S stack) f p mode w = f p mode w) /\
  (forall (f : string -> ReadOptions -> Sync World FileData) options w,
     readFileSync_patch f p options w = f p options w) /\
  (forall (f : string -> Flags -> option Z -> Sync World Z) flags mode w,
     openSync_patch f p flags mode w = f p flags mode w) /\
  (forall Stream (f : string -> option Flags -> Sync World Stream) opts w,
     createReadStream_patch f p opts w = f p opts w /\
     createWriteStream_patch f p opts w = f p opts w) /\
  (forall (f : string -> Sync World (option string)) w,
     internalModuleReadJSON_patch f p w = f p w) /\
  (forall (f : string -> Sync World Z) w, internalModuleStat_patch f p w = f p w) /\
  (forall Rest B name (f : string -> Rest -> Sync World B) rest w,
     overrideAPISync name f p rest w = f p rest w) /\
  (forall R (f : string -> ModeArg -> Sync World unit) mode (cb : Callback World unit R) w,
     access_patch f p mode cb w = invoke (f p mode) cb w) /\
  (forall R (f : string -> ReadOptions -> Sync World FileData) options
          (cb : Callback World FileData R) w,
     readFile_patch f p options cb w = invoke (f p options) cb w) /\
  (forall R fs_readFile (f : string -> Z -> Sync World unit) mode
          (cb : Callback World unit R) w,
     chmod_patch fs_readFile f p mode cb w = invoke (f p mode) cb w).
Proof.
  unfold existsSync_patch, exists_custom_patch, readFileSync_patch, openSync_patch,
    createReadStream_patch, createWriteStream_patch, internalModuleReadJSON_patch,
    internalModuleStat_patch, overrideAPISync, access_patch, readFile_patch, chmod_patch.
  rewrite untracked. simpl.
  repeat split. intros f stack mode w. simpl. unfold accessSync_patch. by rewrite untracked.
Qed.

(** The patches that try the real call first pass on its success and every
    error but ENOENT; a real ENOENT is raised anew with the same code and
    errno. *)
Lemma untracked_sync_real_first (f : string -> Sync World Stats) (w : World) :
  statSync_patch f p w =
    match f p w with
    | (Throw err, w') =>
        if code_is err "ENOENT" then (Throw (notFoundError p), w') else (Throw err, w')
    | ok => ok
    end /\
  lstatSync_patch f p w = statSync_patch f p w.
Proof.
  unfold statSync_patch, lstatSync_patch, try_catch, throw. rewrite untracked.
  destruct (f p w) as [[st | err] w']; [done |].
  destruct (code_is err "ENOENT"); done.
Qed.

Lemma untracked_real_first
    {Args : Type} (realpath : string -> Args -> Sync World string) (args : Args)
    (open : string -> Flags -> option Z -> Sync World Z)
    (fs_chmod : string -> Z -> Callback World unit Z -> Act World Z)
    (flags : Flags) (mode : option Z)
    (readdir : string -> Sync World (list string)) (w : World) :
  realpathSync_patch realpath p args w =
    match realpath p args w with
    | (Throw err, w') =>
        if code_is err "ENOENT" then (Throw (notFoundError p), w') else (Throw err, w')
    | ok => ok
    end /\
  realpath_patch realpath p args deliver w =
    ([Called (fst (realpathSync_patch realpath p args w))], snd (realpath p args w)) /\
  open_patch fs_chmod open p flags mode deliver w =
    match open p flags mode w with
    | (Throw err, w') =>
        if code_is err "ENOENT" then ([Called (Throw (notFoundError p))], w')
        else ([Called (Throw err)], w')
    | (Ok fd, w') => ([Called (Ok fd)], w')
    end /\
  readdirSync_patch readdir p w =
    match readdir p w with
    | (Throw err, w') =>
        if code_is err "ENOENT" then (Throw (notFoundError p), w') else (Throw err, w')
    | (Ok files, w') => (Ok (uniq files), w')
    end.
Proof.
  unfold realpathSync_patch, realpath_patch, open_patch, readdirSync_patch, readdir_merge,
    invoke, try_catch, bind, pure, ret, throw, deliver.
  rewrite untracked. repeat split.
  - destruct (realpath p args w) as [[rp | err] w']; [done |].
    destruct (code_is err "ENOENT"); done.
  - destruct (realpath p args w) as [[rp | err] w']; [done |].
    destruct (code_is err "ENOENT"); done.
  - destruct (open p flags mode w) as [[fd | err] w']; [done |].
    destruct (code_is err "ENOENT"); done.
  - destruct (readdir p w) as [[files | err] w']; [done |].
    destruct (code_is err "ENOENT"); done.
Qed.

(** [stat] and [lstat] do not look at the real error's code: whatever the
    real call failed with, the callback is told ENOENT. *)
Lemma untracked_stat_reports_ENOENT (f : string -> Sync World Stats) (w w' : World) err :
  f p w = (Throw err, w') ->
  stat_patch f p deliver w = ([Called (Throw (notFoundError p))], w') /\
  lstat_patch f p deliver w = ([Called (Throw (notFoundError p))], w').
Proof.
  intros Hreal. unfold stat_patch, lstat_patch, invoke. by rewrite Hreal, untracked.
Qed.

End Untracked.

(** C1 fails on [stat] and [lstat]. [/etc/passwd/x] lies outside the
    dependency root, so the resolver answers Untracked; the real [stat]
    fails with ENOTDIR (errno -20) because [/etc/passwd] is a file. The
    patched [statSync] throws that very error, but the patched [stat] and
    [lstat] call back with ENOENT (errno -2). *)
Theorem stat_turns_ENOTDIR_into_ENOENT :
  pkglock_resolve (Pkglock := Fixture.pkglock) "/etc/passwd/x" = Untracked /\
  Fixture.stat "/etc/passwd/x" Fixture.world
    = (Throw (SystemError "ENOTDIR: not a directory, stat '/etc/passwd/x'" "ENOTDIR" (-20)),
       Fixture.world) /\
  statSync_patch (pk := Fixture.pkglock) Fixture.stat "/etc/passwd/x" Fixture.world
    = Fixture.stat "/etc/passwd/x" Fixture.world /\
  stat_patch (pk := Fixture.pkglock) Fixture.stat "/etc/passwd/x" deliver Fixture.world
    = ([Called (Throw (SystemError "ENOENT, /etc/passwd/x not found" "ENOENT" (-2)))],
       Fixture.world) /\
  lstat_patch (pk := Fixture.pkglock) Fixture.stat "/etc/passwd/x" deliver Fixture.world
    = ([Called (Throw (SystemError "ENOENT, /etc/passwd/x not found" "ENOENT" (-2)))],
       Fixture.world).
Proof.
  assert (Fixture.stat "/etc/passwd/x" Fixture.world
          = (Throw (SystemError "ENOTDIR: not a directory, stat '/etc/passwd/x'"
                                "ENOTDIR" (-20)), Fixture.world)) as Hreal
    by (vm_compute; reflexivity).
  split; [reflexivity |]. split; [exact Hreal |]. split.
  - rewrite (proj1 (untracked_sync_real_first (pk := Fixture.pkglock)
                      "/etc/passwd/x" eq_refl Fixture.stat Fixture.world)).
    by rewrite Hreal.
  - exact (untracked_stat_reports_ENOENT (pk := Fixture.pkglock)
             "/etc/passwd/x" eq_refl Fixture.stat Fixture.world Fixture.world _ Hreal).
Qed.

(** ** The seal over the lockfile *)

Lemma strip_prefix_app (pre s : string) : strip_prefix pre (pre ++ s) = Some s.
Proof.
  induction pre as [| c pre IH]; simpl; [done |]. by rewrite Ascii.eqb_refl.
Qed.

Lemma hash_file_is_not_the_lockfile (prefix : string) :
  path_join prefix "package-lock.json"
  <> path_join (path_join prefix "node_modules") ".pkglock-hash".
Proof.
  unfold path_join. induction prefix as [| c prefix IH]; simpl; [discriminate |].
  intros [= H]. by apply IH.
Qed.

Lemma project_ssri_laws : SsriLaws (H := Project.ssri).
Proof.
  split.
  - intros data data'. unfold ssri_checkData, ssri_fromData, Project.ssri,
      Project.toy_checkData, Project.toy_fromData.
    rewrite (strip_prefix_app "sha512-"). done.
  - intros data sri. simpl. unfold Project.toy_checkData_error.
    by destruct (Project.toy_checkData data sri) as [[] |].
Qed.

Section Seal.

Context {jp : JsonParser} {ss : Ssri} {laws : SsriLaws} {co : Collaborators}.

Lemma writeLockHash_writes_the_seal (m : Installer.Machine) (l : JSON) :
  Installer._shrinkwrap (Installer.self m) = Some l ->
  Installer.writeLockHash m =
    (Ok tt,
     Installer.mkMachine (Installer.self m)
       (<[path_join (path_join (Installer.prefix (Installer.self m)) "node_modules")
            ".pkglock-hash" :=
          JSON_stringify
            (JObj [("lockfile_integrity", JStr (ssri_fromData (JSON_stringify l)))])]>
          (Installer.disk m))
       (Installer.stages m)).
Proof.
  intros Hlock. destruct m as [i d s]. simpl in *.
  unfold Installer.writeLockHash, bind, try_catch, pure, Installer.get_self,
    Installer.on_disk, disk_mkdirp, disk_writeFile. simpl. by rewrite Hlock.
Qed.

(** C5. [writeLockHash] writes [<prefix>/node_modules/.pkglock-hash] as the
    JSON object whose [lockfile_integrity] is the integrity string that
    ssri computes over the serialised lockfile. [checkPkgLock], run on the
    project as persisted, verifies the seal against the lockfile it finds
    on disk: it accepts a lockfile that serialises as the sealed one did,
    and it rejects a lockfile that serialises differently, unless the two
    serialisations collide, that is have the same integrity string. *)
Theorem seal_verifies_its_own_lockfile_only
    (m : Installer.Machine) (l l' : JSON) (lockText : string) :
  let prefix := Installer.prefix (Installer.self m) in
  let seal := JObj [("lockfile_integrity", JStr (ssri_fromData (JSON_stringify l)))] in
  let hashFile := path_join (path_join prefix "node_modules") ".pkglock-hash" in
  Installer._shrinkwrap (Installer.self m) = Some l ->
  Installer.disk m !! path_join prefix "package-lock.json" = Some lockText ->
  JSON_parse (stripBOM lockText) = Ok l' ->
  JSON_parse (stripBOM (JSON_stringify seal)) = Ok seal ->
  Installer.writeLockHash m =
    (Ok tt,
     Installer.mkMachine (Installer.self m)
       (<[hashFile := JSON_stringify seal]> (Installer.disk m)) (Installer.stages m)) /\
  (JSON_stringify l' = JSON_stringify l ->
     Prepare.checkPkgLock prefix (Installer.disk (snd (Installer.writeLockHash m)))
     = Some seal) /\
  (JSON_stringify l' <> JSON_stringify l ->
   (ssri_fromData (JSON_stringify l') = ssri_fromData (JSON_stringify l) ->
    JSON_stringify l' = JSON_stringify l) ->
   Prepare.checkPkgLock prefix (Installer.disk (snd (Installer.writeLockHash m)))
   = None).
Proof.
  intros prefix seal hashFile Hlock Hdisk Hparse Hseal.
  pose proof (writeLockHash_writes_the_seal m l Hlock) as Hwrite.
  fold prefix seal hashFile in Hwrite.
  split; [exact Hwrite |].
  rewrite Hwrite. cbn [snd Installer.disk].
  assert (prop seal "lockfile_integrity"
          = Some (JStr (ssri_fromData (JSON_stringify l)))) as Hprop by done.
  assert (forall b,
    String.eqb (ssri_fromData (JSON_stringify l')) (ssri_fromData (JSON_stringify l)) = b ->
    Prepare.checkPkgLock prefix (<[hashFile := JSON_stringify seal]> (Installer.disk m))
    = if b then Some seal else None) as Hcheck.
  { intros b Hb.
    pose proof (checkData_error_throws (Some (JSON_stringify l'))
                  (Some (JStr (ssri_fromData (JSON_stringify l))))) as Herror.
    rewrite checkData_fromData, Hb in Herror.
    set (text := JSON_stringify seal) in *. clearbody text.
    unfold Prepare.checkPkgLock, bind, pure, ret, disk_readFile.
    rewrite lookup_insert_ne by (symmetry; apply hash_file_is_not_the_lockfile).
    rewrite Hdisk. cbn -[get_prop]. rewrite Hparse. cbn -[get_prop].
    fold hashFile. rewrite lookup_insert_eq. cbn -[get_prop]. rewrite Hseal.
    cbn -[get_prop].
    change (get_prop (Some seal) "lockfile_integrity")
      with (Ok (prop seal "lockfile_integrity")).
    rewrite Hprop. cbn.
    destruct (ssri_checkData_error (Some (JSON_stringify l'))
                (Some (JStr (ssri_fromData (JSON_stringify l))))) as [[] | err];
      by destruct b. }
  split.
  - intros Heq. apply (Hcheck true). rewrite Heq. apply String.eqb_refl.
  - intros Hne Hcollision. apply (Hcheck false). apply String.eqb_neq.
    intros Heq. by apply Hne, Hcollision.
Qed.

End Seal.

(** The project's seal, and the same project after a dependency was added
    to the lockfile by hand. *)
Lemma seal_verifies_its_own_lockfile_only_witness :
  let installer :=
    Installer.set_shrinkwrap (Some Project.lock) (Installer.constructor false "/proj") in
  Prepare.checkPkgLock (jp := Project.json_parser) (ss := Project.ssri) "/proj"
    (Installer.disk (snd (Installer.writeLockHash (ss := Project.ssri)
                            (Installer.mkMachine installer Project.unsealed []))))
  = Some (JObj [("lockfile_integrity", JStr "sha512-BB==")]) /\
  Prepare.checkPkgLock (jp := Project.json_parser) (ss := Project.ssri) "/proj"
    (Installer.disk (snd (Installer.writeLockHash (ss := Project.ssri)
                            (Installer.mkMachine installer
                               (<["/proj/package-lock.json" :=
                                    JSON_stringify Project.lock_mutated]> Project.unsealed)
                               []))))
  = None.
Proof.
  intros installer. split.
  - refine (proj1 (proj2
      (seal_verifies_its_own_lockfile_only (jp := Project.json_parser)
         (ss := Project.ssri) (laws := project_ssri_laws)
         (Installer.mkMachine installer Project.unsealed [])
         Project.lock Project.lock (JSON_stringify Project.lock) eq_refl _ _ _))
      eq_refl); vm_compute; reflexivity.
  - refine (proj2 (proj2
      (seal_verifies_its_own_lockfile_only (jp := Project.json_parser)
         (ss := Project.ssri) (laws := project_ssri_laws)
         (Installer.mkMachine installer
            (<["/proj/package-lock.json" := JSON_stringify Project.lock_mutated]>
               Project.unsealed) [])
         Project.lock Project.lock_mutated (JSON_stringify Project.lock_mutated)
         eq_refl _ _ _))
      _ _); vm_compute; (reflexivity || discriminate).
Defined.

(** ** The installer never takes the seal's word *)

Section NeverValid.

Context {jp : JsonParser} {ss : Ssri} {co : Collaborators}.

Local Abbreviation invalid m :=
  (Installer.validLockHash (Installer.self m) = false).

Local Abbreviation keeps c :=
  (forall m r m', invalid m -> c m = (r, m') -> invalid m').

Lemma keeps_bind {A B} (c : Sync Installer.Machine A) (k : A -> Sync Installer.Machine B) :
  keeps c -> (forall a, keeps (k a)) -> keeps (bind c k).
Proof.
  intros Hc Hk m r m' Hm. unfold bind.
  destruct (c m) as [[a | err] m1] eqn:Hcm.
  - intros Hkm. exact (Hk a m1 r m' (Hc _ _ _ Hm Hcm) Hkm).
  - intros [= <- <-]. exact (Hc _ _ _ Hm Hcm).
Qed.

Lemma keeps_try_catch {A} (c : Sync Installer.Machine A) handler :
  keeps c -> (forall err, keeps (handler err)) -> keeps (try_catch c handler).
Proof.
  intros Hc Hh m r m' Hm. unfold try_catch.
  destruct (c m) as [[a | err] m1] eqn:Hcm.
  - intros [= <- <-]. exact (Hc _ _ _ Hm Hcm).
  - intros Hhm. exact (Hh err m1 r m' (Hc _ _ _ Hm Hcm) Hhm).
Qed.

Lemma keeps_on_disk {A} (op : Sync (gmap string string) A) : keeps (Installer.on_disk op).
Proof.
  intros m r m' Hm. unfold Installer.on_disk.
  destruct (op (Installer.disk m)) as [r' d]. intros [= <- <-]. exact Hm.
Qed.

Lemma keeps_pure {A} (r : Result A) : keeps (pure (World := Installer.Machine) r).
Proof. intros m r' m' Hm [= <- <-]. exact Hm. Qed.

Lemma keeps_with_self {B} (k : Installer.Installer -> Sync Installer.Machine B) :
  (forall i, Installer.validLockHash i = false -> keeps (k i)) ->
  keeps (bind Installer.get_self k).
Proof.
  intros Hk m r m' Hm. unfold bind, Installer.get_self. exact (Hk _ Hm m r m' Hm).
Qed.

Lemma keeps_set_self (i : Installer.Installer) :
  Installer.validLockHash i = false -> keeps (Installer.set_self i).
Proof. intros Hi m r m' Hm [= <- <-]. exact Hi. Qed.

Lemma npmInstall_keeps : keeps Installer.npmInstall.
Proof.
  unfold Installer.npmInstall.
  apply keeps_bind; [apply keeps_on_disk | intros _].
  apply keeps_with_self. intros i Hi.
  apply keeps_bind; [apply keeps_on_disk | intros l].
  by apply keeps_set_self.
Qed.

Lemma checkLock_keeps : keeps Installer.checkLock.
Proof.
  unfold Installer.checkLock.
  apply keeps_with_self. intros i Hi.
  apply keeps_bind.
  { destruct (truthy (Installer.pkglockHash i)); [| apply (keeps_pure (Ok tt))].
    apply keeps_bind; [apply keeps_pure | intros integrity].
    apply keeps_bind; [apply keeps_pure | intros ok].
    destruct ok; simpl; [apply (keeps_pure (Ok tt)) | by apply keeps_set_self]. }
  intros _. apply keeps_with_self. intros i1 Hi1.
  apply keeps_bind.
  { destruct (Installer.no_lockfile i1); [apply npmInstall_keeps | apply (keeps_pure (Ok tt))]. }
  intros _. apply keeps_with_self. intros i2 Hi2.
  apply keeps_bind.
  { destruct (Installer.no_lockfile i2); [apply keeps_pure | apply (keeps_pure (Ok tt))]. }
  intros _. apply keeps_bind; [apply keeps_on_disk | intros status].
  destruct status; [apply (keeps_pure (Ok tt)) | apply npmInstall_keeps].
Qed.

Lemma prepare_keeps : keeps Installer.prepare.
Proof.
  unfold Installer.prepare.
  apply keeps_with_self. intros i Hi.
  apply keeps_bind; [apply keeps_on_disk | intros p].
  apply keeps_bind; [apply keeps_on_disk | intros lock].
  apply keeps_bind; [apply keeps_on_disk | intros shrink].
  apply keeps_bind; [apply keeps_on_disk | intros lockHash].
  apply keeps_bind.
  { destruct p as [[] |]; apply keeps_pure. }
  intros _. apply keeps_bind; [by apply keeps_set_self | intros _].
  apply keeps_bind; [apply checkLock_keeps | intros _].
  apply keeps_with_self. intros i' Hi'. apply keeps_pure.
Qed.

Local Abbreviation fetched m := ("fetchTree" ∈ Installer.stages m).

Local Abbreviation stays c :=
  (forall m r m', fetched m -> c m = (r, m') -> fetched m').

Lemma stays_bind {A B} (c : Sync Installer.Machine A) (k : A -> Sync Installer.Machine B) :
  stays c -> (forall a, stays (k a)) -> stays (bind c k).
Proof.
  intros Hc Hk m r m' Hm. unfold bind.
  destruct (c m) as [[a | err] m1] eqn:Hcm.
  - intros Hkm. exact (Hk a m1 r m' (Hc _ _ _ Hm Hcm) Hkm).
  - intros [= <- <-]. exact (Hc _ _ _ Hm Hcm).
Qed.

Lemma stays_try_catch {A} (c : Sync Installer.Machine A) handler :
  stays c -> (forall err, stays (handler err)) -> stays (try_catch c handler).
Proof.
  intros Hc Hh m r m' Hm. unfold try_catch.
  destruct (c m) as [[a | err] m1] eqn:Hcm.
  - intros [= <- <-]. exact (Hc _ _ _ Hm Hcm).
  - intros Hhm. exact (Hh err m1 r m' (Hc _ _ _ Hm Hcm) Hhm).
Qed.

Lemma stays_on_disk {A} (op : Sync (gmap string string) A) : stays (Installer.on_disk op).
Proof.
  intros m r m' Hm. unfold Installer.on_disk.
  destruct (op (Installer.disk m)) as [r' d]. intros [= <- <-]. exact Hm.
Qed.

Lemma stays_pure {A} (r : Result A) : stays (pure (World := Installer.Machine) r).
Proof. intros m r' m' Hm [= <- <-]. exact Hm. Qed.

Lemma stays_timedStage {A} (name : string) (c : Sync Installer.Machine A) :
  stays c -> stays (Installer.timedStage name c).
Proof.
  intros Hc m r m' Hm. unfold Installer.timedStage. apply Hc. simpl.
  apply elem_of_app. by left.
Qed.

Lemma marks_bind {A B} (c : Sync Installer.Machine A) (k : A -> Sync Installer.Machine B) :
  (forall m r m', c m = (r, m') -> fetched m') -> (forall a, stays (k a)) ->
  forall m r m', bind c k m = (r, m') -> fetched m'.
Proof.
  intros Hc Hk m r m'. unfold bind.
  destruct (c m) as [[a | err] m1] eqn:Hcm.
  - intros Hkm. exact (Hk a m1 r m' (Hc _ _ _ Hcm) Hkm).
  - intros [= <- <-]. exact (Hc _ _ _ Hcm).
Qed.

Lemma writeLockHash_stays : stays Installer.writeLockHash.
Proof.
  unfold Installer.writeLockHash.
  apply stays_bind; [by intros m r m' Hm [= <- <-] | intros i].
  apply stays_bind.
  { apply stays_try_catch; [apply stays_on_disk | intros err].
    destruct (negb (code_is err "ENOENT")); destruct (negb (code_is err "EEXIST"));
      apply stays_pure. }
  intros _. apply stays_bind; [apply stays_pure | intros integrity].
  apply stays_on_disk.
Qed.

(** Whatever the project holds, an installer that gets through [prepare]
    goes on to fetch: [validLockHash] is false from the constructor on and
    nothing sets it. *)
Lemma run_always_regenerates (opts_force : bool) (opts_prefix : string)
    (d : gmap string string) m1 :
  Installer.timedStage "prepare" Installer.prepare
    (Installer.mkMachine (Installer.constructor opts_force opts_prefix) d [])
  = (Ok tt, m1) ->
  "fetchTree" ∈ Installer.stages (snd (Installer.treeFrog opts_force opts_prefix d)).
Proof.
  intros Hprepare.
  assert (invalid m1) as Hinv.
  { unfold Installer.timedStage in Hprepare. by eapply prepare_keeps in Hprepare. }
  unfold Installer.treeFrog, Installer.run.
  destruct (Installer.run_try _) as [r m2] eqn:Htry.
  assert (fetched m2) as Hm2.
  { unfold Installer.run_try in Htry. unfold bind at 1 in Htry.
    rewrite Hprepare in Htry. unfold bind at 1 in Htry.
    unfold Installer.get_self at 1 in Htry. rewrite Hinv in Htry. simpl in Htry.
    revert Htry. apply marks_bind; [| intros _; apply stays_timedStage, (stays_pure (Ok tt))].
    apply marks_bind.
    { intros m r' m'. unfold Installer.timedStage. apply stays_on_disk. simpl.
      apply elem_of_app. right. by left. }
    intros _.
    repeat (apply stays_bind;
            [first [apply stays_timedStage, stays_on_disk | apply stays_on_disk]
            | intros _]).
    apply stays_timedStage, writeLockHash_stays. }
  unfold Installer.timedStage, Installer.teardown, ret. simpl.
  apply elem_of_app. by left.
Qed.

End NeverValid.

(** C6 fails in [Installer.run]. The project's persisted seal is the one
    written for its lockfile, so [checkPkgLock] and [ssri.checkData] both
    accept it, and force is not set; the prepare command therefore leaves
    the installer alone. The installer itself, run on that project,
    regenerates all the same: it goes through fetchTree, updateJson,
    buildTree, the two run-scripts and writeLockHash, with [validLockHash]
    still false at the end. *)
Theorem run_regenerates_under_a_valid_seal :
  Prepare.checkPkgLock (jp := Project.json_parser) (ss := Project.ssri)
    "/proj" Project.sealed
  = Some (JObj [("lockfile_integrity", JStr "sha512-BB==")]) /\
  ssri_checkData (Ssri := Project.ssri) (Some (JSON_stringify Project.lock))
    (Some (JStr "sha512-BB==")) = Ok true /\
  Prepare.prepare (jp := Project.json_parser) (ss := Project.ssri)
    (co := Project.collaborators) false false "/proj" "/proj" Project.sealed = None /\
  fst (Installer.treeFrog (jp := Project.json_parser) (ss := Project.ssri)
         (co := Project.collaborators) false "/proj" Project.sealed) = Ok tt /\
  Installer.stages
    (snd (Installer.treeFrog (jp := Project.json_parser) (ss := Project.ssri)
            (co := Project.collaborators) false "/proj" Project.sealed))
  = ["prepare"; "fetchTree"; "updateJson"; "buildTree"; "runScript"; "runScript";
     "writeLockHash"; "teardown"; "teardown"] /\
  Installer.validLockHash
    (Installer.self
       (snd (Installer.treeFrog (jp := Project.json_parser) (ss := Project.ssri)
               (co := Project.collaborators) false "/proj" Project.sealed)))
  = false.
Proof. vm_compute. repeat split. Qed.

(** * Further properties of the overlay *)

(** ** stat, lstat and realpath *)

Section RealFirst.

Context {World : Type} {pk : Pkglock}.

(** X1. [statSync] and [lstatSync] are the same patch. What the real call
    answers stands, and so does every real error but ENOENT; only on a real
    ENOENT is the map asked: its stats are returned when it has the path
    and pkglock supplies them, and ENOENT (errno -2) is thrown otherwise. *)
Theorem statSync_prefers_the_real_file
    (statSync : string -> Sync World Stats) (p : string) (w : World) :
  lstatSync_patch statSync p w = statSync_patch statSync p w /\
  (forall st w', statSync p w = (Ok st, w') ->
     statSync_patch statSync p w = (Ok st, w')) /\
  (forall err w', statSync p w = (Throw err, w') -> code_is err "ENOENT" = false ->
     statSync_patch statSync p w = (Throw err, w')) /\
  (forall err w' r st,
     statSync p w = (Throw err, w') -> code_is err "ENOENT" = true ->
     pkglock_resolve p = Found r -> pkglock_statSync r false = Ok (Some st) ->
     statSync_patch statSync p w = (Ok st, w')) /\
  (forall err w',
     statSync p w = (Throw err, w') -> code_is err "ENOENT" = true ->
     falsy (pkglock_resolve p) = true \/
       (exists r, pkglock_resolve p = Found r /\ pkglock_statSync r false = Ok None) ->
     statSync_patch statSync p w =
       (Throw (SystemError ("ENOENT, " ++ p ++ " not found") "ENOENT" (-2)), w')).
Proof.
  unfold lstatSync_patch, statSync_patch, try_catch, bind, pure, throw, ret.
  split; [done |]. split; [| split; [| split]].
  - intros st w' ->. done.
  - intros err w' -> ->. done.
  - intros err w' r st -> -> -> Hst. simpl. by rewrite Hst.
  - intros err w' -> -> [Hfalsy | (r & -> & Hst)]; simpl.
    + destruct (pkglock_resolve p); done.
    + by rewrite Hst.
Qed.

(** X2. The callback forms [stat] and [lstat] hand over what the real call
    answers; when it fails, whatever the error, they answer with the map's
    stats if the map has the path. If pkglock's promise then fulfils with
    nothing, the callback is invoked twice: first without error and without
    stats, then with ENOENT. A rejected promise is passed to the callback,
    and a path the map does not have gives ENOENT. *)
Theorem stat_may_call_back_twice
    (stat : string -> Sync World Stats) (p : string) (w : World) :
  lstat_patch stat p deliver w = stat_patch stat p deliver w /\
  (forall st w', stat p w = (Ok st, w') ->
     stat_patch stat p deliver w = ([Called (Ok (Some st))], w')) /\
  (forall err w' r st,
     stat p w = (Throw err, w') ->
     pkglock_resolve p = Found r -> pkglock_stat r false = Ok (Some st) ->
     stat_patch stat p deliver w = ([Called (Ok (Some st))], w')) /\
  (forall err w' r,
     stat p w = (Throw err, w') ->
     pkglock_resolve p = Found r -> pkglock_stat r false = Ok None ->
     stat_patch stat p deliver w =
       ([Called (Ok None);
         Called (Throw (SystemError ("ENOENT, " ++ p ++ " not found") "ENOENT" (-2)))],
        w')) /\
  (forall err w' r rejection,
     stat p w = (Throw err, w') ->
     pkglock_resolve p = Found r -> pkglock_stat r false = Throw rejection ->
     stat_patch stat p deliver w = ([Called (Throw rejection)], w')) /\
  (forall err w',
     stat p w = (Throw err, w') -> falsy (pkglock_resolve p) = true ->
     stat_patch stat p deliver w =
       ([Called (Throw (SystemError ("ENOENT, " ++ p ++ " not found") "ENOENT" (-2)))],
        w')).
Proof.
  unfold lstat_patch, stat_patch, invoke, andThen, deliver.
  split; [done |]. split; [| split; [| split; [| split]]].
  - intros st w' ->. done.
  - intros err w' r st -> -> ->. done.
  - intros err w' r -> -> ->. done.
  - intros err w' r rejection -> -> ->. done.
  - intros err w' -> Hfalsy. destruct (pkglock_resolve p); done.
Qed.

(** X3. [realpathSync] and [realpath] (in its three-argument form) each
    hand over what their original returns and every error of it other than
    ENOENT; after an ENOENT of the original, a path the map has resolves to
    the resolver's [resolvedPath], and any other path fails with ENOENT.
    Neither touches the disk beyond what its original did. Where the two
    originals answer alike, so do the two patches. *)
Theorem realpath_falls_back_to_the_map {Args : Type}
    (realpathSync realpath : string -> Args -> Sync World string)
    (p : string) (args : Args) (w : World) :
  snd (realpathSync_patch realpathSync p args w) = snd (realpathSync p args w) /\
  (forall rp, fst (realpathSync p args w) = Ok rp ->
     fst (realpathSync_patch realpathSync p args w) = Ok rp) /\
  (forall err,
     fst (realpathSync p args w) = Throw err -> code_is err "ENOENT" = false ->
     fst (realpathSync_patch realpathSync p args w) = Throw err) /\
  (forall err,
     fst (realpathSync p args w) = Throw err -> code_is err "ENOENT" = true ->
     (forall r, pkglock_resolve p = Found r ->
        fst (realpathSync_patch realpathSync p args w) = Ok (resolvedPath r)) /\
     (falsy (pkglock_resolve p) = true ->
        fst (realpathSync_patch realpathSync p args w) =
          Throw (SystemError ("ENOENT, " ++ p ++ " not found") "ENOENT" (-2)))) /\
  (forall rp w', realpath p args w = (Ok rp, w') ->
     realpath_patch realpath p args deliver w = ([Called (Ok rp)], w')) /\
  (forall err w',
     realpath p args w = (Throw err, w') -> code_is err "ENOENT" = false ->
     realpath_patch realpath p args deliver w = ([Called (Throw err)], w')) /\
  (forall err w',
     realpath p args w = (Throw err, w') -> code_is err "ENOENT" = true ->
     (forall r, pkglock_resolve p = Found r ->
        realpath_patch realpath p args deliver w = ([Called (Ok (resolvedPath r))], w')) /\
     (falsy (pkglock_resolve p) = true ->
        realpath_patch realpath p args deliver w =
          ([Called (Throw (SystemError ("ENOENT, " ++ p ++ " not found") "ENOENT" (-2)))],
           w'))) /\
  (realpath p args w = realpathSync p args w ->
     realpath_patch realpath p args deliver w =
       ([Called (fst (realpathSync_patch realpathSync p args w))],
        snd (realpathSync_patch realpathSync p args w))).
Proof.
  assert (forall original : string -> Args -> Sync World string,
            snd (realpathSync_patch original p args w) = snd (original p args w) /\
            realpath_patch original p args deliver w =
              ([Called (fst (realpathSync_patch original p args w))],
               snd (original p args w))) as Hboth.
  { intros original.
    unfold realpath_patch, realpathSync_patch, invoke, try_catch, throw, ret, deliver.
    destruct (original p args w) as [[rp | err] w']; simpl; [done |].
    destruct (code_is err "ENOENT"); simpl; [| done].
    by destruct (pkglock_resolve p). }
  assert (realpath p args w = realpathSync p args w ->
          realpath_patch realpath p args deliver w =
            ([Called (fst (realpathSync_patch realpathSync p args w))],
             snd (realpathSync_patch realpathSync p args w))) as Hagree.
  { intros Hsame.
    rewrite (proj2 (Hboth realpath)), (proj1 (Hboth realpathSync)).
    unfold realpathSync_patch, try_catch. by rewrite Hsame. }
  split; [exact (proj1 (Hboth realpathSync)) |].
  unfold realpath_patch, realpathSync_patch, invoke, try_catch, throw, ret, deliver.
  split; [| split; [| split; [| split; [| split; [| split; [| exact Hagree]]]]]].
  - intros rp. destruct (realpathSync p args w) as [[rp' | err] w']; simpl; [done |].
    discriminate.
  - intros err. destruct (realpathSync p args w) as [[rp' | err'] w']; simpl;
      [discriminate |].
    intros [= ->] ->. done.
  - intros err. destruct (realpathSync p args w) as [[rp' | err'] w']; simpl;
      [discriminate |].
    intros [= ->] ->. simpl. split.
    + by intros r ->.
    + intros Hfalsy. by destruct (pkglock_resolve p).
  - by intros rp w' ->.
  - by intros err w' -> ->.
  - intros err w' -> ->. simpl. split.
    + by intros r ->.
    + intros Hfalsy. by destruct (pkglock_resolve p).
Qed.

End RealFirst.

Lemma statSync_prefers_the_real_file_witness :
  statSync_patch (pk := Fixture.pkglock) Fixture.stat
    "/proj/node_modules/a/index.js" Fixture.world
  = (Ok Fixture.index_js_stats, Fixture.world) /\
  statSync_patch (pk := Fixture.pkglock) Fixture.stat "/etc/passwd" Fixture.world
  = Fixture.stat "/etc/passwd" Fixture.world.
Proof.
  pose proof (statSync_prefers_the_real_file (pk := Fixture.pkglock) Fixture.stat
                "/proj/node_modules/a/index.js" Fixture.world) as (_ & _ & _ & Hmap & _).
  pose proof (statSync_prefers_the_real_file (pk := Fixture.pkglock) Fixture.stat
                "/etc/passwd" Fixture.world) as (_ & Hreal & _).
  split.
  - exact (Hmap _ _ _ Fixture.index_js_stats eq_refl eq_refl eq_refl eq_refl).
  - exact (Hreal _ _ eq_refl).
Defined.

Lemma stat_may_call_back_twice_witness :
  stat_patch (pk := Faults.statless) Fixture.stat "/proj/node_modules/a/index.js" deliver Fixture.world
  = ([Called (Ok None);
      Called (Throw (SystemError "ENOENT, /proj/node_modules/a/index.js not found"
                                 "ENOENT" (-2)))],
     Fixture.world).
Proof.
  exact (proj1 (proj2 (proj2 (proj2
    (stat_may_call_back_twice (pk := Faults.statless) Fixture.stat "/proj/node_modules/a/index.js" Fixture.world))))
    _ _ _ eq_refl eq_refl eq_refl).
Defined.

Lemma realpath_falls_back_to_the_map_witness :
  fst (realpathSync_patch (pk := Fixture.pkglock)
         (fun p (_ : unit) w => (Throw (Fixture.host_ENOENT "lstat" p), w))
         "/proj/node_modules/a/index.js" tt Fixture.world)
  = Ok Fixture.cache_path.
Proof.
  exact (proj1 (proj1 (proj2 (proj2 (proj2
    (realpath_falls_back_to_the_map (pk := Fixture.pkglock)
       (fun p (_ : unit) w => (Throw (Fixture.host_ENOENT "lstat" p), w))
       (fun p (_ : unit) w => (Throw (Fixture.host_ENOENT "lstat" p), w))
       "/proj/node_modules/a/index.js" tt Fixture.world))))
    _ eq_refl eq_refl) _ eq_refl).
Defined.

(** ** Paths the map knows *)

Section Tracked.

Context {World : Type} {pk : Pkglock} {hs : Host World}.

(** X4. On a tracked path [existsSync] and [exists] answer from the map
    alone, without calling the original: [false] for a path the map lacks,
    even if a real file is there, and [true] for one it has. The callback
    of [exists] receives [null] before the answer. *)
Theorem exists_answers_from_the_map
    (existsSync exists_ : string -> Sync World bool) (p : string) (w : World) :
  (pkglock_resolve p = Missing ->
     existsSync_patch existsSync p w = (Ok false, w) /\
     exists_patch exists_ p deliver w = ([Called (Ok (NullFirst false))], w)) /\
  (forall r, pkglock_resolve p = Found r ->
     existsSync_patch existsSync p w = (Ok true, w) /\
     exists_patch exists_ p deliver w = ([Called (Ok (NullFirst true))], w)).
Proof.
  unfold existsSync_patch, exists_patch.
  split; [intros -> | intros r ->]; done.
Qed.

(** X5. The patched [chmod] never calls the real [chmod] on a tracked path.
    For a path the map lacks it throws ENOENT to the caller and the callback
    is never invoked; for a map directory it creates the directory with the
    requested mode; for a map file it creates the parent directory, reads
    the blob from the store and writes it to the real path with the mode as
    an option of [writeFile], whose outcome the callback receives. *)
Theorem chmod_writes_the_blob_out {R}
    (readFile : string -> ReadOptions -> Sync World FileData)
    (chmod : string -> Z -> Sync World unit)
    (p : string) (mode : Z) (cb : Callback World unit R) (w : World) :
  (pkglock_resolve p = Missing ->
     chmod_patch (fs_readFile readFile) chmod p mode cb w =
       ([Raised (SystemError ("ENOENT, " ++ p ++ " not found") "ENOENT" (-2))], w)) /\
  (forall rp dir, pkglock_resolve p = Found (ResolvedDir rp dir) ->
     chmod_patch (fs_readFile readFile) chmod p mode cb w =
       invoke (mkdirp p (Some mode)) cb w) /\
  (forall rp digest size fmode data w1 res w2,
     pkglock_resolve p = Found (ResolvedFile rp digest size fmode) ->
     mkdirp (path_dirname p) None w = (Ok tt, w1) ->
     pkglock_read (ResolvedFile rp digest size fmode) = Ok data ->
     fs_writeFile p (Some (Raw data)) mode w1 = (res, w2) ->
     chmod_patch (fs_readFile readFile) chmod p mode cb w = cb res w2).
Proof.
  split; [| split].
  - intros Hres. unfold chmod_patch. by rewrite Hres.
  - intros rp dir Hres. unfold chmod_patch. by rewrite Hres.
  - intros rp digest size fmode data w1 res w2 Hres Hmkdirp Hread Hwrite.
    unfold chmod_patch, fs_readFile, readFile_patch.
    rewrite Hres. simpl. unfold invoke at 1. rewrite Hmkdirp.
    unfold andThen at 1, idle. rewrite Hread. simpl.
    unfold andThen, invoke. rewrite Hwrite. simpl.
    by destruct (cb res w2).
Qed.

(** X6. On a map file the patched [chmod] reports a failure and carries
    on. If creating the parent directory fails, the callback receives that
    error and the blob is written all the same, so that the callback is
    invoked a second time with the outcome of [writeFile]. If reading the
    blob fails, the callback receives that error and [writeFile] is called
    without data, its outcome again going to the callback. *)
Theorem chmod_calls_back_again_after_an_error
    (readFile : string -> ReadOptions -> Sync World FileData)
    (chmod : string -> Z -> Sync World unit)
    (p : string) (mode : Z) (w : World) rp digest size fmode :
  pkglock_resolve p = Found (ResolvedFile rp digest size fmode) ->
  (forall err w1 data res w2,
     mkdirp (path_dirname p) None w = (Throw err, w1) ->
     pkglock_read (ResolvedFile rp digest size fmode) = Ok data ->
     fs_writeFile p (Some (Raw data)) mode w1 = (res, w2) ->
     chmod_patch (fs_readFile readFile) chmod p mode deliver w =
       ([Called (Throw err); Called res], w2)) /\
  (forall w1 err res w2,
     mkdirp (path_dirname p) None w = (Ok tt, w1) ->
     pkglock_read (ResolvedFile rp digest size fmode) = Throw err ->
     fs_writeFile p None mode w1 = (res, w2) ->
     chmod_patch (fs_readFile readFile) chmod p mode deliver w =
       ([Called (Throw err); Called res], w2)).
Proof.
  intros Hres. unfold chmod_patch, fs_readFile, readFile_patch. rewrite Hres. simpl.
  split.
  - intros err w1 data res w2 Hmkdirp Hread Hwrite.
    unfold invoke at 1. rewrite Hmkdirp, Hread.
    unfold andThen, invoke, deliver, idle. simpl. by rewrite Hwrite.
  - intros w1 err res w2 Hmkdirp Hread Hwrite.
    unfold invoke at 1. rewrite Hmkdirp, Hread.
    unfold andThen, invoke, deliver, idle. simpl. by rewrite Hwrite.
Qed.

(** X7. [overrideAPISync], which wraps [process.dlopen] and the [.node]
    loader: an untracked path goes to the original unchanged; a path the
    map lacks throws ENOENT and a map directory EISDIR, its message naming
    the wrapped member, in both cases without calling the original; a map
    file is verified and the original is called on the blob's cache path
    with the other arguments unchanged; a file without stats throws
    ENOENT. *)
Theorem overrideAPISync_redirects_to_the_cache {Rest B : Type} (name : string)
    (old : string -> Rest -> Sync World B) (p : string) (rest : Rest) (w : World) :
  (pkglock_resolve p = Untracked -> overrideAPISync name old p rest w = old p rest w) /\
  (pkglock_resolve p = Missing ->
     overrideAPISync name old p rest w =
       (Throw (SystemError ("ENOENT, " ++ p ++ " not found") "ENOENT" (-2)), w)) /\
  (forall rp dir, pkglock_resolve p = Found (ResolvedDir rp dir) ->
     overrideAPISync name old p rest w =
       (Throw (SystemError
                 ("EISDIR: illegal operation on a directory, " ++ name ++ ", " ++ p)
                 "EISDIR" (-21)), w)) /\
  (forall rp digest size fmode,
     pkglock_resolve p = Found (ResolvedFile rp digest size fmode) ->
     (forall st, pkglock_statSync (ResolvedFile rp digest size fmode) true = Ok (Some st) ->
        overrideAPISync name old p rest w = old (cachePath st) rest w) /\
     (pkglock_statSync (ResolvedFile rp digest size fmode) true = Ok None ->
        overrideAPISync name old p rest w =
          (Throw (SystemError ("ENOENT, " ++ p ++ " not found") "ENOENT" (-2)), w)) /\
     (forall err, pkglock_statSync (ResolvedFile rp digest size fmode) true = Throw err ->
        overrideAPISync name old p rest w = (Throw err, w))).
Proof.
  unfold overrideAPISync, bind, pure, throw.
  split; [by intros -> |]. split; [by intros -> |]. split; [by intros rp dir -> |].
  intros rp digest size fmode ->. simpl.
  split; [| split].
  - by intros st ->.
  - by intros ->.
  - by intros err ->.
Qed.

End Tracked.

(** ** The order of a merged listing *)

Lemma array_from_set_ext (files seen seen' : list string) :
  (forall x, x ∈ seen <-> x ∈ seen') ->
  array_from_set seen files = array_from_set seen' files.
Proof.
  revert seen seen'. induction files as [|f rest IH]; intros seen seen' Hext; simpl; [done |].
  rewrite (bool_decide_ext _ _ (Hext f)).
  case_bool_decide; [by apply IH |].
  f_equal. apply IH. intros x. rewrite !elem_of_cons, Hext. done.
Qed.

Lemma array_from_set_more_seen (files extra seen : list string) :
  array_from_set (extra ++ seen)%list files =
  filter (fun x => x ∉ extra) (array_from_set seen files).
Proof.
  revert extra seen. induction files as [|f rest IH]; intros extra seen; simpl; [done |].
  case_bool_decide as Hin; case_bool_decide as Hseen.
  - apply IH.
  - apply elem_of_app in Hin as [Hextra | ?]; [| done].
    rewrite filter_cons_False by (intros Hn; by apply Hn).
    rewrite IH.
    pose proof (IH [f] seen) as Hone. simpl in Hone.
    rewrite Hone, list_filter_filter.
    apply list_filter_iff. intros x. split; [| tauto].
    intros Hx. split; [done |]. rewrite elem_of_cons. intros [-> | Hnil]; [done | inversion Hnil].
  - exfalso. apply Hin, elem_of_app. by right.
  - rewrite filter_cons_True
      by (intros Hextra; apply Hin, elem_of_app; by left).
    f_equal. rewrite <- (IH extra (f :: seen)).
    apply array_from_set_ext. intros x.
    rewrite !elem_of_cons, !elem_of_app, !elem_of_cons. tauto.
Qed.

Lemma uniq_app (files keys : list string) :
  uniq (files ++ keys) = (uniq files ++ filter (fun k => k ∉ files) (uniq keys))%list.
Proof.
  unfold uniq.
  assert (forall seen,
    array_from_set seen (files ++ keys) =
    (array_from_set seen files ++ array_from_set (files ++ seen) keys)%list) as Happ.
  { induction files as [|f rest IH]; intros seen; simpl; [done |].
    case_bool_decide as Hseen.
    - rewrite IH. f_equal. apply array_from_set_ext. intros x.
      change (x ∈ (rest ++ seen)%list <-> x ∈ (f :: (rest ++ seen))%list).
      rewrite elem_of_cons, !elem_of_app.
      split; [tauto |]. intros [-> | ?]; tauto.
    - simpl. f_equal. rewrite IH. f_equal. apply array_from_set_ext. intros x.
      rewrite !elem_of_cons, !elem_of_app, !elem_of_cons. tauto. }
  rewrite Happ. f_equal.
  rewrite <- (array_from_set_more_seen keys files []). done.
Qed.

Section Order.

Context {World : Type} {pk : Pkglock}.

(** X8. The listing of a map directory keeps the order of its two
    sources: first the entries of the real directory in the order the real
    call gave them (first occurrences), then the map's entries that the
    real directory does not have, in the map's order. When the real
    directory does not exist the listing is the map's. *)
Theorem readdir_lists_real_entries_first
    (readdir : string -> Sync World (list string)) (p : string) (w : World)
    (rp : string) (dir : list (string * MapEntry)) :
  pkglock_resolve p = Found (ResolvedDir rp dir) ->
  (forall files w', readdir p w = (Ok files, w') ->
     let listing :=
       (uniq files ++
        filter (fun k => k ∉ files) (uniq (Object_keys_dir (ResolvedDir rp dir))))%list in
     readdirSync_patch readdir p w = (Ok listing, w') /\
     readdir_patch readdir p deliver w = ([Called (Ok listing)], w')) /\
  (forall err w', readdir p w = (Throw err, w') -> code_is err "ENOENT" = true ->
     let listing := uniq (Object_keys_dir (ResolvedDir rp dir)) in
     readdirSync_patch readdir p w = (Ok listing, w') /\
     readdir_patch readdir p deliver w = ([Called (Ok listing)], w')).
Proof.
  intros Hres. split.
  - intros files w' Hreal listing.
    assert (readdirSync_patch readdir p w = (Ok listing, w')) as Hsync.
    { unfold readdirSync_patch, bind, try_catch, pure, ret, readdir_merge.
      rewrite Hreal, Hres. simpl. by rewrite uniq_app. }
    split; [done |].
    by rewrite readdir_patch_is_readdirSync_patch, Hsync.
  - intros err w' Hreal Hcode listing.
    assert (readdirSync_patch readdir p w = (Ok listing, w')) as Hsync.
    { unfold readdirSync_patch, bind, try_catch, pure, ret, readdir_merge.
      rewrite Hreal, Hcode, Hres. done. }
    split; [done |].
    by rewrite readdir_patch_is_readdirSync_patch, Hsync.
Qed.

End Order.

Section OpenFails.

Context {World : Type} {pk : Pkglock} {hs : Host World}.

(** X9. [openSync] asks the map before the disk: for a path the map lacks
    it throws ENOENT and for a map directory EISDIR, whatever the flags and
    whatever is on the disk, without calling the original. The callback
    form asks the disk first: what the real [open] answers stands, and only
    after a real ENOENT does it report ENOENT for a path the map lacks or
    does not cover, EISDIR for a map directory, and ENOENT or pkglock's
    rejection for a map file without stats. *)
Theorem open_asks_the_map_before_or_after_the_disk
    (fs_chmod : string -> Z -> Callback World unit Z -> Act World Z)
    (open : string -> Flags -> option Z -> Sync World Z)
    (p : string) (flags : Flags) (mode : option Z) (w : World) :
  (pkglock_resolve p = Missing ->
     openSync_patch open p flags mode w =
       (Throw (SystemError ("ENOENT, " ++ p ++ " not found") "ENOENT" (-2)), w)) /\
  (forall rp dir, pkglock_resolve p = Found (ResolvedDir rp dir) ->
     openSync_patch open p flags mode w =
       (Throw (SystemError ("EISDIR: illegal operation on a directory, read, " ++ p)
                           "EISDIR" (-21)), w)) /\
  (forall fd w', open p flags mode w = (Ok fd, w') ->
     open_patch fs_chmod open p flags mode deliver w = ([Called (Ok fd)], w')) /\
  (forall err w', open p flags mode w = (Throw err, w') ->
     code_is err "ENOENT" = false ->
     open_patch fs_chmod open p flags mode deliver w = ([Called (Throw err)], w')) /\
  (forall err w', open p flags mode w = (Throw err, w') ->
     code_is err "ENOENT" = true ->
     (falsy (pkglock_resolve p) = true ->
        open_patch fs_chmod open p flags mode deliver w =
          ([Called (Throw (SystemError ("ENOENT, " ++ p ++ " not found") "ENOENT" (-2)))],
           w')) /\
     (forall rp dir, pkglock_resolve p = Found (ResolvedDir rp dir) ->
        open_patch fs_chmod open p flags mode deliver w =
          ([Called (Throw (SystemError
                             ("EISDIR: illegal operation on a directory, read, " ++ p)
                             "EISDIR" (-21)))], w')) /\
     (forall rp digest size fmode,
        pkglock_resolve p = Found (ResolvedFile rp digest size fmode) ->
        (pkglock_stat (ResolvedFile rp digest size fmode) true = Ok None ->
           open_patch fs_chmod open p flags mode deliver w =
             ([Called (Throw (SystemError ("ENOENT, " ++ p ++ " not found")
                                          "ENOENT" (-2)))], w')) /\
        (forall rejection,
           pkglock_stat (ResolvedFile rp digest size fmode) true = Throw rejection ->
           open_patch fs_chmod open p flags mode deliver w =
             ([Called (Throw rejection)], w')))).
Proof.
  unfold openSync_patch, open_patch, invoke, deliver, throw.
  split; [by intros -> |]. split; [by intros rp dir -> |].
  split; [by intros fd w' -> |]. split; [by intros err w' -> -> |].
  intros err w' -> ->. simpl.
  split; [| split].
  - intros Hfalsy. by destruct (pkglock_resolve p).
  - by intros rp dir ->.
  - intros rp digest size fmode ->. simpl. split.
    + by intros ->.
    + by intros rejection ->.
Qed.

(** X10. When the blob cannot be put at the real path, nothing is opened.
    On a map file with stats, if copying the blob out of the cache fails,
    or if the copy succeeds and setting the mode fails, then [openSync]
    with flags other than ['r'], [createReadStream] with options other
    than flags ['r'] and [createWriteStream] throw that error, and the
    original function is not called. *)
Theorem failed_materialisation_stops_the_open {Stream : Type}
    (openSync : string -> Flags -> option Z -> Sync World Z)
    (createReadStream createWriteStream : string -> option Flags -> Sync World Stream)
    (p : string) (flags : Flags) (mode : option Z) (opts : option Flags) (w : World)
    rp digest size fmode st err w1 :
  pkglock_resolve p = Found (ResolvedFile rp digest size fmode) ->
  pkglock_statSync (ResolvedFile rp digest size fmode) true = Ok (Some st) ->
  flags_is_r flags = false ->
  opts_flags_is_r opts = false ->
  fs_copyFileSync (cachePath st) p w = (Throw err, w1) \/
    (exists w0, fs_copyFileSync (cachePath st) p w = (Ok tt, w0) /\
                fs_chmodSync p 493 w0 = (Throw err, w1)) ->
  openSync_patch openSync p flags mode w = (Throw err, w1) /\
  createReadStream_patch createReadStream p opts w = (Throw err, w1) /\
  createWriteStream_patch createWriteStream p opts w = (Throw err, w1).
Proof.
  intros Hres Hstat Hflags Hopts Hfail.
  assert (materialise st p w = (Throw err, w1)) as Hmat.
  { unfold materialise, bind.
    destruct Hfail as [-> | (w0 & -> & ->)]; done. }
  unfold openSync_patch, createReadStream_patch, createWriteStream_patch.
  rewrite Hres. simpl. unfold bind, pure. rewrite Hstat, Hflags, Hopts.
  unfold bind in Hmat. rewrite Hmat. simpl. unfold ret. by rewrite Hmat.
Qed.

(** X11. How the two [readFile] patches treat their options on a tracked
    path. The callback form checks the options first: options that are
    neither a string, an object, a function nor nullish make it throw
    [TypeError('badarg')] to the caller, with the callback never invoked,
    also for a directory or a path the map lacks. [readFileSync] checks the
    path first, so a directory throws EISDIR and a path the map lacks
    ENOENT whatever the options; on a map file, falsy options of any type
    give the raw bytes and truthy options that are neither a string nor an
    object throw [TypeError('Bad arguments')] before the blob is read. *)
Theorem readFile_checks_its_options {R}
    (readFile : string -> ReadOptions -> Sync World FileData)
    (p : string) (cb : Callback World FileData R) (w : World) :
  (forall b, nullish (pkglock_resolve p) = false ->
     readFile_patch readFile p (OptOther b) cb w = ([Raised (TypeError "badarg")], w)) /\
  (forall options, pkglock_resolve p = Missing ->
     readFileSync_patch readFile p options w =
       (Throw (SystemError ("ENOENT, " ++ p ++ " not found") "ENOENT" (-2)), w)) /\
  (forall options rp dir, pkglock_resolve p = Found (ResolvedDir rp dir) ->
     readFileSync_patch readFile p options w =
       (Throw (SystemError ("EISDIR: illegal operation on a directory, read, " ++ p)
                           "EISDIR" (-21)), w)) /\
  (forall rp digest size fmode,
     pkglock_resolve p = Found (ResolvedFile rp digest size fmode) ->
     (forall options, options = OptOther true \/ options = OptCallback ->
        readFileSync_patch readFile p options w =
          (Throw (TypeError "Bad arguments"), w)) /\
     (forall options data,
        options = OptOther false \/ options = OptString "" \/ options = OptUndefined ->
        pkglock_readSync (ResolvedFile rp digest size fmode) = Ok data ->
        readFileSync_patch readFile p options w = (Ok (Raw data), w))).
Proof.
  split; [| split; [| split]].
  - intros b Hres. unfold readFile_patch. rewrite Hres. done.
  - intros options Hres. unfold readFileSync_patch. by rewrite Hres.
  - intros options rp dir Hres. unfold readFileSync_patch. by rewrite Hres.
  - intros rp digest size fmode Hres. unfold readFileSync_patch, bind, pure.
    rewrite Hres. simpl. split.
    + by intros options [-> | ->].
    + intros options data [-> | [-> | ->]] ->; done.
Qed.

(** X12. [statSyncNoException] returns the real stats when the real call
    has any; when it has none, a path the map has gets what
    [pkglock.statSync] returns, and an exception of [pkglock.statSync]
    escapes in spite of the function's name; any other path gets
    [false]. *)
Theorem statSyncNoException_falls_back_to_the_map
    (statSyncNoException : string -> Sync World (option Stats)) (p : string) (w : World) :
  (forall st w', statSyncNoException p w = (Ok (Some st), w') ->
     statSyncNoException_patch statSyncNoException p w = (Ok (Some st), w')) /\
  (forall w', statSyncNoException p w = (Ok None, w') ->
     (falsy (pkglock_resolve p) = true ->
        statSyncNoException_patch statSyncNoException p w = (Ok None, w')) /\
     (forall r, pkglock_resolve p = Found r ->
        statSyncNoException_patch statSyncNoException p w =
          (pkglock_statSync r false, w'))).
Proof.
  unfold statSyncNoException_patch, bind, pure, ret.
  split.
  - by intros st w' ->.
  - intros w' ->. split.
    + intros Hfalsy. by destruct (pkglock_resolve p).
    + by intros r ->.
Qed.

End OpenFails.

Lemma exists_answers_from_the_map_witness :
  existsSync_patch (pk := Fixture.pkglock) (fun _ w => (Ok true, w))
    "/proj/node_modules/b/index.js" Fixture.world = (Ok false, Fixture.world) /\
  exists_patch (pk := Fixture.pkglock) (fun _ w => (Ok false, w))
    "/proj/node_modules/a/index.js" deliver Fixture.world
  = ([Called (Ok (NullFirst true))], Fixture.world).
Proof.
  pose proof (exists_answers_from_the_map (pk := Fixture.pkglock)
                (fun _ w => (Ok true, w)) (fun _ w => (Ok true, w))
                "/proj/node_modules/b/index.js" Fixture.world) as [Hmissing _].
  pose proof (exists_answers_from_the_map (pk := Fixture.pkglock)
                (fun _ w => (Ok false, w)) (fun _ w => (Ok false, w))
                "/proj/node_modules/a/index.js" Fixture.world) as [_ Hfound].
  split.
  - exact (proj1 (Hmissing eq_refl)).
  - exact (proj2 (Hfound _ eq_refl)).
Defined.

Lemma chmod_writes_the_blob_out_witness :
  chmod_patch (pk := Fixture.pkglock) (hs := Fixture.host)
    (fs_readFile (pk := Fixture.pkglock) (hs := Fixture.host) Fixture.readFileSync)
    Fixture.chmodSync "/proj/node_modules/a/index.js" 493 deliver Fixture.world
  = ([Called (Ok tt)],
     <["/proj/node_modules/a/index.js" := (Fixture.blob, 493%Z)]> Fixture.world).
Proof.
  exact (proj2 (proj2
    (chmod_writes_the_blob_out (pk := Fixture.pkglock) (hs := Fixture.host)
       Fixture.readFileSync Fixture.chmodSync "/proj/node_modules/a/index.js" 493
       deliver Fixture.world))
    _ _ _ _ _ _ _ _ eq_refl eq_refl eq_refl eq_refl).
Defined.

Lemma chmod_calls_back_again_after_an_error_witness :
  chmod_patch (pk := Fixture.pkglock) (hs := Faults.no_mkdir_host)
    (fs_readFile (pk := Fixture.pkglock) (hs := Faults.no_mkdir_host) Fixture.readFileSync)
    Fixture.chmodSync "/proj/node_modules/a/index.js" 493 deliver Fixture.world
  = ([Called (Throw (Faults.mkdirp_EACCES "/proj/node_modules/a")); Called (Ok tt)],
     <["/proj/node_modules/a/index.js" := (Fixture.blob, 493%Z)]> Fixture.world).
Proof.
  exact (proj1
    (chmod_calls_back_again_after_an_error (pk := Fixture.pkglock)
       (hs := Faults.no_mkdir_host)
       Fixture.readFileSync Fixture.chmodSync "/proj/node_modules/a/index.js" 493
       Fixture.world _ _ _ _ eq_refl)
    _ _ _ _ _ eq_refl eq_refl eq_refl).
Defined.

Lemma overrideAPISync_redirects_to_the_cache_witness :
  overrideAPISync (pk := Fixture.pkglock) "dlopen"
    (fun filename (module : unit) w => (Ok filename, w))
    "/proj/node_modules/a/index.js" tt Fixture.world
  = (Ok Fixture.cache_path, Fixture.world).
Proof.
  exact (proj1 (proj2 (proj2 (proj2
    (overrideAPISync_redirects_to_the_cache (pk := Fixture.pkglock) "dlopen"
       (fun filename (module : unit) w => (Ok filename, w))
       "/proj/node_modules/a/index.js" tt Fixture.world))) _ _ _ _ eq_refl)
    Fixture.index_js_stats eq_refl).
Defined.

Lemma readdir_lists_real_entries_first_witness :
  readdirSync_patch (pk := Fixture.pkglock) Fixture.readdirSync
    "/proj/node_modules/a" Fixture.world
  = (Ok ["package.json"; "index.js"], Fixture.world).
Proof.
  exact (proj1 (proj1
    (readdir_lists_real_entries_first (pk := Fixture.pkglock) Fixture.readdirSync
       "/proj/node_modules/a" Fixture.world _ _ eq_refl)
    ["package.json"] Fixture.world eq_refl)).
Defined.

Lemma open_asks_the_map_before_or_after_the_disk_witness :
  let p := "/proj/node_modules/b/index.js" in
  let w := <[p := ([], 420%Z)]> Fixture.world in
  openSync_patch (pk := Fixture.pkglock) (hs := Fixture.host) Fixture.openSync
    p (FlagStr "r") None w
  = (Throw (SystemError "ENOENT, /proj/node_modules/b/index.js not found" "ENOENT" (-2)),
     w) /\
  open_patch (pk := Fixture.pkglock) (hs := Fixture.host)
    (fun _ _ cb => cb (Ok tt)) Fixture.openSync p (FlagStr "r") None deliver w
  = ([Called (Ok 3%Z)], w).
Proof.
  intros p w.
  pose proof (open_asks_the_map_before_or_after_the_disk
                (pk := Fixture.pkglock) (hs := Fixture.host)
                (fun _ _ cb => cb (Ok tt)) Fixture.openSync p (FlagStr "r") None w)
    as (Hsync & _ & Hasync & _).
  split.
  - exact (Hsync eq_refl).
  - exact (Hasync _ _ eq_refl).
Defined.

Lemma failed_materialisation_stops_the_open_witness :
  openSync_patch (pk := Fixture.pkglock) (hs := Fixture.host) Fixture.openSync
    "/proj/node_modules/a/index.js" (FlagStr "w") None ∅
  = (Throw (Fixture.host_ENOENT "copyfile" Fixture.cache_path), ∅).
Proof.
  exact (proj1
    (failed_materialisation_stops_the_open (pk := Fixture.pkglock) (hs := Fixture.host)
       Fixture.openSync (ReadStream (World := gmap string (Buffer * Z))) WriteStream
       "/proj/node_modules/a/index.js" (FlagStr "w") None None ∅
       _ _ _ _ Fixture.index_js_stats _ ∅
       eq_refl eq_refl eq_refl eq_refl (or_introl eq_refl))).
Defined.

Lemma readFile_checks_its_options_witness :
  readFile_patch (pk := Fixture.pkglock) (hs := Fixture.host) Fixture.readFileSync
    "/proj/node_modules/a" (OptOther false) deliver Fixture.world
  = ([Raised (TypeError "badarg")], Fixture.world) /\
  readFileSync_patch (pk := Fixture.pkglock) (hs := Fixture.host) Fixture.readFileSync
    "/proj/node_modules/a/index.js" (OptOther false) Fixture.world
  = (Ok (Raw Fixture.blob), Fixture.world).
Proof.
  pose proof (readFile_checks_its_options (pk := Fixture.pkglock) (hs := Fixture.host)
                Fixture.readFileSync "/proj/node_modules/a" deliver Fixture.world)
    as (Hasync & _).
  pose proof (readFile_checks_its_options (pk := Fixture.pkglock) (hs := Fixture.host)
                Fixture.readFileSync "/proj/node_modules/a/index.js" deliver Fixture.world)
    as (_ & _ & _ & Hsync).
  split.
  - exact (Hasync false eq_refl).
  - exact (proj2 (Hsync _ _ _ _ eq_refl) _ _ (or_introl eq_refl) eq_refl).
Defined.

Lemma statSyncNoException_falls_back_to_the_map_witness :
  statSyncNoException_patch (pk := Fixture.pkglock) (fun _ w => (Ok None, w))
    "/proj/node_modules/a/index.js" Fixture.world
  = (Ok (Some Fixture.index_js_stats), Fixture.world).
Proof.
  exact (proj2 (proj2
    (statSyncNoException_falls_back_to_the_map (pk := Fixture.pkglock)
       (fun _ w => (Ok None, w)) "/proj/node_modules/a/index.js" Fixture.world)
    _ eq_refl) _ eq_refl).
Defined.

(** * Further properties of the installer *)

Lemma strip_prefix_Some (pre s rest : string) :
  strip_prefix pre s = Some rest -> s = pre ++ rest.
Proof.
  revert s. induction pre as [| a pre IH]; intros s; simpl.
  - by intros [= ->].
  - destruct s as [| b s]; [done |].
    destruct (Ascii.eqb_spec a b) as [-> | _]; [| done].
    intros Hs. by rewrite (IH _ Hs).
Qed.

Lemma stripBOM_app (text : string) : stripBOM (BOM ++ text) = text.
Proof. unfold stripBOM. by rewrite strip_prefix_app. Qed.

(** ** Reading the project's JSON files *)

Section ReadJson.

Context {jp : JsonParser} {ss : Ssri} {co : Collaborators}.

(** X13. [readJson] never writes. A missing file gives [undefined] when
    [ignoreMissing] is set and the ENOENT of the read otherwise. A file
    that is there is parsed after one leading byte order mark is removed,
    so the text with and without the mark read alike; and a file that does
    not parse throws the parser's error also when [ignoreMissing] is set. *)
Theorem readJson_ignores_only_a_missing_file
    (jsonPath name : string) (ignoreMissing : bool) (d : gmap string string) :
  snd (Installer.readJson jsonPath name ignoreMissing d) = d /\
  (d !! path_join jsonPath name = None ->
     Installer.readJson jsonPath name true d = (Ok None, d) /\
     exists err, Installer.readJson jsonPath name false d = (Throw err, d) /\
                 err_code err = Some "ENOENT") /\
  (forall text j, JSON_parse text = Ok j ->
     d !! path_join jsonPath name = Some (BOM ++ text) \/
       (d !! path_join jsonPath name = Some text /\ strip_prefix BOM text = None) ->
     Installer.readJson jsonPath name ignoreMissing d = (Ok (Some j), d)) /\
  (forall text err, d !! path_join jsonPath name = Some text ->
     JSON_parse (stripBOM text) = Throw err -> code_is err "ENOENT" = false ->
     Installer.readJson jsonPath name ignoreMissing d = (Throw err, d)).
Proof.
  unfold Installer.readJson, try_catch, bind, pure, ret, throw, disk_readFile.
  split; [| split; [| split]].
  - destruct (d !! path_join jsonPath name) as [text |]; simpl.
    + destruct (JSON_parse (stripBOM text)) as [j | err]; simpl; [done |].
      by destruct (negb (code_is err "ENOENT") || negb ignoreMissing).
    + by destruct ignoreMissing.
  - intros ->. simpl. split; [done |]. by eexists.
  - intros text j Hparse [-> | [-> Hnone]].
    + by rewrite stripBOM_app, Hparse.
    + unfold stripBOM. by rewrite Hnone, Hparse.
  - intros text err -> -> ->. done.
Qed.

End ReadJson.

(** ** The seal as the prepare command checks it *)

Section CheckPkgLock.

Context {jp : JsonParser} {ss : Ssri} {co : Collaborators}.

(** X14. [checkPkgLock] throws nothing and returns the parsed hash file
    or [false]. It returns the hash file exactly when [package-lock.json]
    and [node_modules/.pkglock-hash] are both there and parse, the value
    parsed from the hash file is not [null], and ssri, called with
    [{ error: true }] on the re-serialised lockfile and the hash file's
    [lockfile_integrity], returns without throwing. In every other case
    (a file missing or malformed, [null] in the hash file, ssri throwing)
    it returns [false]. *)
Theorem checkPkgLock_accepts_exactly (base : string) (d : gmap string string) (map : JSON) :
  Prepare.checkPkgLock base d = Some map <->
  exists lockText lock mapText,
    d !! path_join base "package-lock.json" = Some lockText /\
    JSON_parse (stripBOM lockText) = Ok lock /\
    d !! path_join (path_join base "node_modules") ".pkglock-hash" = Some mapText /\
    JSON_parse (stripBOM mapText) = Ok map /\
    map <> JNull /\
    ssri_checkData_error (Some (JSON_stringify lock)) (prop map "lockfile_integrity")
      = Ok tt.
Proof.
  unfold Prepare.checkPkgLock, bind, pure, ret, disk_readFile.
  split.
  - destruct (d !! path_join base "package-lock.json") as [lockText |] eqn:Hlock;
      cbn -[get_prop]; [| done].
    destruct (JSON_parse (stripBOM lockText)) as [lock | err] eqn:Hl;
      cbn -[get_prop]; [| done].
    destruct (d !! path_join (path_join base "node_modules") ".pkglock-hash")
      as [mapText |] eqn:Hmap; cbn -[get_prop]; [| done].
    destruct (JSON_parse (stripBOM mapText)) as [map' | err] eqn:Hm;
      cbn -[get_prop]; [| done].
    destruct (get_prop (Some map') "lockfile_integrity") as [integrity | err] eqn:Hprop;
      cbn -[get_prop]; [| done].
    destruct (ssri_checkData_error (Some (JSON_stringify lock)) integrity)
      as [[] | err] eqn:Hcheck; cbn -[get_prop]; [| done].
    intros [= <-]. exists lockText, lock, mapText.
    split; [done |]. split; [done |]. split; [done |]. split; [done |].
    unfold get_prop in Hprop.
    split; [by intros -> |].
    destruct map'; simplify_eq; done.
  - intros (lockText & lock & mapText & -> & -> & -> & -> & Hnull & Hcheck).
    cbn -[get_prop].
    assert (get_prop (Some map) "lockfile_integrity"
            = Ok (prop map "lockfile_integrity")) as -> by (by destruct map).
    cbn. by rewrite Hcheck.
Qed.

(** X15. The seal survives a rewrite of [package-lock.json] that parses
    to the same value: [checkPkgLock] compares the digest of the lockfile
    parsed and serialised again, not of the file's text. *)
Theorem checkPkgLock_ignores_the_lockfile_layout
    (base : string) (d : gmap string string) (text text' : string) :
  d !! path_join base "package-lock.json" = Some text ->
  JSON_parse (stripBOM text') = JSON_parse (stripBOM text) ->
  Prepare.checkPkgLock base (<[path_join base "package-lock.json" := text']> d)
  = Prepare.checkPkgLock base d.
Proof.
  intros Hd Hparse.
  unfold Prepare.checkPkgLock, bind, pure, ret, disk_readFile.
  rewrite lookup_insert_eq, Hd.
  rewrite lookup_insert_ne by apply hash_file_is_not_the_lockfile.
  rewrite Hparse.
  destruct (JSON_parse (stripBOM text)) as [lock | err]; cbn -[get_prop]; [| done].
  destruct (d !! path_join (path_join base "node_modules") ".pkglock-hash")
    as [mapText |]; cbn -[get_prop]; [| done].
  destruct (JSON_parse (stripBOM mapText)) as [map' | err]; cbn -[get_prop]; [| done].
  destruct (get_prop (Some map') "lockfile_integrity") as [integrity | err]; cbn -[get_prop];
    [| done].
  by destruct (ssri_checkData_error _ integrity).
Qed.

End CheckPkgLock.

(** ** The stages of a run *)

Section StageLog.

Context {jp : JsonParser} {ss : Ssri} {co : Collaborators}.

Local Abbreviation quiet c :=
  (forall m r m', c m = (r, m') -> Installer.stages m' = Installer.stages m).

Local Abbreviation grows c :=
  (forall m r m', c m = (r, m') ->
     exists more, Installer.stages m' = (Installer.stages m ++ more)%list).

Lemma quiet_bind {A B} (c : Sync Installer.Machine A) (k : A -> Sync Installer.Machine B) :
  quiet c -> (forall a, quiet (k a)) -> quiet (bind c k).
Proof.
  intros Hc Hk m r m'. unfold bind.
  destruct (c m) as [[a | err] m1] eqn:Hcm.
  - intros Hkm. rewrite (Hk a m1 r m' Hkm). exact (Hc _ _ _ Hcm).
  - intros [= <- <-]. exact (Hc _ _ _ Hcm).
Qed.

Lemma quiet_try_catch {A} (c : Sync Installer.Machine A) handler :
  quiet c -> (forall err, quiet (handler err)) -> quiet (try_catch c handler).
Proof.
  intros Hc Hh m r m'. unfold try_catch.
  destruct (c m) as [[a | err] m1] eqn:Hcm.
  - intros [= <- <-]. exact (Hc _ _ _ Hcm).
  - intros Hhm. rewrite (Hh err m1 r m' Hhm). exact (Hc _ _ _ Hcm).
Qed.

Lemma quiet_on_disk {A} (op : Sync (gmap string string) A) : quiet (Installer.on_disk op).
Proof.
  intros m r m'. unfold Installer.on_disk.
  destruct (op (Installer.disk m)) as [r' d]. by intros [= <- <-].
Qed.

Lemma quiet_pure {A} (r : Result A) : quiet (pure (World := Installer.Machine) r).
Proof. by intros m r' m' [= <- <-]. Qed.

Lemma quiet_get_self : quiet Installer.get_self.
Proof. by intros m r m' [= <- <-]. Qed.

Lemma quiet_set_self (i : Installer.Installer) : quiet (Installer.set_self i).
Proof. by intros m r m' [= <- <-]. Qed.

Lemma npmInstall_quiet : quiet Installer.npmInstall.
Proof.
  unfold Installer.npmInstall.
  apply quiet_bind; [apply quiet_on_disk | intros _].
  apply quiet_bind; [apply quiet_get_self | intros i].
  apply quiet_bind; [apply quiet_on_disk | intros l].
  apply quiet_set_self.
Qed.

Lemma checkLock_quiet : quiet Installer.checkLock.
Proof.
  unfold Installer.checkLock.
  apply quiet_bind; [apply quiet_get_self | intros i].
  apply quiet_bind.
  { destruct (truthy (Installer.pkglockHash i)); [| apply (quiet_pure (Ok tt))].
    apply quiet_bind; [apply quiet_pure | intros integrity].
    apply quiet_bind; [apply quiet_pure | intros ok].
    destruct ok; simpl; [apply (quiet_pure (Ok tt)) | apply quiet_set_self]. }
  intros _. apply quiet_bind; [apply quiet_get_self | intros i1].
  apply quiet_bind.
  { destruct (Installer.no_lockfile i1); [apply npmInstall_quiet | apply (quiet_pure (Ok tt))]. }
  intros _. apply quiet_bind; [apply quiet_get_self | intros i2].
  apply quiet_bind.
  { destruct (Installer.no_lockfile i2); [apply quiet_pure | apply (quiet_pure (Ok tt))]. }
  intros _. apply quiet_bind; [apply quiet_on_disk | intros status].
  destruct status; [apply (quiet_pure (Ok tt)) | apply npmInstall_quiet].
Qed.

Lemma prepare_quiet : quiet Installer.prepare.
Proof.
  unfold Installer.prepare.
  apply quiet_bind; [apply quiet_get_self | intros i].
  apply quiet_bind; [apply quiet_on_disk | intros p].
  apply quiet_bind; [apply quiet_on_disk | intros lock].
  apply quiet_bind; [apply quiet_on_disk | intros shrink].
  apply quiet_bind; [apply quiet_on_disk | intros lockHash].
  apply quiet_bind.
  { destruct p as [[] |]; apply quiet_pure. }
  intros _. apply quiet_bind; [apply quiet_set_self | intros _].
  apply quiet_bind; [apply checkLock_quiet | intros _].
  apply quiet_bind; [apply quiet_get_self | intros i'].
  apply quiet_pure.
Qed.

Lemma writeLockHash_quiet : quiet Installer.writeLockHash.
Proof.
  unfold Installer.writeLockHash.
  apply quiet_bind; [apply quiet_get_self | intros i].
  apply quiet_bind.
  { apply quiet_try_catch; [apply quiet_on_disk | intros err].
    destruct (negb (code_is err "EEXIST")); apply quiet_pure. }
  intros _. apply quiet_bind; [apply quiet_pure | intros integrity].
  apply quiet_on_disk.
Qed.

Lemma grows_of_quiet {A} (c : Sync Installer.Machine A) : quiet c -> grows c.
Proof.
  intros Hc m r m' Hcm. exists []. rewrite (Hc _ _ _ Hcm). by rewrite app_nil_r.
Qed.

Lemma grows_bind {A B} (c : Sync Installer.Machine A) (k : A -> Sync Installer.Machine B) :
  grows c -> (forall a, grows (k a)) -> grows (bind c k).
Proof.
  intros Hc Hk m r m'. unfold bind.
  destruct (c m) as [[a | err] m1] eqn:Hcm.
  - intros Hkm. destruct (Hk a m1 r m' Hkm) as [more2 ->].
    destruct (Hc _ _ _ Hcm) as [more1 ->].
    exists (more1 ++ more2)%list. by rewrite app_assoc.
  - intros [= <- <-]. exact (Hc _ _ _ Hcm).
Qed.

Lemma grows_timedStage {A} (name : string) (c : Sync Installer.Machine A) :
  grows c -> grows (Installer.timedStage name c).
Proof.
  intros Hc m r m'. unfold Installer.timedStage. intros Hcm.
  destruct (Hc _ _ _ Hcm) as [more ->]. simpl.
  exists (name :: more). by rewrite <- app_assoc.
Qed.

Lemma regeneration_grows (i : Installer.Installer) :
  grows (if negb (Installer.validLockHash i) || Installer.force i
         then bind (Installer.timedStage "fetchTree" (Installer.on_disk fetchTree)) (fun _ =>
              bind (Installer.timedStage "updateJson" (Installer.on_disk updateJson)) (fun _ =>
              bind (Installer.timedStage "buildTree" (Installer.on_disk buildTree)) (fun _ =>
              bind (Installer.on_disk tinkifyBins) (fun _ =>
              bind (Installer.timedStage "runScript"
                      (Installer.on_disk (runScript "prepublish"))) (fun _ =>
              bind (Installer.timedStage "runScript"
                      (Installer.on_disk (runScript "prepare"))) (fun _ =>
              Installer.timedStage "writeLockHash" Installer.writeLockHash))))))
         else ret tt).
Proof.
  destruct (negb (Installer.validLockHash i) || Installer.force i).
  - repeat (apply grows_bind;
            [first [apply grows_timedStage, grows_of_quiet, quiet_on_disk
                   | apply grows_of_quiet, quiet_on_disk]
            | intros _]).
    apply grows_timedStage, grows_of_quiet, writeLockHash_quiet.
  - apply grows_of_quiet, (quiet_pure (Ok tt)).
Qed.

(** X16. [run] tears down whatever happens. The stage log of a run starts
    with [prepare] and ends with [teardown], the stage of the [finally]
    clause; after a run that succeeds it ends with two of them, the first
    from the [try] block. When [prepare] throws, no other stage is started
    before the teardown, and the caller receives that error, or its first
    member if its message contains [aggregate error]. *)
Theorem run_tears_down_whatever_happens (m : Installer.Machine) :
  (exists middle,
     Installer.stages (snd (Installer.run m))
     = (Installer.stages m ++ "prepare" :: middle ++ ["teardown"])%list) /\
  (fst (Installer.run m) = Ok tt ->
     exists middle,
       Installer.stages (snd (Installer.run m))
       = (Installer.stages m ++ "prepare" :: middle ++ ["teardown"; "teardown"])%list) /\
  (forall err m1,
     Installer.timedStage "prepare" Installer.prepare m = (Throw err, m1) ->
     Installer.run m =
       (Throw (if contains "aggregate error" (err_message err)
               then aggregate_first err else err),
        Installer.mkMachine (Installer.self m1) (Installer.disk m1)
          (Installer.stages m ++ ["prepare"; "teardown"]))).
Proof.
  assert (forall r m1, Installer.timedStage "prepare" Installer.prepare m = (r, m1) ->
            Installer.stages m1 = (Installer.stages m ++ ["prepare"])%list) as Hprep.
  { intros r m1. unfold Installer.timedStage. intros H.
    by rewrite (prepare_quiet _ _ _ H). }
  assert (forall r m1, Installer.run_try m = (r, m1) ->
            exists middle,
              Installer.stages m1 = (Installer.stages m ++ "prepare" :: middle)%list /\
              (r = Ok tt -> exists front, middle = (front ++ ["teardown"])%list)) as Htry.
  { intros r m1. unfold Installer.run_try. unfold bind at 1.
    destruct (Installer.timedStage "prepare" Installer.prepare m) as [[[] | err] m0] eqn:Hp.
    - pose proof (Hprep _ _ eq_refl) as H0.
      unfold bind at 1, Installer.get_self at 1.
      unfold bind at 1.
      pose proof (regeneration_grows (Installer.self m0) m0) as Hblock.
      match goal with
      | |- context [match ?c m0 with _ => _ end] => destruct (c m0) as [[[] | err] m2] eqn:Hb
      end.
      + destruct (Hblock _ _ eq_refl) as [more Hmore].
        unfold Installer.timedStage, Installer.teardown, ret. intros [= <- <-]. simpl.
        exists (more ++ ["teardown"])%list. split.
        * rewrite Hmore, H0. by rewrite <- !app_assoc.
        * intros _. by exists more.
      + destruct (Hblock _ _ eq_refl) as [more Hmore].
        intros [= <- <-]. exists more. split; [| done].
        rewrite Hmore, H0. by rewrite <- !app_assoc.
    - intros [= <- <-]. exists []. split; [| done]. by rewrite (Hprep _ _ eq_refl). }
  unfold Installer.run.
  destruct (Installer.run_try m) as [r m1] eqn:Hrun.
  destruct (Htry _ _ eq_refl) as (middle & Hstages & Hok).
  unfold Installer.timedStage at 1, Installer.teardown, ret. simpl.
  split; [| split].
  - exists middle. destruct r; simpl; rewrite Hstages; by rewrite <- !app_assoc.
  - destruct r as [[] | err]; [| done]. intros _. simpl.
    destruct (Hok eq_refl) as [front ->]. exists front.
    rewrite Hstages, <- app_assoc. simpl. by rewrite <- app_assoc.
  - intros err m0 Hp.
    unfold Installer.run_try in Hrun. unfold bind at 1 in Hrun. rewrite Hp in Hrun.
    injection Hrun as <- <-. unfold Installer.run_catch.
    by rewrite (Hprep _ _ Hp), <- app_assoc.
Qed.

(** X17. [writeLockHash] writes no file but the hash file and leaves the
    installer's fields and its stage log alone; sealing a second time
    leaves the project as the first did. *)
Theorem writeLockHash_changes_only_the_hash_file (m : Installer.Machine) :
  (forall path,
     path <> path_join (path_join (Installer.prefix (Installer.self m)) "node_modules")
               ".pkglock-hash" ->
     Installer.disk (snd (Installer.writeLockHash m)) !! path = Installer.disk m !! path) /\
  Installer.self (snd (Installer.writeLockHash m)) = Installer.self m /\
  Installer.stages (snd (Installer.writeLockHash m)) = Installer.stages m /\
  Installer.writeLockHash (snd (Installer.writeLockHash m)) = Installer.writeLockHash m.
Proof.
  destruct m as [i d s].
  unfold Installer.writeLockHash, bind, try_catch, pure, Installer.get_self,
    Installer.on_disk, disk_mkdirp, disk_writeFile. simpl.
  destruct (Installer._shrinkwrap i) as [l |] eqn:Hl; simpl.
  - rewrite Hl. simpl. split; [| split; [done | split; [done |]]].
    + intros path Hne. by rewrite lookup_insert_ne.
    + by rewrite insert_insert_eq.
  - rewrite Hl. done.
Qed.

(** X18. [checkLock] runs npm only when the lockfile needs it. With a
    lockfile in memory that has a [lockfileVersion], where there is no
    hash file or ssri's check of the lockfile against it returns, npm is
    not started before [lockVerify]: if that reports the lockfile in sync
    with [package.json], the lockfile in memory stays, the disk is as
    [lockVerify] left it, and [validLockHash] was set to false if the check
    failed; if it reports it out of sync, [npmInstall] runs. If ssri's
    check throws, as it may on a hash file without a usable
    [lockfile_integrity], [checkLock] throws that error and neither npm
    nor [lockVerify] runs. Without a lockfile and without a hash file npm
    runs first, and if the lockfile it leaves has no [lockfileVersion],
    [checkLock] throws the error that calls this a bug. *)
Theorem checkLock_runs_npm_only_when_needed (m : Installer.Machine) :
  let integrity :=
    match Installer.pkglockHash (Installer.self m) with
    | Some h => prop h "lockfile_integrity"
    | None => None
    end in
  let checked :=
    ssri_checkData (JSON_stringify_opt (Installer._shrinkwrap (Installer.self m)))
      integrity in
  (Installer.no_lockfile (Installer.self m) = false ->
   forall ok status d1,
     (truthy (Installer.pkglockHash (Installer.self m)) = true -> checked = Ok ok) ->
     lockVerify (Installer.prefix (Installer.self m)) (Installer.disk m)
       = (Ok status, d1) ->
     let i :=
       if truthy (Installer.pkglockHash (Installer.self m)) && negb ok
       then Installer.set_validLockHash false (Installer.self m)
       else Installer.self m in
     Installer.checkLock m =
       if status then (Ok tt, Installer.mkMachine i d1 (Installer.stages m))
       else Installer.npmInstall (Installer.mkMachine i d1 (Installer.stages m))) /\
  (forall err,
     truthy (Installer.pkglockHash (Installer.self m)) = true ->
     checked = Throw err ->
     Installer.checkLock m = (Throw err, m)) /\
  (Installer._shrinkwrap (Installer.self m) = None ->
   Installer.pkglockHash (Installer.self m) = None ->
   forall d1 text l,
     npm_install_package_lock_only (Installer.disk m) = (Ok tt, d1) ->
     d1 !! path_join (Installer.prefix (Installer.self m)) "package-lock.json" = Some text ->
     JSON_parse (stripBOM text) = Ok l ->
     truthy (prop l "lockfileVersion") = false ->
     Installer.checkLock m =
       (Throw (NamedError "Error"
                 "npm install to generate package-lock.json failed. This is a bug."),
        Installer.mkMachine (Installer.set_shrinkwrap (Some l) (Installer.self m)) d1
          (Installer.stages m))).
Proof.
  intros integrity checked. destruct m as [i d s]. simpl in *.
  assert (truthy (Installer.pkglockHash i) = true ->
          get_prop (Installer.pkglockHash i) "lockfile_integrity" = Ok integrity)
    as Hprop.
  { subst integrity. destruct (Installer.pkglockHash i) as [[] |]; done. }
  split; [| split].
  - intros Hlock ok status d1 Hchecked Hverify.
    assert (forall (k : unit -> Sync Installer.Machine unit),
              bind (if truthy (Installer.pkglockHash i)
                    then bind (pure (get_prop (Installer.pkglockHash i) "lockfile_integrity"))
                           (fun integrity =>
                            bind (pure (ssri_checkData
                                          (JSON_stringify_opt (Installer._shrinkwrap i))
                                          integrity))
                              (fun ok => if negb ok
                                         then Installer.set_self
                                                (Installer.set_validLockHash false i)
                                         else ret tt))
                    else ret tt) k (Installer.mkMachine i d s)
              = k tt (Installer.mkMachine
                        (if truthy (Installer.pkglockHash i) && negb ok
                         then Installer.set_validLockHash false i else i) d s))
      as Hfirst.
    { intros k. destruct (truthy (Installer.pkglockHash i)) eqn:Htruthy; [| done].
      unfold bind, pure. rewrite (Hprop eq_refl). fold checked.
      rewrite (Hchecked eq_refl). by destruct ok. }
    unfold Installer.checkLock. unfold bind at 1, Installer.get_self at 1.
    cbn [Installer.self]. rewrite Hfirst.
    set (i' := if truthy (Installer.pkglockHash i) && negb ok
               then Installer.set_validLockHash false i else i).
    assert (Installer.no_lockfile i' = false) as Hlock'
      by (subst i'; by destruct (truthy (Installer.pkglockHash i) && negb ok)).
    assert (Installer.prefix i' = Installer.prefix i) as Hprefix
      by (subst i'; by destruct (truthy (Installer.pkglockHash i) && negb ok)).
    unfold bind at 1, Installer.get_self at 1. simpl. rewrite Hlock'.
    unfold bind at 1, ret at 1.
    unfold bind at 1, Installer.get_self at 1. simpl. rewrite Hlock'.
    unfold bind at 1, ret at 1.
    unfold bind at 1, Installer.on_disk at 1. simpl. rewrite Hprefix, Hverify.
    by destruct status.
  - intros err Htruthy Hchecked.
    unfold Installer.checkLock. unfold bind at 1, Installer.get_self at 1.
    cbn [Installer.self]. rewrite Htruthy.
    unfold bind, pure. rewrite (Hprop Htruthy). fold checked. by rewrite Hchecked.
  - intros Hl Hh d1 text l Hnpm Htext Hparse Hversion.
    unfold Installer.checkLock, Installer.npmInstall, Installer.no_lockfile,
      Installer.readJson, bind, try_catch, pure, ret, throw, Installer.get_self,
      Installer.set_self, Installer.on_disk, disk_readFile.
    simpl. rewrite Hh. simpl. rewrite !Hl. simpl. rewrite Hnpm. simpl.
    rewrite Htext. simpl. rewrite Hparse. simpl.
    rewrite Hversion. by rewrite orb_true_r.
Qed.

End StageLog.

Lemma readJson_ignores_only_a_missing_file_witness :
  Installer.readJson (jp := Project.json_parser) "/proj" "npm-shrinkwrap.json" true
    Project.unsealed = (Ok None, Project.unsealed) /\
  Installer.readJson (jp := Project.json_parser) "/proj" "package-lock.json" false
    (<["/proj/package-lock.json" := BOM ++ JSON_stringify Project.lock]> Project.unsealed)
  = (Ok (Some Project.lock),
     <["/proj/package-lock.json" := BOM ++ JSON_stringify Project.lock]> Project.unsealed).
Proof.
  split.
  - exact (proj1 (proj1 (proj2
      (readJson_ignores_only_a_missing_file (jp := Project.json_parser)
         "/proj" "npm-shrinkwrap.json" true Project.unsealed)) eq_refl)).
  - exact (proj1 (proj2 (proj2
      (readJson_ignores_only_a_missing_file (jp := Project.json_parser)
         "/proj" "package-lock.json" false
         (<["/proj/package-lock.json" := BOM ++ JSON_stringify Project.lock]>
            Project.unsealed))))
      (JSON_stringify Project.lock) Project.lock eq_refl (or_introl eq_refl)).
Defined.

Lemma checkPkgLock_accepts_exactly_witness :
  Prepare.checkPkgLock (jp := Project.json_parser) (ss := Project.ssri)
    "/proj" Project.sealed
  = Some (JObj [("lockfile_integrity", JStr "sha512-BB==")]).
Proof.
  assert (JObj [("lockfile_integrity", JStr "sha512-BB==")] <> JNull) as Hnull
    by discriminate.
  apply (proj2 (checkPkgLock_accepts_exactly (jp := Project.json_parser)
                  (ss := Project.ssri) "/proj" Project.sealed
                  (JObj [("lockfile_integrity", JStr "sha512-BB==")]))).
  exists (JSON_stringify Project.lock), Project.lock, (Project.seal_of Project.lock).
  split; [| split; [| split; [| split; [| split]]]];
    [reflexivity | reflexivity | reflexivity | reflexivity | exact Hnull | reflexivity].
Defined.

Lemma checkPkgLock_ignores_the_lockfile_layout_witness :
  Prepare.checkPkgLock (jp := Project.json_parser) (ss := Project.ssri) "/proj"
    (<["/proj/package-lock.json" := "  " ++ JSON_stringify Project.lock ++ " "]>
       Project.sealed)
  = Prepare.checkPkgLock (jp := Project.json_parser) (ss := Project.ssri) "/proj"
      Project.sealed.
Proof.
  exact (checkPkgLock_ignores_the_lockfile_layout (jp := Project.json_parser)
           (ss := Project.ssri) "/proj" Project.sealed
           (JSON_stringify Project.lock) ("  " ++ JSON_stringify Project.lock ++ " ")
           eq_refl eq_refl).
Defined.

Lemma run_tears_down_whatever_happens_witness :
  Installer.run (jp := Project.json_parser) (ss := Project.ssri)
    (co := Project.collaborators)
    (Installer.mkMachine (Installer.constructor false "/proj") ∅ [])
  = (Throw (SystemError "ENOENT: no such file or directory, open '/proj/package.json'"
                        "ENOENT" (-2)),
     Installer.mkMachine (Installer.constructor false "/proj") ∅ ["prepare"; "teardown"]).
Proof.
  exact (proj2 (proj2
    (run_tears_down_whatever_happens (jp := Project.json_parser) (ss := Project.ssri)
       (co := Project.collaborators)
       (Installer.mkMachine (Installer.constructor false "/proj") ∅ [])))
    _ _ eq_refl).
Defined.

Lemma writeLockHash_changes_only_the_hash_file_witness :
  Installer.disk
    (snd (Installer.writeLockHash (ss := Project.ssri)
            (Installer.mkMachine
               (Installer.set_shrinkwrap (Some Project.lock)
                  (Installer.constructor false "/proj"))
               Project.unsealed [])))
    !! "/proj/package-lock.json"
  = Some (JSON_stringify Project.lock).
Proof.
  exact (proj1
    (writeLockHash_changes_only_the_hash_file (ss := Project.ssri)
       (Installer.mkMachine
          (Installer.set_shrinkwrap (Some Project.lock)
             (Installer.constructor false "/proj"))
          Project.unsealed []))
    "/proj/package-lock.json" (hash_file_is_not_the_lockfile "/proj")).
Defined.

Lemma checkLock_runs_npm_only_when_needed_witness :
  let sealed_installer :=
    Installer.set_read (Some Project.package_json) (Some Project.lock_mutated)
      (Some (JObj [("lockfile_integrity", JStr "sha512-BB==")]))
      (Installer.constructor false "/proj") in
  let unsealed_installer :=
    Installer.set_read (Some Project.package_json) (Some Project.lock)
      (Some (JObj [])) (Installer.constructor false "/proj") in
  Installer.checkLock (jp := Project.json_parser) (ss := Project.ssri)
    (co := Project.collaborators)
    (Installer.mkMachine sealed_installer Project.sealed [])
  = (Ok tt,
     Installer.mkMachine (Installer.set_validLockHash false sealed_installer)
       Project.sealed []) /\
  Installer.checkLock (jp := Project.json_parser) (ss := Project.ssri)
    (co := Project.collaborators)
    (Installer.mkMachine unsealed_installer Project.unsealed [])
  = (Throw (TypeError "Cannot read property 'algorithm' of undefined"),
     Installer.mkMachine unsealed_installer Project.unsealed []).
Proof.
  intros sealed_installer unsealed_installer. split.
  - exact (proj1
      (checkLock_runs_npm_only_when_needed (jp := Project.json_parser)
         (ss := Project.ssri) (co := Project.collaborators)
         (Installer.mkMachine sealed_installer Project.sealed []))
      eq_refl false true Project.sealed (fun _ => eq_refl) eq_refl).
  - exact (proj1 (proj2
      (checkLock_runs_npm_only_when_needed (jp := Project.json_parser)
         (ss := Project.ssri) (co := Project.collaborators)
         (Installer.mkMachine unsealed_installer Project.unsealed [])))
      _ eq_refl eq_refl).
Defined.

(** ** Dependencies: which are installed, and their install scripts *)

(** X19. Which dependencies the installer skips. A production dependency
    is skipped exactly when [only] is [dev] or [development]. A
    development dependency is skipped exactly when production is asked
    for, by the [production] option or by [only] being [prod] or
    [production], and nothing asks for it back: [dev] and [development]
    are not set, and neither [only] nor [also] is [dev] or [development].
    No combination of the options skips both kinds. *)
Theorem checkDepEnv_skips_one_kind_at_most
    (dev development production : bool) (only also : string) :
  (Dependencies.checkDepEnv dev development production only also false = false <->
     Dependencies.is_dev only = true) /\
  (Dependencies.checkDepEnv dev development production only also true = false <->
     dev = false /\ development = false /\
     (Dependencies.is_prod only = true \/ production = true) /\
     Dependencies.is_dev only = false /\ Dependencies.is_dev also = false) /\
  (Dependencies.checkDepEnv dev development production only also true = true \/
   Dependencies.checkDepEnv dev development production only also false = true).
Proof.
  unfold Dependencies.checkDepEnv.
  destruct dev, development, production, (Dependencies.is_prod only),
    (Dependencies.is_dev only), (Dependencies.is_dev also); simpl;
    intuition congruence.
Qed.

Lemma strip_prefix_prefix (pre s rest : string) :
  strip_prefix pre s = Some rest -> String.prefix pre s = true.
Proof.
  revert s. induction pre as [| a pre IH]; intros s; simpl.
  - by destruct s.
  - destruct s as [| b s]; [done |].
    destruct (Ascii.eqb_spec a b) as [-> | Hne]; [| done].
    intros Hs. simpl. destruct (ascii_dec b b); [by apply IH | done].
Qed.

Lemma tishify_from_length (s : string) (word_before : bool) :
  String.length (Dependencies.tishify_from word_before s) = String.length s.
Proof.
  revert word_before. induction s as [| c rest IH]; intros word_before; [done |].
  cbn [Dependencies.tishify_from].
  destruct (if word_before then None else strip_prefix "node" (String c rest))
    as [after |] eqn:Hmatch.
  - destruct (Dependencies.node_ends after).
    + destruct word_before; [done |].
      apply strip_prefix_Some in Hmatch. rewrite Hmatch. done.
    + simpl. by rewrite IH.
  - simpl. by rewrite IH.
Qed.

Lemma tishify_from_without_node (s : string) (word_before : bool) :
  contains "node" s = false -> Dependencies.tishify_from word_before s = s.
Proof.
  revert word_before. induction s as [| c rest IH]; intros word_before; [done |].
  cbn [contains]. intros [Hprefix Hrest]%orb_false_elim.
  cbn [Dependencies.tishify_from].
  destruct (if word_before then None else strip_prefix "node" (String c rest))
    as [after |] eqn:Hmatch.
  - destruct word_before; [done |].
    apply strip_prefix_prefix in Hmatch. congruence.
  - by rewrite IH.
Qed.

(** X20. The substitution [replace(/\bnode([^-\w]|$)/, 'tish$1')] that
    turns an install script into one for [tish]. It keeps the length of
    the script and leaves a script without the text [node] alone. A script
    that starts with the word [node] gets [tish] in its place and is
    otherwise kept, later occurrences of [node] included; a script that
    starts with [node-], as [node-gyp] does, keeps that start. *)
Theorem tishify_rewrites_the_first_node (s : string) :
  String.length (Dependencies.tishify s) = String.length s /\
  (contains "node" s = false -> Dependencies.tishify s = s) /\
  (Dependencies.node_ends s = true ->
     Dependencies.tishify ("node" ++ s) = "tish" ++ s) /\
  Dependencies.tishify ("node-" ++ s) = "node-" ++ Dependencies.tishify s.
Proof.
  split; [apply tishify_from_length |].
  split; [apply tishify_from_without_node |].
  split.
  - intros Hends. unfold Dependencies.tishify.
    change ("node" ++ s) with (String "n" (String "o" (String "d" (String "e" s)))).
    cbn -[Dependencies.node_ends]. by rewrite Hends.
  - done.
Qed.

Lemma tishify_rewrites_the_first_node_witness :
  Dependencies.tishify "node build.js && node check.js" = "tish build.js && node check.js" /\
  Dependencies.tishify "make all" = "make all".
Proof.
  split.
  - exact (proj1 (proj2 (proj2
      (tishify_rewrites_the_first_node " build.js && node check.js"))) eq_refl).
  - exact (proj1 (proj2 (tishify_rewrites_the_first_node "make all")) eq_refl).
Defined.

Lemma assoc_set_prop_eq (k : string) (v : JSON) (fields : list (string * JSON)) :
  assoc k (Dependencies.set_prop k v fields) = Some v.
Proof.
  induction fields as [| [k' v'] rest IH]; simpl.
  - by rewrite String.eqb_refl.
  - destruct (String.eqb k' k) eqn:Hk; simpl; [by rewrite String.eqb_refl |].
    by rewrite Hk.
Qed.

Lemma assoc_set_prop_ne (k k' : string) (v : JSON) (fields : list (string * JSON)) :
  k <> k' -> assoc k' (Dependencies.set_prop k v fields) = assoc k' fields.
Proof.
  intros Hne. induction fields as [| [k0 v0] rest IH]; simpl.
  - by destruct (String.eqb_spec k k').
  - destruct (String.eqb_spec k0 k) as [-> | Hk0]; simpl.
    + by destruct (String.eqb_spec k k').
    + by rewrite IH.
Qed.

Lemma rewrite_script_absent (name : string)
    (state : list (string * JSON) * option bool) :
  assoc name (fst state) = None -> Dependencies.rewrite_script name state = Ok state.
Proof. intros Hname. unfold Dependencies.rewrite_script. by rewrite Hname. Qed.

Lemma rewrite_script_string (name : string) (fields : list (string * JSON))
    (modified : option bool) (old : string) :
  assoc name fields = Some (JStr old) -> old <> "" ->
  Dependencies.rewrite_script name (fields, modified)
  = Ok (Dependencies.set_prop name (JStr (Dependencies.tishify old)) fields,
        Some (String.eqb (Dependencies.tishify old) old)).
Proof.
  intros Hname Hne. unfold Dependencies.rewrite_script. cbn [fst]. rewrite Hname.
  by destruct old.
Qed.

Section UpdateInstallScript.

Context {dh : Dependencies.DepHost}.

(** X21. A package without an install script gets one when its directory
    holds a file whose name ends in [.gyp], in any letter case: [scripts]
    is created if need be, [install] becomes [node-gyp rebuild], which the
    substitution leaves as it is, and the package is written to its
    [package.json]. A package that has an install script is updated
    without its directory being read. If the directory cannot be read, the
    error is thrown and nothing is written. *)
Theorem updateInstallScript_adds_the_gyp_build
    (depPath : string) (pkg : Dependencies.PackageJson) (d : gmap string string) :
  (Dependencies.scripts pkg = None ->
   forall files d1,
     Dependencies.readdirAsync depPath d = (Ok files, d1) ->
     (existsb Dependencies.is_gyp files = true ->
        let pkg' :=
          Dependencies.mkPackageJson (Some [("install", JStr "node-gyp rebuild")])
            (Dependencies.members pkg) in
        Dependencies.updateInstallScript depPath pkg d =
          (Ok pkg',
           <[path_join depPath "package.json" := Dependencies.stringify_indented pkg']> d1)) /\
     (existsb Dependencies.is_gyp files = false ->
        Dependencies.updateInstallScript depPath pkg d = (Ok pkg, d1))) /\
  (forall s, Dependencies.scripts pkg = Some s -> truthy (assoc "install" s) = true ->
     forall dh' : Dependencies.DepHost,
       Dependencies.stringify_indented (DepHost := dh')
         = Dependencies.stringify_indented (DepHost := dh) ->
       Dependencies.updateInstallScript (dh := dh') depPath pkg d =
       Dependencies.updateInstallScript (dh := dh) depPath pkg d) /\
  (forall err d1,
     match Dependencies.scripts pkg with
     | Some s => truthy (assoc "install" s)
     | None => false
     end = false ->
     Dependencies.readdirAsync depPath d = (Throw err, d1) ->
     Dependencies.updateInstallScript depPath pkg d = (Throw err, d1)).
Proof.
  split; [| split].
  - intros Hnone files d1 Hread. destruct pkg as [sc ms]. simpl in *. subst sc.
    unfold Dependencies.updateInstallScript, bind, pure, ret, disk_writeFile. simpl.
    rewrite Hread. split; intros ->; done.
  - intros s Hs Hinstall dh' Hstringify. destruct pkg as [sc ms]. simpl in *. subst sc.
    unfold Dependencies.updateInstallScript, bind, pure, ret, disk_writeFile. simpl.
    rewrite Hinstall. simpl. by rewrite Hstringify.
  - intros err d1 Hinstall Hread.
    unfold Dependencies.updateInstallScript, bind. rewrite Hinstall. simpl.
    by rewrite Hread.
Qed.

(** X22. When [updateInstallScript] writes the package back. The flag
    that decides it is set by the last of [preinstall], [install] and
    [postinstall] that the package has, and it is set when the
    substitution left that script as it was. So for a package whose only
    such script is [install], the script is rewritten in memory in every
    case, and [package.json] is written exactly when the rewriting changed
    nothing; and with an [install] and a [postinstall] script both are
    rewritten in memory and the file is written exactly when [postinstall]
    was left unchanged, whatever happened to [install]. *)
Theorem updateInstallScript_writes_what_it_left_unchanged
    (depPath : string) (pkg : Dependencies.PackageJson) (d : gmap string string)
    (s : list (string * JSON)) (install : string) :
  Dependencies.scripts pkg = Some s ->
  assoc "preinstall" s = None ->
  assoc "install" s = Some (JStr install) ->
  install <> "" ->
  (assoc "postinstall" s = None ->
     let pkg' :=
       Dependencies.mkPackageJson
         (Some (Dependencies.set_prop "install" (JStr (Dependencies.tishify install)) s))
         (Dependencies.members pkg) in
     Dependencies.updateInstallScript depPath pkg d =
       (Ok pkg',
        if String.eqb (Dependencies.tishify install) install
        then <[path_join depPath "package.json" := Dependencies.stringify_indented pkg']> d
        else d)) /\
  (forall postinstall,
     assoc "postinstall" s = Some (JStr postinstall) -> postinstall <> "" ->
     let pkg' :=
       Dependencies.mkPackageJson
         (Some (Dependencies.set_prop "postinstall"
                  (JStr (Dependencies.tishify postinstall))
                  (Dependencies.set_prop "install"
                     (JStr (Dependencies.tishify install)) s)))
         (Dependencies.members pkg) in
     Dependencies.updateInstallScript depPath pkg d =
       (Ok pkg',
        if String.eqb (Dependencies.tishify postinstall) postinstall
        then <[path_join depPath "package.json" := Dependencies.stringify_indented pkg']> d
        else d)).
Proof.
  intros Hs Hpre Hinstall Hne. destruct pkg as [sc ms]. simpl in *. subst sc.
  assert (truthy (assoc "install" s) = true) as Hhas
    by (rewrite Hinstall; by destruct install).
  assert (forall k : list (string * JSON) * option bool -> Sync (gmap string string)
                       Dependencies.PackageJson,
            bind (pure (Dependencies.rewrite_script "preinstall" (s, None)))
              (fun state => bind (pure (Dependencies.rewrite_script "install" state)) k) d
            = k (Dependencies.set_prop "install" (JStr (Dependencies.tishify install)) s,
                 Some (String.eqb (Dependencies.tishify install) install)) d) as Hfirst.
  { intros k. rewrite (rewrite_script_absent "preinstall") by done.
    unfold bind at 1, pure at 1. cbn beta iota.
    by rewrite (rewrite_script_string "install" _ _ install). }
  unfold Dependencies.updateInstallScript.
  cbn [Dependencies.scripts Dependencies.members]. rewrite Hhas. cbn [negb].
  split.
  - intros Hpost. cbv zeta. unfold bind at 1, ret at 1.
    cbn [Dependencies.scripts Dependencies.members]. rewrite Hfirst.
    rewrite (rewrite_script_absent "postinstall")
      by (cbn [fst]; by rewrite (assoc_set_prop_ne "install" "postinstall")).
    unfold bind, pure, ret, disk_writeFile. cbn [fst snd].
    by destruct (String.eqb (Dependencies.tishify install) install).
  - intros postinstall Hpost Hne'. cbv zeta. unfold bind at 1, ret at 1.
    cbn [Dependencies.scripts Dependencies.members]. rewrite Hfirst.
    rewrite (rewrite_script_string "postinstall" _ _ postinstall)
      by (by rewrite ?(assoc_set_prop_ne "install" "postinstall")).
    unfold bind, pure, ret, disk_writeFile. cbn [fst snd].
    by destruct (String.eqb (Dependencies.tishify postinstall) postinstall).
Qed.

End UpdateInstallScript.

Lemma updateInstallScript_adds_the_gyp_build_witness :
  Dependencies.updateInstallScript
    (dh := Dependencies.listing_host ["index.js"; "Binding.GYP"])
    "/proj/node_modules/a" (Dependencies.mkPackageJson None [("name", JStr "a")]) ∅
  = (Ok (Dependencies.mkPackageJson (Some [("install", JStr "node-gyp rebuild")])
           [("name", JStr "a")]),
     <["/proj/node_modules/a/package.json" :=
         JSON_stringify (JObj [("install", JStr "node-gyp rebuild")])]> ∅).
Proof.
  exact (proj1 (proj1
    (updateInstallScript_adds_the_gyp_build
       (dh := Dependencies.listing_host ["index.js"; "Binding.GYP"])
       "/proj/node_modules/a" (Dependencies.mkPackageJson None [("name", JStr "a")]) ∅)
    eq_refl _ _ eq_refl) eq_refl).
Defined.

Lemma updateInstallScript_writes_what_it_left_unchanged_witness :
  Dependencies.updateInstallScript (dh := Dependencies.listing_host [])
    "/proj/node_modules/a"
    (Dependencies.mkPackageJson (Some [("install", JStr "node build.js")]) []) ∅
  = (Ok (Dependencies.mkPackageJson (Some [("install", JStr "tish build.js")]) []), ∅) /\
  Dependencies.updateInstallScript (dh := Dependencies.listing_host [])
    "/proj/node_modules/a"
    (Dependencies.mkPackageJson (Some [("install", JStr "make")]) []) ∅
  = (Ok (Dependencies.mkPackageJson (Some [("install", JStr "make")]) []),
     <["/proj/node_modules/a/package.json" :=
         JSON_stringify (JObj [("install", JStr "make")])]> ∅).
Proof.
  assert ("node build.js" <> "") as Hne1 by discriminate.
  assert ("make" <> "") as Hne2 by discriminate.
  split.
  - exact (proj1
      (updateInstallScript_writes_what_it_left_unchanged
         (dh := Dependencies.listing_host []) "/proj/node_modules/a"
         (Dependencies.mkPackageJson (Some [("install", JStr "node build.js")]) []) ∅
         _ "node build.js" eq_refl eq_refl eq_refl Hne1) eq_refl).
  - exact (proj1
      (updateInstallScript_writes_what_it_left_unchanged
         (dh := Dependencies.listing_host []) "/proj/node_modules/a"
         (Dependencies.mkPackageJson (Some [("install", JStr "make")]) []) ∅
         _ "make" eq_refl eq_refl eq_refl Hne2) eq_refl).
Defined.

(** ** The bins *)

Lemma tishify_last_Some (s s' : string) (word_before : bool) :
  Dependencies.tishify_last word_before s = Some s' ->
  exists before after,
    s = before ++ "node" ++ after /\ s' = before ++ "tish" ++ after /\
    Dependencies.node_ends after = true /\
    ~ In (ascii_of_nat 10) (list_ascii_of_string before).
Proof.
  revert s' word_before. induction s as [| c rest IH]; intros s' word_before; [done |].
  cbn [Dependencies.tishify_last].
  destruct (Dependencies.line_ends (String c rest)) eqn:Hline; [done |].
  destruct (Dependencies.tishify_last (Dependencies.is_word_char c) rest)
    as [rest' |] eqn:Hrest.
  - intros [= <-]. destruct (IH _ _ Hrest) as (before & after & -> & -> & Hends & Hnl).
    exists (String c before), after. repeat (split; [done |]).
    simpl. intros [Hc | Hin]; [| done].
    subst c. by cbn in Hline.
  - destruct (if word_before then None else strip_prefix "node" (String c rest))
      as [after |] eqn:Hmatch; [| done].
    destruct (Dependencies.node_ends after) eqn:Hends; [| done].
    intros [= <-]. destruct word_before; [done |].
    apply strip_prefix_Some in Hmatch.
    exists "", after.
    split; [exact Hmatch |]. split; [done |]. split; [exact Hends |].
    simpl. tauto.
Qed.

(** X23. What [tinkifyBins] does to the text of a bin. A text that does
    not start with [#!] is written back as it was read. Any other text is
    either left as it is or has one [node] replaced by [tish]: one that
    stands before the first line feed and is followed by the end of the
    text or by a character that is neither a hyphen nor a word character.
    Of several such places on the first line it is the last that is
    rewritten, so that [#!/opt/node/bin/node] becomes
    [#!/opt/node/bin/tish], and the lines after the first are kept. *)
Theorem tinkify_rewrites_inside_the_shebang (data : string) :
  (String.prefix "#!" data = false -> Dependencies.tinkify data = data) /\
  (Dependencies.tinkify data = data \/
   exists before after,
     data = "#!" ++ before ++ "node" ++ after /\
     Dependencies.tinkify data = "#!" ++ before ++ "tish" ++ after /\
     Dependencies.node_ends after = true /\
     ~ In (ascii_of_nat 10) (list_ascii_of_string before)) /\
  Dependencies.tinkify ("#!/usr/bin/env node" ++ String (ascii_of_nat 10) data)
    = "#!/usr/bin/env tish" ++ String (ascii_of_nat 10) data /\
  Dependencies.tinkify ("#!/opt/node/bin/node" ++ String (ascii_of_nat 10) data)
    = "#!/opt/node/bin/tish" ++ String (ascii_of_nat 10) data.
Proof.
  split; [| split; [| split]].
  - intros Hprefix. unfold Dependencies.tinkify.
    destruct (strip_prefix "#!" data) as [line |] eqn:Hstrip; [| done].
    apply strip_prefix_prefix in Hstrip. congruence.
  - unfold Dependencies.tinkify.
    destruct (strip_prefix "#!" data) as [line |] eqn:Hstrip; [| by left].
    destruct (Dependencies.tishify_last false line) as [line' |] eqn:Hlast; [| by left].
    right. apply strip_prefix_Some in Hstrip.
    destruct (tishify_last_Some _ _ _ Hlast) as (before & after & -> & -> & Hends & Hnl).
    by exists before, after.
  - reflexivity.
  - reflexivity.
Qed.

Lemma tinkify_rewrites_inside_the_shebang_witness :
  Dependencies.tinkify "module.exports = require('node')" = "module.exports = require('node')".
Proof.
  exact (proj1 (tinkify_rewrites_inside_the_shebang "module.exports = require('node')")
           eq_refl).
Defined.

(** ** Which lockfile the installer works from *)

Section Prepare.

Context {jp : JsonParser} {ss : Ssri} {co : Collaborators}.

(** X24. [prepare] reads [package.json], [package-lock.json],
    [npm-shrinkwrap.json] and the hash file, and works from the shrinkwrap
    when that file holds a truthy value and from the lockfile otherwise.
    When the one it works from has a [lockfileVersion] and [lockVerify]
    accepts it, npm is not run, and the logical tree is built from the
    package and that lockfile. A [package.json] that holds a value other
    than an object or an array makes [prepare] throw a [TypeError], as
    [_shrinkwrap] cannot be set on it. *)
Theorem prepare_prefers_the_shrinkwrap (m : Installer.Machine)
    (p : JSON) (lock shrink : option JSON) :
  let dir := Installer.prefix (Installer.self m) in
  let d := Installer.disk m in
  Installer.readJson dir "package.json" false d = (Ok (Some p), d) ->
  Installer.readJson dir "package-lock.json" true d = (Ok lock, d) ->
  Installer.readJson dir "npm-shrinkwrap.json" true d = (Ok shrink, d) ->
  Installer.readJson dir "node_modules/.pkglock-hash" true d = (Ok None, d) ->
  ((forall fields, p <> JObj fields) -> (forall items, p <> JArr items) ->
   Installer.prepare m = (Throw (TypeError "Cannot create property '_shrinkwrap'"), m)) /\
  (forall d1 chosen,
     (exists fields, p = JObj fields) ->
     chosen = (if truthy shrink then shrink else lock) ->
     truthy chosen = true ->
     truthy (match chosen with Some l => prop l "lockfileVersion" | None => None end)
       = true ->
     lockVerify dir d = (Ok true, d1) ->
     Installer.prepare m =
       (buildLogicalTree (Some p) chosen,
        Installer.mkMachine
          (Installer.set_read (Some p) chosen None (Installer.self m)) d1
          (Installer.stages m))).
Proof.
  intros dir d Hp Hlock Hshrink Hhash. destruct m as [i dd s]. simpl in *.
  subst dir d. split.
  - intros Hobj Harr.
    unfold Installer.prepare. unfold bind at 1, Installer.get_self at 1.
    unfold bind at 1, Installer.on_disk at 1. cbn [Installer.self Installer.disk
      Installer.stages]. rewrite Hp.
    unfold bind at 1, Installer.on_disk at 1. cbn [Installer.self Installer.disk
      Installer.stages]. rewrite Hlock.
    unfold bind at 1, Installer.on_disk at 1. cbn [Installer.self Installer.disk
      Installer.stages]. rewrite Hshrink.
    unfold bind at 1, Installer.on_disk at 1. cbn [Installer.self Installer.disk
      Installer.stages]. rewrite Hhash.
    unfold bind at 1.
    destruct p as [| b | n | str | items | fields]; try done;
      [by destruct (Harr items) | by destruct (Hobj fields)].
  - intros d1 chosen [fields ->] Hchosen Htruthy Hversion Hverify.
    assert (js_or shrink lock = chosen) as Hor by (by rewrite Hchosen).
    destruct chosen as [l |]; [| done].
    unfold Installer.prepare. unfold bind at 1, Installer.get_self at 1.
    unfold bind at 1, Installer.on_disk at 1. cbn [Installer.self Installer.disk
      Installer.stages]. rewrite Hp.
    unfold bind at 1, Installer.on_disk at 1. cbn [Installer.self Installer.disk
      Installer.stages]. rewrite Hlock.
    unfold bind at 1, Installer.on_disk at 1. cbn [Installer.self Installer.disk
      Installer.stages]. rewrite Hshrink.
    unfold bind at 1, Installer.on_disk at 1. cbn [Installer.self Installer.disk
      Installer.stages]. rewrite Hhash.
    unfold bind at 1, ret at 1.
    unfold bind at 1, Installer.set_self at 1. rewrite Hor.
    cbn [Installer.self Installer.disk Installer.stages].
    unfold Installer.checkLock, Installer.no_lockfile, bind, pure, ret, throw,
      Installer.get_self, Installer.set_self, Installer.on_disk.
    simpl in Htruthy, Hversion. simpl. rewrite Htruthy, Hversion. simpl.
    rewrite Htruthy, Hversion. simpl. by rewrite Hverify.
Qed.

End Prepare.

Lemma prepare_prefers_the_shrinkwrap_witness :
  let d := <["/proj/npm-shrinkwrap.json" := JSON_stringify Project.lock_mutated]>
             Project.unsealed in
  Installer.prepare (jp := Project.json_parser) (ss := Project.ssri)
    (co := Project.collaborators)
    (Installer.mkMachine (Installer.constructor false "/proj") d [])
  = (Ok tt,
     Installer.mkMachine
       (Installer.set_read (Some Project.package_json) (Some Project.lock_mutated) None
          (Installer.constructor false "/proj")) d []).
Proof.
  intros d.
  exact (proj2
    (prepare_prefers_the_shrinkwrap (jp := Project.json_parser) (ss := Project.ssri)
       (co := Project.collaborators)
       (Installer.mkMachine (Installer.constructor false "/proj") d [])
       Project.package_json (Some Project.lock) (Some Project.lock_mutated)
       eq_refl eq_refl eq_refl eq_refl)
    d (Some Project.lock_mutated) (ex_intro _ _ eq_refl) eq_refl eq_refl eq_refl eq_refl).
Defined.
